(** * UPager license server: the license lifecycle of [license_server.py]

    A shallow embedding of the key generator and of the four lifecycle
    operations ([create_license], [activate], [verify], [deactivate]) over an
    explicit model of the three SQLite tables, followed by the properties of
    the specification that are about them.

    Modelling conventions.
    - A Python [str] and an SQLite TEXT value are a [string]; a character is
      a code point below 256.  On that domain [strip], [py_lower] and
      [sql_upper] below are exactly Python's [str.strip()], [str.lower()] and
      SQLite's [UPPER()] (which only folds the ASCII letters).
    - A table is the list of its rows in rowid order, which is the order in
      which a full scan visits them; [fetchone()] on a SELECT from one table
      is the first match.  The join of [verify] has no ORDER BY, and SQLite
      serves its inner loop from an index that it builds for the query, so
      which of several matching activation rows comes first is left to a
      parameter of [verify], like the clock.
    - An INTEGER column holds a signed 64-bit value; binding a Python [int]
      outside that range raises [OverflowError] before the statement runs.
    - [datetime] values are microseconds as [Z]; a TEXT column holding an
      ISO timestamp is the timestamp itself ([fromisoformat] after
      [isoformat] is the identity), NULL is [None].  Clock readings are far
      from [datetime.max], so the overflow of [+ timedelta(days=365)] is not
      modelled, and counters are far from the 64-bit bounds.
    - [datetime.utcnow()] is read several times per request: an operation
      takes [clk : nat -> Z], the successive readings of the clock during
      that call.
    - Python's [sqlite3] leaves foreign keys unenforced, so the FOREIGN KEY
      clause of [activations] constrains nothing.
    - A handler that returns before [conn.commit()] has written nothing.
      Failures of the storage itself, which the handlers answer with 500
      "Internal server error", are outside the model.
    - Of the admin endpoints, [admin_create] and the two counts of
      [admin_stats] that are over the tables are modelled; the third count
      and [health] read the clock as text and are not. *)

From Stdlib Require Import ZArith List Bool Lia.
From Stdlib Require Import Strings.Ascii Strings.String Strings.Byte.
From Stdlib Require Import Sorting.Sorted.
From Stdlib Require OrderedTypeEx.
Import ListNotations.
Local Open Scope string_scope.
Local Open Scope Z_scope.

(** ** Strings *)

Module Str.

(** [str.isspace()] on the code points below 256: TAB..CR, FS..US, SPACE,
    NEL (133) and NBSP (160). *)
Definition is_space (c : ascii) : bool :=
  let n := N_of_ascii c in
  ((9 <=? n) && (n <=? 13) || (28 <=? n) && (n <=? 32)
   || (n =? 133) || (n =? 160))%N.

Fixpoint lstrip (s : string) : string :=
  match s with
  | EmptyString => EmptyString
  | String c s' => if is_space c then lstrip s' else s
  end.

Fixpoint rstrip (s : string) : string :=
  match s with
  | EmptyString => EmptyString
  | String c s' =>
      match rstrip s' with
      | EmptyString => if is_space c then EmptyString else String c EmptyString
      | t => String c t
      end
  end.

(** [s.strip()] *)
Definition strip (s : string) : string := rstrip (lstrip s).

Fixpoint map (f : ascii -> ascii) (s : string) : string :=
  match s with
  | EmptyString => EmptyString
  | String c s' => String (f c) (map f s')
  end.

(** ASCII upper-casing of one character: [a]..[z] to [A]..[Z]. *)
Definition upper_ascii (c : ascii) : ascii :=
  let n := N_of_ascii c in
  if ((97 <=? n) && (n <=? 122))%N then ascii_of_N (n - 32) else c.

(** SQLite's [UPPER(X)]: only the ASCII letters are folded.  On an ASCII
    string this is also Python's [str.upper()], which is how the key
    generator uses it on a string of hexadecimal digits. *)
Definition sql_upper (s : string) : string := map upper_ascii s.

(** Python's [str.lower()] on code points below 256: [A]..[Z] and the
    Latin-1 capitals 192..222 except the multiplication sign 215. *)
Definition lower_char (c : ascii) : ascii :=
  let n := N_of_ascii c in
  if ((65 <=? n) && (n <=? 90)
      || (192 <=? n) && (n <=? 222) && negb (n =? 215))%N
  then ascii_of_N (n + 32) else c.

Definition py_lower (s : string) : string := map lower_char s.

(** [s.startswith(p)] *)
Definition startswith (s p : string) : bool := String.prefix p s.

(** [sub in s] *)
Fixpoint contains (sub s : string) : bool :=
  String.prefix sub s ||
  match s with
  | EmptyString => false
  | String _ s' => contains sub s'
  end.

(** ['-'.join(parts)] is [String.concat "-" parts]; [s[i:i+4]] is
    [String.substring i 4 s] (both clip at the end of [s]). *)

(** Truthiness of a [str]: [not s] holds for the empty string only. *)
Definition nonempty (s : string) : bool :=
  match s with EmptyString => false | _ => true end.

End Str.

(** ** KeyGenerator *)

Module KeyGen.

Definition hex_char (n : N) : ascii :=
  match String.get (N.to_nat n) "0123456789abcdef" with
  | Some c => c
  | None => "0"%char
  end.

(** The two lower-case hexadecimal digits of a byte, as [bytes.hex()]
    writes them. *)
Definition hex_of_byte (b : byte) : string :=
  let n := Byte.to_N b in
  String (hex_char (n / 16)) (String (hex_char (n mod 16)) EmptyString).

Fixpoint hexlify (bs : list byte) : string :=
  match bs with
  | [] => EmptyString
  | b :: bs' => hex_of_byte b ++ hexlify bs'
  end.

(** [secrets.token_hex(nbytes)]: the hexadecimal text of
    [secrets.token_bytes(nbytes)].  The operating system's generator is the
    argument [token_bytes]; it answers a request for [n] bytes with [n]
    bytes. *)
Definition token_hex (token_bytes : nat -> list byte) (nbytes : nat) : string :=
  hexlify (token_bytes nbytes).

(** [range(0, 16, 4)] *)
Definition range_0_16_4 : list nat := [0; 4; 8; 12]%nat.

Definition generate_license_key
    (token_bytes : nat -> list byte) (tier : string) : string :=
  let random_hex := Str.sql_upper (token_hex token_bytes 8) in
  let parts :=
    List.map (fun i => String.substring i 4 random_hex) range_0_16_4 in
  "UPAGER-" ++ String.concat "-" parts.

(** The value of an upper-case hexadecimal digit, and of two of them; used
    to read a key back into the bytes it was drawn from. *)
Definition hex_value (c : ascii) : N :=
  let n := N_of_ascii c in
  (if n <? 58 then n - 48 else n - 55)%N.

Definition unhex2 (c1 c2 : ascii) : N := (16 * hex_value c1 + hex_value c2)%N.

(** The two upper-case digits that a byte contributes to the key. *)
Definition hi (b : byte) : ascii :=
  Str.upper_ascii (hex_char (Byte.to_N b / 16)).
Definition lo (b : byte) : ascii :=
  Str.upper_ascii (hex_char (Byte.to_N b mod 16)).

(** An upper-case hexadecimal digit. *)
Definition is_upper_hex (c : ascii) : bool :=
  let n := N_of_ascii c in
  ((48 <=? n) && (n <=? 57) || (65 <=? n) && (n <=? 70))%N.

Fixpoint all_upper_hex (s : string) : bool :=
  match s with
  | EmptyString => true
  | String c s' => is_upper_hex c && all_upper_hex s'
  end.

(** One [XXXX] group of the key format. *)
Definition is_group (g : string) : Prop :=
  String.length g = 4%nat /\ all_upper_hex g = true.

(** The textual format [UPAGER-XXXX-XXXX-XXXX-XXXX]. *)
Definition key_format (k : string) : Prop :=
  exists g1 g2 g3 g4,
    k = "UPAGER-" ++ g1 ++ "-" ++ g2 ++ "-" ++ g3 ++ "-" ++ g4 /\
    is_group g1 /\ is_group g2 /\ is_group g3 /\ is_group g4.

(** The key carries [n] bytes of entropy: it is determined by the answer of
    the generator to a request for [n] bytes, and distinct answers give
    distinct keys. *)
Definition key_entropy_bytes (n : nat) : Prop :=
  (forall r1 r2 tier, r1 n = r2 n ->
     generate_license_key r1 tier = generate_license_key r2 tier) /\
  (forall r1 r2 tier,
     List.length (r1 n) = n -> List.length (r2 n) = n ->
     generate_license_key r1 tier = generate_license_key r2 tier ->
     r1 n = r2 n).

End KeyGen.

(** ** The three tables *)

Module Store.

(** A row of [licenses].  [created_at], [activated_at], [expires_at] and
    [maintenance_expires_at] are TEXT timestamps; [current_activations] has
    DEFAULT 0. *)
Record License := mkLicense {
  license_key : string;
  email : string;
  type : string;
  tier : string;
  billing_type : string;
  status : string;
  created_at : Z;
  activated_at : option Z;
  expires_at : option Z;
  maintenance_expires_at : option Z;
  max_activations : Z;
  current_activations : Z
}.

(** A row of [activations]. *)
Record Activation := mkActivation {
  a_license_key : string;
  a_machine_id : string;
  a_ip_address : option string;
  a_activated_at : Z;
  a_last_verified : option Z;
  a_status : string
}.

(** A row of [verification_log]. *)
Record VerificationLogEntry := mkLogEntry {
  v_license_key : string;
  v_machine_id : string;
  v_ip_address : option string;
  v_timestamp : Z;
  v_result : string;
  v_message : string
}.

Record DB := mkDB {
  licenses : list License;
  activations : list Activation;
  verification_log : list VerificationLogEntry
}.

(** The database [init_db] leaves behind on first start. *)
Definition init_db : DB := mkDB [] [] [].

Definition with_licenses (db : DB) (ls : list License) : DB :=
  mkDB ls (activations db) (verification_log db).

(** The values that [sqlite3] binds to an INTEGER parameter: for a Python
    [int] outside the signed 64-bit range it raises [OverflowError]. *)
Definition fits_int64 (z : Z) : bool :=
  (- 2 ^ 63 <=? z) && (z <? 2 ^ 63).

(** [fetchone()] on a result whose order the query leaves open: [rows] are
    the rows of the result in rowid order and [sel] stands for the order in
    which the engine produces them; the answer is always one of the rows,
    and every row is the answer for some [sel]. *)
Definition fetch_one {A} (sel : nat) (rows : list A) : option A :=
  match rows with
  | [] => None
  | r :: _ => Some (List.nth sel rows r)
  end.

Definition with_activations (db : DB) (acts : list Activation) : DB :=
  mkDB (licenses db) acts (verification_log db).

Definition with_log (db : DB) (lg : list VerificationLogEntry) : DB :=
  mkDB (licenses db) (activations db) lg.

(** [UPDATE t SET ... WHERE p]: every row that satisfies [p] is rewritten,
    the others and the order are kept. *)
Definition update_where {A} (p : A -> bool) (f : A -> A) (rows : list A)
  : list A :=
  List.map (fun r => if p r then f r else r) rows.

(** [WHERE UPPER(license_key) = UPPER(?)] *)
Definition key_ieq (k1 k2 : string) : bool :=
  (Str.sql_upper k1 =? Str.sql_upper k2)%string.

(** [SELECT ... FROM licenses WHERE UPPER(license_key) = UPPER(?)] followed
    by [fetchone()]. *)
Definition find_license (db : DB) (key : string) : option License :=
  List.find (fun l => key_ieq (license_key l) key) (licenses db).

(** [WHERE license_key = ? AND machine_id = ?] on [activations]: the key is
    compared as it is written. *)
Definition act_exact (key machine_id : string) (a : Activation) : bool :=
  (a_license_key a =? key)%string && (a_machine_id a =? machine_id)%string.

(** [WHERE UPPER(license_key) = UPPER(?) AND machine_id = ?] on
    [activations]. *)
Definition act_ieq (key machine_id : string) (a : Activation) : bool :=
  key_ieq (a_license_key a) key && (a_machine_id a =? machine_id)%string.

(** [WHERE license_key = ?] on [licenses]. *)
Definition lic_exact (key : string) (l : License) : bool :=
  (license_key l =? key)%string.

Definition set_last_verified_ip (t : Z) (ip : option string) (a : Activation)
  : Activation :=
  mkActivation (a_license_key a) (a_machine_id a) ip (a_activated_at a)
               (Some t) (a_status a).

Definition set_last_verified (t : Z) (a : Activation) : Activation :=
  mkActivation (a_license_key a) (a_machine_id a) (a_ip_address a)
               (a_activated_at a) (Some t) (a_status a).

Definition set_status (s : string) (a : Activation) : Activation :=
  mkActivation (a_license_key a) (a_machine_id a) (a_ip_address a)
               (a_activated_at a) (a_last_verified a) s.

(** [SET current_activations = current_activations + 1,
        activated_at = COALESCE(activated_at, ?)] *)
Definition count_activation (t : Z) (l : License) : License :=
  mkLicense (license_key l) (email l) (type l) (tier l) (billing_type l)
            (status l) (created_at l)
            (match activated_at l with Some t0 => Some t0 | None => Some t end)
            (expires_at l) (maintenance_expires_at l) (max_activations l)
            (current_activations l + 1).

(** [SET current_activations = current_activations - 1] *)
Definition uncount_activation (l : License) : License :=
  mkLicense (license_key l) (email l) (type l) (tier l) (billing_type l)
            (status l) (created_at l) (activated_at l) (expires_at l)
            (maintenance_expires_at l) (max_activations l)
            (current_activations l - 1).

(** [SET expires_at = ?] *)
Definition set_expires_at (t : Z) (l : License) : License :=
  mkLicense (license_key l) (email l) (type l) (tier l) (billing_type l)
            (status l) (created_at l) (activated_at l) (Some t)
            (maintenance_expires_at l) (max_activations l)
            (current_activations l).

(** An [activations] row with status [active] that refers to the license
    with key [key], keys compared without regard to case. *)
Definition counted (key : string) (a : Activation) : bool :=
  key_ieq (a_license_key a) key && (a_status a =? "active")%string.

(** The number of such rows. *)
Definition active_count (db : DB) (key : string) : Z :=
  Z.of_nat (List.length (List.filter (counted key) (activations db))).

End Store.

(** ** LicenseLifecycle *)

Module Lifecycle.
Import Store.

(** [timedelta(days=365)], in microseconds. *)
Definition days365 : Z := 365 * 86400 * 1000000.

(** The answers of [/activate], with their HTTP status. *)
Inductive ActivateResponse :=
| ActMissingFields                       (* 400 'Missing required fields' *)
| ActInvalidKey                          (* 404 'Invalid license key' *)
| ActLicenseIs (st : string)             (* 403 'License is {status}' *)
| ActEmailMismatch                       (* 403 'Email does not match license' *)
| ActLimitReached (max : Z)              (* 403 'Maximum activations ({max}) reached' *)
| ActOk (ty tr billing : string)         (* 200, the 'license' object *)
        (expires : option Z) (maintenance_expires : Z).

(** The answers of [/verify]. *)
Inductive VerifyResponse :=
| VerMissingFields                       (* 400 'Missing required fields' *)
| VerInvalidKey                          (* 'Invalid license key' *)
| VerLicenseIs (st : string)             (* 'License is {status}' *)
| VerNotActivated                        (* 'License not activated on this machine' *)
| VerExpired                             (* 'License has expired' *)
| VerValid (ty tr billing : string)
           (expires maintenance_expires : option Z).

(** The ['valid'] member of the answer. *)
Definition valid (r : VerifyResponse) : bool :=
  match r with VerValid _ _ _ _ _ => true | _ => false end.

(** The answers of [/deactivate]. *)
Inductive DeactivateResponse :=
| DeMissingFields                        (* 400 'Missing required fields' *)
| DeNoActiveActivation                   (* 404 'No active activation found' *)
| DeOk.                                  (* 'License deactivated successfully' *)

Definition derive_type (tier : string) : string :=
  if Str.startswith tier "pro" then "pro"
  else if Str.startswith tier "enterprise" then "enterprise"
  else "free".

Definition derive_billing_type (tier : string) : string :=
  if Str.contains "lifetime" tier then "one-time" else "annual".

(** How a call of a Python function ends: it returns a value, or an
    exception that it does not catch leaves it. *)
Inductive Outcome (A : Type) :=
| Returns (a : A)
| Raises (exn : string).
Arguments Returns {A} a.
Arguments Raises {A} exn.

(** [create_license(email, tier, max_activations)].  Binding a limit that
    does not fit an INTEGER raises [OverflowError], which the function does
    not catch: nothing is stored.  The INSERT raises [IntegrityError] when
    the generated key is already stored (UNIQUE); the function catches it
    and returns [None], and the table is as before. *)
Definition create_license (db : DB) (token_bytes : nat -> list byte)
    (clk : nat -> Z) (email tier : string) (max_activations : Z)
  : DB * Outcome (option string) :=
  let key := KeyGen.generate_license_key token_bytes tier in
  let license_type := derive_type tier in
  let billing_type := derive_billing_type tier in
  if negb (fits_int64 max_activations) then (db, Raises "OverflowError")
  else if List.existsb (lic_exact key) (licenses db) then (db, Returns None)
  else
    (with_licenses db
       (licenses db ++
        [mkLicense key email license_type tier billing_type "active"
                   (clk 0%nat) None None None max_activations 0]),
     Returns (Some key)).

(** The tail of [activate], from [# Calculate expiry dates] on: [l] is the
    license row read at the start of the request, [now] the clock reading
    taken here. *)
Definition activate_expiry (db : DB) (key : string) (l : License) (now : Z)
  : DB * ActivateResponse :=
  let '(license_expires, maintenance_expires) :=
    if (billing_type l =? "one-time")%string
    then (None, now + days365)
    else (Some (now + days365), now + days365) in
  let db' :=
    match expires_at l, license_expires with
    | None, Some e =>
        with_licenses db
          (update_where (lic_exact key) (set_expires_at e) (licenses db))
    | _, _ => db
    end in
  (db', ActOk (type l) (tier l) (billing_type l)
              license_expires maintenance_expires).

(** What the tail of [activate] makes of one license row: the row gets its
    first expiry date when the license read at the start of the request has
    none, is not a one-time purchase, and the row carries the key of the
    request as it is written. *)
Definition expiry_row (key : string) (l : License) (now : Z) (r : License)
  : License :=
  match expires_at l with
  | Some _ => r
  | None =>
      if (billing_type l =? "one-time")%string then r
      else if lic_exact key r then set_expires_at (now + days365) r else r
  end.

(** [activate()]: [key], [email], [machine_id] are the members of the
    request before [.strip()], [ip] is [data.get('ip', request.remote_addr)]. *)
Definition activate (db : DB) (clk : nat -> Z)
    (key email machine_id : string) (ip : option string)
  : DB * ActivateResponse :=
  let key := Str.strip key in
  let email := Str.strip email in
  let machine_id := Str.strip machine_id in
  if negb (Str.nonempty key && Str.nonempty email && Str.nonempty machine_id)
  then (db, ActMissingFields)
  else
    match find_license db key with
    | None => (db, ActInvalidKey)
    | Some l =>
        if negb (status l =? "active")%string
        then (db, ActLicenseIs (status l))
        else if negb (Str.py_lower email =? Str.py_lower (Store.email l))%string
        then (db, ActEmailMismatch)
        else
          match List.find (act_exact key machine_id) (activations db) with
          | Some _ =>
              (* already activated: update last verified *)
              let db1 :=
                with_activations db
                  (update_where (act_exact key machine_id)
                     (set_last_verified_ip (clk 0%nat) ip) (activations db)) in
              activate_expiry db1 key l (clk 1%nat)
          | None =>
              (* new activation: check limit *)
              if current_activations l >=? max_activations l
              then (db, ActLimitReached (max_activations l))
              else
                let db1 :=
                  with_activations db
                    (activations db ++
                     [mkActivation key machine_id ip (clk 0%nat)
                                   (Some (clk 1%nat)) "active"]) in
                let db2 :=
                  with_licenses db1
                    (update_where (lic_exact key)
                       (count_activation (clk 2%nat)) (licenses db1)) in
                activate_expiry db2 key l (clk 3%nat)
          end
    end.

(** The activation rows that the join of [verify] pairs with license [l]:
    [ON UPPER(l.license_key) = UPPER(a.license_key) AND a.machine_id = ?]. *)
Definition joined_rows (db : DB) (l : License) (machine_id : string)
  : list Activation :=
  List.filter (act_ieq (license_key l) machine_id) (activations db).

(** The row that [fetchone()] takes from
    [licenses l LEFT JOIN activations a
       ON UPPER(l.license_key) = UPPER(a.license_key) AND a.machine_id = ?
     WHERE UPPER(l.license_key) = UPPER(?)]:
    the first license that matches, with one of the activation rows that the
    join pairs with it, if there is any.  The outer loop scans [licenses];
    the order of the inner rows is the engine's, see [fetch_one]. *)
Definition verify_join (db : DB) (sel : nat) (key machine_id : string)
  : option (License * option Activation) :=
  match find_license db key with
  | None => None
  | Some l => Some (l, fetch_one sel (joined_rows db l machine_id))
  end.

(** [verify()]; [sel] is the order in which the engine produces the rows
    of the join. *)
Definition verify (db : DB) (clk : nat -> Z) (sel : nat)
    (key machine_id : string)
  : DB * VerifyResponse :=
  let key := Str.strip key in
  let machine_id := Str.strip machine_id in
  if negb (Str.nonempty key && Str.nonempty machine_id)
  then (db, VerMissingFields)
  else
    match verify_join db sel key machine_id with
    | None =>
        (with_log db
           (verification_log db ++
            [mkLogEntry key machine_id None (clk 0%nat) "failed" "Invalid key"]),
         VerInvalidKey)
    | Some (l, oa) =>
        if negb (status l =? "active")%string
        then (db, VerLicenseIs (status l))
        else
          match oa with
          | None => (db, VerNotActivated)
          | Some a =>
              if negb (Str.nonempty (a_status a)) then (db, VerNotActivated)
              else
                (* the clock is read for the expiry check of an annual
                   license with an expiry date only *)
                let '(expired, n) :=
                  match (billing_type l =? "annual")%string, expires_at l with
                  | true, Some expiry_date =>
                      (clk 0%nat >? expiry_date, 1%nat)
                  | _, _ => (false, 0%nat)
                  end in
                if expired then (db, VerExpired)
                else
                  let db1 :=
                    with_activations db
                      (update_where (act_exact key machine_id)
                         (set_last_verified (clk n)) (activations db)) in
                  let db2 :=
                    with_log db1
                      (verification_log db1 ++
                       [mkLogEntry key machine_id None (clk (S n)) "success"
                                   ("Verified " ++ tier l)]) in
                  let maintenance_expires :=
                    if (billing_type l =? "one-time")%string
                    then Some (a_activated_at a + days365)
                    else expires_at l in
                  (db2, VerValid (type l) (tier l) (billing_type l)
                                 (expires_at l) maintenance_expires)
          end
    end.

(** [deactivate()] *)
Definition deactivate (db : DB) (key machine_id : string)
  : DB * DeactivateResponse :=
  let key := Str.strip key in
  let machine_id := Str.strip machine_id in
  if negb (Str.nonempty key && Str.nonempty machine_id)
  then (db, DeMissingFields)
  else
    match List.find
            (fun a => act_ieq key machine_id a && (a_status a =? "active")%string)
            (activations db) with
    | None => (db, DeNoActiveActivation)
    | Some _ =>
        let db1 :=
          with_activations db
            (update_where (act_ieq key machine_id) (set_status "deactivated")
                          (activations db)) in
        let db2 :=
          with_licenses db1
            (update_where (lic_exact key) uncount_activation (licenses db1)) in
        (db2, DeOk)
    end.

End Lifecycle.

(** ** Sequences of requests *)

Module Trace.
Import Store Lifecycle.

(** One call of a public operation, with its arguments and with what it
    reads from its environment (random bytes, clock). *)
Inductive Call :=
| Create (token_bytes : nat -> list byte) (clk : nat -> Z)
         (email tier : string) (max_activations : Z)
| Activate (clk : nat -> Z) (key email machine_id : string) (ip : option string)
| Verify (clk : nat -> Z) (sel : nat) (key machine_id : string)
| Deactivate (key machine_id : string).

Definition step (db : DB) (c : Call) : DB :=
  match c with
  | Create tb clk email tier max => fst (create_license db tb clk email tier max)
  | Activate clk key email m ip => fst (activate db clk key email m ip)
  | Verify clk sel key m => fst (verify db clk sel key m)
  | Deactivate key m => fst (deactivate db key m)
  end.

Definition run (db : DB) (cs : list Call) : DB := List.fold_left step cs db.

Definition is_activate (c : Call) : Prop :=
  match c with Activate _ _ _ _ _ => True | _ => False end.

(** Stored license keys are in upper case, as the generator writes them. *)
Definition keys_canonical (db : DB) : Prop :=
  forall l, In l (licenses db) -> Str.sql_upper (license_key l) = license_key l.

(** The UNIQUE constraint on [licenses.license_key]. *)
Definition keys_unique (db : DB) : Prop :=
  NoDup (List.map license_key (licenses db)).

(** [current_activations <= max_activations] on every license. *)
Definition within_limit (db : DB) : Prop :=
  forall l, In l (licenses db) -> current_activations l <= max_activations l.

(** The counter of a license agrees with its active activation rows. *)
Definition counter_matches (db : DB) : Prop :=
  forall l, In l (licenses db) ->
    current_activations l = active_count db (license_key l).

(** Every activation row refers to a stored license. *)
Definition activations_refer (db : DB) : Prop :=
  forall a, In a (activations db) ->
    exists l, In l (licenses db) /\
              key_ieq (a_license_key a) (license_key l) = true.

(** The databases the four operations work on: what [init_db] and
    [create_license] establish and the other operations keep. *)
Record wf_db (db : DB) : Prop := mk_wf_db {
  wf_canonical : keys_canonical db;
  wf_unique : keys_unique db;
  wf_refer : activations_refer db
}.

(** The generator answers a request for eight bytes with eight bytes. *)
Definition call_ok (c : Call) : Prop :=
  match c with
  | Create tb _ _ _ _ => List.length (tb 8%nat) = 8%nat
  | _ => True
  end.

(** No counter of [db] is higher in [db'], and the licenses that are new in
    [db'] start at zero. *)
Definition counters_not_raised (db db' : DB) : Prop :=
  exists old new,
    licenses db' = (old ++ new)%list /\
    Forall2 (fun l l' => license_key l' = license_key l /\
                         current_activations l' <= current_activations l)
            (licenses db) old /\
    Forall (fun l => current_activations l = 0) new.

(** The request spells the key as licenses are stored, in upper case. *)
Definition call_canonical (c : Call) : Prop :=
  match c with
  | Activate _ key _ _ _ => Str.sql_upper (Str.strip key) = Str.strip key
  | Deactivate key _ => Str.sql_upper (Str.strip key) = Str.strip key
  | _ => True
  end.

(** A license is created with a limit that is not negative. *)
Definition call_nonnegative (c : Call) : Prop :=
  match c with
  | Create _ _ _ _ max_activations => 0 <= max_activations
  | _ => True
  end.

(** The composite natural key of an activation row. *)
Definition act_pair (a : Activation) : string * string :=
  (a_license_key a, a_machine_id a).

(** A database in which no request has spelled a key in another case: the
    keys of the activation rows are in upper case too, there is one row per
    key and machine, and every counter agrees with the rows. *)
Record tidy (db : DB) : Prop := mk_tidy {
  tidy_wf : wf_db db;
  tidy_rows :
    forall a, In a (activations db) ->
      Str.sql_upper (a_license_key a) = a_license_key a;
  tidy_pairs : NoDup (List.map act_pair (activations db));
  tidy_count : counter_matches db
}.

(** What every row carries once it has been written by the operations
    themselves: a license is active, has the type and billing type of its
    tier and, when it is a one-time purchase, no expiry date; an activation
    row has a status. *)
Record consistent (db : DB) : Prop := mk_consistent {
  consistent_wf : wf_db db;
  consistent_licenses :
    forall l, In l (licenses db) ->
      status l = "active" /\
      type l = derive_type (tier l) /\
      billing_type l = derive_billing_type (tier l) /\
      (billing_type l = "one-time" -> expires_at l = None);
  consistent_rows :
    forall a, In a (activations db) -> Str.nonempty (a_status a) = true
}.

(** Machine [m] has an activation row for the license with key [key], in
    some spelling of the key. *)
Definition has_row (db : DB) (key m : string) : Prop :=
  exists a, In a (activations db) /\ act_ieq key m a = true.

(** Two activation rows that differ at most in [last_verified] and
    [ip_address]. *)
Definition same_but_seen (a a' : Activation) : Prop :=
  a_license_key a' = a_license_key a /\ a_machine_id a' = a_machine_id a /\
  a_activated_at a' = a_activated_at a /\ a_status a' = a_status a.

(** A license row as a later state has it: nothing but the counter has
    changed, except that the two dates may have been set once. *)
Definition license_evolves (l l' : License) : Prop :=
  license_key l' = license_key l /\ email l' = email l /\
  type l' = type l /\ tier l' = tier l /\
  billing_type l' = billing_type l /\ status l' = status l /\
  created_at l' = created_at l /\
  maintenance_expires_at l' = maintenance_expires_at l /\
  max_activations l' = max_activations l /\
  (forall t, activated_at l = Some t -> activated_at l' = Some t) /\
  (forall t, expires_at l = Some t -> expires_at l' = Some t).

(** The licenses of [db] are all in [db'], in place and evolved. *)
Definition licenses_evolve (db db' : DB) : Prop :=
  exists old new,
    licenses db' = (old ++ new)%list /\
    Forall2 license_evolves (licenses db) old.

(** An activation row as a later state has it: the same key, machine and
    activation time; the status is as it was or has become deactivated. *)
Definition row_evolves (a a' : Activation) : Prop :=
  a_license_key a' = a_license_key a /\ a_machine_id a' = a_machine_id a /\
  a_activated_at a' = a_activated_at a /\
  (a_status a' = a_status a \/ a_status a' = "deactivated").

(** The activation rows of [db] are all in [db'], in place and evolved. *)
Definition rows_evolve (db db' : DB) : Prop :=
  exists old new,
    activations db' = (old ++ new)%list /\
    Forall2 row_evolves (activations db) old.

(** Every stored key has the format of the generator, and every
    activation row is active or deactivated. *)
Definition as_written (db : DB) : Prop :=
  (forall l, In l (licenses db) -> KeyGen.key_format (license_key l)) /\
  (forall a, In a (activations db) ->
     a_status a = "active" \/ a_status a = "deactivated").

End Trace.

(** ** The words of the specification, for comparison with the code *)

Module SpecWords.

(** "tier starts with [p]" *)
Definition starts_with (s p : string) : Prop := exists r, s = p ++ r.

(** "tier contains the substring [sub]" *)
Definition has_substring (s sub : string) : Prop :=
  exists a b, s = a ++ sub ++ b.

(** "type is pro if tier starts with pro, enterprise if tier starts with
    enterprise, else free" *)
Inductive spec_type (tier : string) : string -> Prop :=
| spec_type_pro : starts_with tier "pro" -> spec_type tier "pro"
| spec_type_enterprise :
    ~ starts_with tier "pro" -> starts_with tier "enterprise" ->
    spec_type tier "enterprise"
| spec_type_free :
    ~ starts_with tier "pro" -> ~ starts_with tier "enterprise" ->
    spec_type tier "free".

(** "billing_type is one-time if tier contains the substring lifetime, else
    annual" *)
Inductive spec_billing_type (tier : string) : string -> Prop :=
| spec_billing_one_time :
    has_substring tier "lifetime" -> spec_billing_type tier "one-time"
| spec_billing_annual :
    ~ has_substring tier "lifetime" -> spec_billing_type tier "annual".

End SpecWords.

(** ** The admin endpoints *)

Module Admin.
Import Store Lifecycle.

(** The members of the JSON body of [/admin/create] that the handler
    reads; [None] is a member that the body does not have. *)
Record CreateRequest := mkCreateRequest {
  r_admin_secret : option string;
  r_email : option string;
  r_tier : option string;
  r_max_activations : option Z
}.

(** The answers of [/admin/create]. *)
Inductive AdminCreateResponse :=
| AdmUnauthorized                        (* 401 'Unauthorized' *)
| AdmEmailRequired                       (* 400 'Email required' *)
| AdmCreated (key email tier : string)   (* 200 license_key, email, tier *)
| AdmFailed                              (* 500 'Failed to create license' *)
| AdmUncaught (exn : string).            (* 500, the exception left the handler *)

(** [os.environ.get('UPAGER_ADMIN_SECRET', 'change-me')]; [env] is the
    value of the variable, [None] when it is not set. *)
Definition configured_secret (env : option string) : string :=
  match env with Some s => s | None => "change-me" end.

(** [data.get(name, default)] *)
Definition get_or {A} (default : A) (member : option A) : A :=
  match member with Some v => v | None => default end.

(** [admin_create()] *)
Definition admin_create (db : DB) (env : option string)
    (token_bytes : nat -> list byte) (clk : nat -> Z) (data : CreateRequest)
  : DB * AdminCreateResponse :=
  let authorized :=
    match r_admin_secret data with
    | Some s => (s =? configured_secret env)%string
    | None => false
    end in
  if negb authorized then (db, AdmUnauthorized)
  else
    let email := Str.strip (get_or "" (r_email data)) in
    let tier := get_or "pro_lifetime" (r_tier data) in
    let max_activations := get_or 1 (r_max_activations data) in
    if negb (Str.nonempty email) then (db, AdmEmailRequired)
    else
      match create_license db token_bytes clk email tier max_activations with
      | (db', Returns (Some key)) =>
          if Str.nonempty key then (db', AdmCreated key email tier)
          else (db', AdmFailed)
      | (db', Returns None) => (db', AdmFailed)
      | (db', Raises exn) => (db', AdmUncaught exn)
      end.

(** The rows of [GROUP BY tier, billing_type] come out ordered by the
    grouping columns, compared byte by byte. *)
Definition group_compare (k1 k2 : string * string) : comparison :=
  match String.compare (fst k1) (fst k2) with
  | Eq => String.compare (snd k1) (snd k2)
  | c => c
  end.

(** One more row for group [k] in the ordered list of groups. *)
Fixpoint group_add (k : string * string) (groups : list (string * string * nat))
  : list (string * string * nat) :=
  match groups with
  | [] => [(k, 1%nat)]
  | (k', n) :: rest =>
      match group_compare k k' with
      | Eq => (k', S n) :: rest
      | Lt => (k, 1%nat) :: groups
      | Gt => (k', n) :: group_add k rest
      end
  end.

(** [SELECT tier, billing_type, COUNT( * ) FROM licenses
     WHERE status = 'active' GROUP BY tier, billing_type]:
    the ['by_tier'] member of [/admin/stats]. *)
Definition by_tier (db : DB) : list (string * string * nat) :=
  List.fold_right
    (fun l groups =>
       if (status l =? "active")%string
       then group_add (tier l, billing_type l) groups else groups)
    [] (licenses db).

(** Group [g1] comes before group [g2]. *)
Definition group_before (g1 g2 : string * string * nat) : Prop :=
  group_compare (fst g1) (fst g2) = Lt.

(** The licenses that the row of group [(t, b)] counts. *)
Definition in_group (t b : string) (l : License) : bool :=
  (status l =? "active")%string && (tier l =? t)%string
  && (billing_type l =? b)%string.

(** The count that the answer gives for group [k], zero when it has no row
    for it. *)
Definition group_count (k : string * string)
    (groups : list (string * string * nat)) : nat :=
  List.list_sum
    (List.map snd
       (List.filter
          (fun g => (fst (fst g) =? fst k)%string
                    && (snd (fst g) =? snd k)%string) groups)).

(** [SELECT COUNT( * ) FROM activations WHERE status = "active"]: the
    ['total_activations'] member of [/admin/stats].  No column is named
    [active], so SQLite reads the double-quoted word as the string. *)
Definition total_activations (db : DB) : Z :=
  Z.of_nat (List.length
    (List.filter (fun a => (a_status a =? "active")%string) (activations db))).

(** The third member, ['recent_verifications'], compares the ISO text of
    the log timestamps with SQLite's own date text and is not modelled. *)

End Admin.

(** ** Sample requests *)

Module Sample.
Import Store Lifecycle Trace.

(** A generator that answers with bytes [0xAA], and the key it leads to. *)
Definition token_aa (n : nat) : list byte := List.repeat Byte.xaa n.
Definition key_aa : string := "UPAGER-AAAA-AAAA-AAAA-AAAA".
Definition key_aa_lower : string := "upager-aaaa-aaaa-aaaa-aaaa".

(** A clock that starts at [t] and advances by one microsecond per reading. *)
Definition tick (t : Z) (i : nat) : Z := t + Z.of_nat i.

(** One license of the given tier for a@x.com, nothing else. *)
Definition db_one (tier : string) (max : Z) : DB :=
  fst (create_license init_db token_aa (tick 0) "a@x.com" tier max).

(** The license of [db_one], activated on machine M1. *)
Definition db_m1 (tier : string) (max : Z) : DB :=
  fst (activate (db_one tier max) (tick 10) key_aa "a@x.com" "M1" None).

(** The same after machine M1 has been deactivated again. *)
Definition db_m1_off (tier : string) (max : Z) : DB :=
  fst (deactivate (db_m1 tier max) key_aa "M1").

End Sample.

(** * Properties *)

(** ** Strings *)

Module StrFacts.
Import Str.

Lemma map_app (f : ascii -> ascii) (s t : string) :
  map f (s ++ t) = map f s ++ map f t.
Proof.
  induction s as [|c s IH]; simpl; [reflexivity | now rewrite IH].
Qed.

Lemma upper_ascii_idem (c : ascii) : upper_ascii (upper_ascii c) = upper_ascii c.
Proof.
  destruct c as [[] [] [] [] [] [] [] []]; reflexivity.
Qed.

Lemma sql_upper_idem (s : string) : sql_upper (sql_upper s) = sql_upper s.
Proof.
  unfold sql_upper.
  induction s as [|c s IH]; simpl; [reflexivity|].
  now rewrite upper_ascii_idem, IH.
Qed.

Lemma prefix_iff (p s : string) :
  String.prefix p s = true <-> exists r, s = p ++ r.
Proof.
  revert s; induction p as [|c p IH]; intros s; simpl.
  - split; [intros _; now exists s | now destruct s].
  - destruct s as [|d s].
    + split; [discriminate | intros [r Hr]; discriminate].
    + simpl. destruct (Ascii.ascii_dec c d) as [->|Hcd].
      * rewrite IH. split; intros [r Hr]; exists r.
        -- now rewrite Hr.
        -- now injection Hr.
      * split; [discriminate|].
        intros [r Hr]. injection Hr as Hd _. congruence.
Qed.

Lemma contains_iff (sub s : string) :
  contains sub s = true <-> exists a b, s = a ++ sub ++ b.
Proof.
  induction s as [|c s IH]; cbn [contains].
  - rewrite orb_false_r, prefix_iff. split.
    + intros [r Hr]. now exists "", r.
    + intros [a [b H]]. destruct a; [now exists b | discriminate].
  - rewrite orb_true_iff, prefix_iff, IH. split.
    + intros [[r Hr] | [a [b H]]].
      * now exists "", r.
      * exists (String c a), b. simpl. now rewrite H.
    + intros [a [b H]]. destruct a as [|d a]; simpl in H.
      * left. now exists b.
      * right. exists a, b. now injection H.
Qed.

Example strip_examples :
  strip "  UPAGER-AB12 	" = "UPAGER-AB12" /\ strip " a b " = "a b" /\
  strip "   " = "" /\ sql_upper "upager-ab12" = "UPAGER-AB12" /\
  py_lower "A@X.Com" = "a@x.com" /\
  contains "lifetime" "pro_lifetime" = true /\
  startswith "enterprise_annual" "enterprise" = true /\
  startswith "pr" "pro" = false.
Proof. repeat split; reflexivity. Qed.

End StrFacts.

(** ** KeyGenerator *)

Module KeyGenFacts.
Import Str KeyGen.

Lemma hi_upper_hex (b : byte) : is_upper_hex (hi b) = true.
Proof. destruct b; reflexivity. Qed.

Lemma lo_upper_hex (b : byte) : is_upper_hex (lo b) = true.
Proof. destruct b; reflexivity. Qed.

Lemma unhex2_hi_lo (b : byte) : unhex2 (hi b) (lo b) = Byte.to_N b.
Proof. destruct b; reflexivity. Qed.

Lemma hi_lo_inj (b b' : byte) : hi b = hi b' -> lo b = lo b' -> b = b'.
Proof.
  intros Hh Hl.
  assert (H : Byte.to_N b = Byte.to_N b')
    by (rewrite <- !unhex2_hi_lo; now rewrite Hh, Hl).
  apply (f_equal Byte.of_N) in H. rewrite !Byte.of_to_N in H. congruence.
Qed.

Lemma length_8 {A} (l : list A) :
  List.length l = 8%nat ->
  exists b1 b2 b3 b4 b5 b6 b7 b8, l = [b1; b2; b3; b4; b5; b6; b7; b8].
Proof.
  intros H.
  do 8 (destruct l as [|? l]; [discriminate H|]).
  destruct l; [|discriminate H].
  repeat eexists.
Qed.

(** The key that eight given bytes produce, written out. *)
Lemma generate_8 (tb : nat -> list byte) (tier : string) b1 b2 b3 b4 b5 b6 b7 b8 :
  tb 8%nat = [b1; b2; b3; b4; b5; b6; b7; b8] ->
  generate_license_key tb tier =
  "UPAGER-" ++
  String (hi b1) (String (lo b1) (String (hi b2) (String (lo b2) ""))) ++ "-" ++
  String (hi b3) (String (lo b3) (String (hi b4) (String (lo b4) ""))) ++ "-" ++
  String (hi b5) (String (lo b5) (String (hi b6) (String (lo b6) ""))) ++ "-" ++
  String (hi b7) (String (lo b7) (String (hi b8) (String (lo b8) ""))).
Proof.
  intros H. unfold generate_license_key, token_hex. rewrite H. reflexivity.
Qed.

Lemma group_ok (a b : byte) :
  is_group (String (hi a) (String (lo a) (String (hi b) (String (lo b) "")))).
Proof.
  split; [reflexivity|].
  cbn [all_upper_hex].
  now rewrite !hi_upper_hex, !lo_upper_hex.
Qed.

Lemma generate_format (tb : nat -> list byte) (tier : string) :
  List.length (tb 8%nat) = 8%nat -> key_format (generate_license_key tb tier).
Proof.
  intros H. destruct (length_8 _ H) as (b1&b2&b3&b4&b5&b6&b7&b8&E).
  rewrite (generate_8 tb tier _ _ _ _ _ _ _ _ E).
  do 4 eexists. split; [reflexivity|].
  repeat split; try apply group_ok; reflexivity.
Qed.

Lemma generate_tier_irrelevant (tb : nat -> list byte) (t1 t2 : string) :
  generate_license_key tb t1 = generate_license_key tb t2.
Proof. reflexivity. Qed.

Lemma entropy_8 : key_entropy_bytes 8.
Proof.
  split.
  - intros r1 r2 tier H. unfold generate_license_key, token_hex. now rewrite H.
  - intros r1 r2 tier H1 H2 HK.
    destruct (length_8 _ H1) as (a1&a2&a3&a4&a5&a6&a7&a8&E1).
    destruct (length_8 _ H2) as (b1&b2&b3&b4&b5&b6&b7&b8&E2).
    rewrite (generate_8 r1 tier _ _ _ _ _ _ _ _ E1) in HK.
    rewrite (generate_8 r2 tier _ _ _ _ _ _ _ _ E2) in HK.
    cbn [String.append] in HK.
    rewrite E1, E2.
    injection HK as ? ? ? ? ? ? ? ? ? ? ? ? ? ? ? ?.
    repeat f_equal; apply hi_lo_inj; assumption.
Qed.

(** Stored keys are in upper case already. *)
Lemma generate_canonical (tb : nat -> list byte) (tier : string) :
  List.length (tb 8%nat) = 8%nat ->
  sql_upper (generate_license_key tb tier) = generate_license_key tb tier.
Proof.
  intros H. destruct (length_8 _ H) as (b1&b2&b3&b4&b5&b6&b7&b8&E).
  rewrite (generate_8 tb tier _ _ _ _ _ _ _ _ E).
  cbn [String.append sql_upper map]. unfold hi, lo.
  now rewrite !StrFacts.upper_ascii_idem.
Qed.

End KeyGenFacts.

(** ** Tables *)

Module StoreFacts.
Import Str Store.

Lemma key_ieq_refl (k : string) : key_ieq k k = true.
Proof. unfold key_ieq. apply String.eqb_refl. Qed.

Lemma key_ieq_eq (k1 k2 : string) :
  key_ieq k1 k2 = true <-> sql_upper k1 = sql_upper k2.
Proof. unfold key_ieq. apply String.eqb_eq. Qed.

Lemma key_ieq_sym (k1 k2 : string) : key_ieq k1 k2 = key_ieq k2 k1.
Proof. unfold key_ieq. apply String.eqb_sym. Qed.

Lemma key_ieq_trans (k1 k2 k3 : string) :
  key_ieq k1 k2 = true -> key_ieq k2 k3 = true -> key_ieq k1 k3 = true.
Proof. rewrite !key_ieq_eq. congruence. Qed.

(** Keys that are equal without regard to case select the same rows. *)
Lemma key_ieq_congr (k1 k2 k : string) :
  key_ieq k1 k2 = true -> key_ieq k k1 = key_ieq k k2.
Proof.
  intros H. apply key_ieq_eq in H. unfold key_ieq. now rewrite H.
Qed.

Lemma key_ieq_upper (k : string) : key_ieq (sql_upper k) k = true.
Proof. apply key_ieq_eq, StrFacts.sql_upper_idem. Qed.

Section UpdateWhere.
Context {A : Type} (p : A -> bool) (f : A -> A).

Lemma update_where_length (rows : list A) :
  List.length (update_where p f rows) = List.length rows.
Proof. apply List.length_map. Qed.

Lemma update_where_none (rows : list A) :
  (forall r, In r rows -> p r = false) -> update_where p f rows = rows.
Proof.
  induction rows as [|r rows IH]; intros H; simpl; [reflexivity|].
  rewrite (H r (or_introl eq_refl)), IH; [reflexivity|].
  intros r' Hr'. apply H. now right.
Qed.

Lemma in_update_where (rows : list A) (r' : A) :
  In r' (update_where p f rows) ->
  exists r, In r rows /\ r' = if p r then f r else r.
Proof.
  unfold update_where. rewrite in_map_iff. intros [r [E H]]. now exists r.
Qed.

Lemma update_where_in (rows : list A) (r : A) :
  In r rows -> In (if p r then f r else r) (update_where p f rows).
Proof.
  intros H. unfold update_where.
  exact (in_map (fun r => if p r then f r else r) rows r H).
Qed.

Lemma map_update_where {B} (g : A -> B) (rows : list A) :
  (forall r, g (f r) = g r) ->
  List.map g (update_where p f rows) = List.map g rows.
Proof.
  intros H. unfold update_where. rewrite List.map_map.
  apply List.map_ext. intros r. now destruct (p r).
Qed.

Lemma Forall_update_where (P : A -> Prop) (rows : list A) :
  Forall P rows -> (forall r, In r rows -> P r -> p r = true -> P (f r)) ->
  Forall P (update_where p f rows).
Proof.
  rewrite !Forall_forall. intros H Hf r' Hr'.
  destruct (in_update_where _ _ Hr') as [r [Hr ->]].
  destruct (p r) eqn:E; auto.
Qed.

Lemma Forall2_update_where (R : A -> A -> Prop) (rows : list A) :
  (forall r, R r r) -> (forall r, R r (f r)) ->
  Forall2 R rows (update_where p f rows).
Proof.
  intros Hr Hf. induction rows as [|r rows IH]; simpl; constructor; auto.
  now destruct (p r).
Qed.

(** A selection that the rewriting does not disturb finds the rewritten
    image of the row it found before. *)
Lemma find_update_where (q : A -> bool) (rows : list A) :
  (forall r, q (f r) = q r) ->
  List.find q (update_where p f rows) =
  option_map (fun r => if p r then f r else r) (List.find q rows).
Proof.
  intros H. induction rows as [|r rows IH]; simpl; [reflexivity|].
  assert (E : q (if p r then f r else r) = q r) by (destruct (p r); auto).
  rewrite E. now destruct (q r).
Qed.

End UpdateWhere.

Lemma filter_none {A} (q : A -> bool) (rows : list A) :
  (forall r, In r rows -> q r = false) -> List.filter q rows = [].
Proof.
  induction rows as [|r rows IH]; intros H; [reflexivity|].
  cbn [List.filter]. rewrite (H r (or_introl eq_refl)).
  apply IH. intros r' Hr'. apply H. now right.
Qed.

(** [fetch_one] answers with one of the rows, whatever the order. *)
Lemma fetch_one_in {A} sel (rows : list A) a :
  fetch_one sel rows = Some a -> In a rows.
Proof.
  destruct rows as [|r rows]; [discriminate|]. unfold fetch_one.
  intros H. replace a with (List.nth sel (r :: rows) r) by congruence.
  destruct (Nat.lt_ge_cases sel (List.length (r :: rows))) as [Hlt|Hge].
  - apply nth_In. exact Hlt.
  - rewrite nth_overflow by exact Hge. left. reflexivity.
Qed.

Lemma fetch_one_none {A} sel (rows : list A) :
  fetch_one sel rows = None <-> rows = [].
Proof. destruct rows; split; intros H; try reflexivity; discriminate H. Qed.

Lemma fetch_one_some {A} sel (rows : list A) a :
  In a rows -> exists a', fetch_one sel rows = Some a'.
Proof. destruct rows as [|r rows]; [intros []|]. intros _. now eexists. Qed.

(** Every row is the answer in some order. *)
Lemma fetch_one_every {A} (rows : list A) a :
  In a rows -> exists sel, fetch_one sel rows = Some a.
Proof.
  intros Hin. destruct rows as [|r rows]; [destruct Hin|].
  destruct (In_nth _ _ r Hin) as (n & _ & Hn).
  exists n. unfold fetch_one. rewrite Hn. reflexivity.
Qed.

(** With one row there is nothing to choose. *)
Lemma fetch_one_single {A} sel (a : A) : fetch_one sel [a] = Some a.
Proof. unfold fetch_one. f_equal. now destruct sel as [|[|n]]. Qed.

Lemma update_where_same {A} (p : A -> bool) (rows : list A) :
  update_where p (fun r => r) rows = rows.
Proof.
  unfold update_where. rewrite <- (List.map_id rows) at 2.
  apply List.map_ext. intros r. now destruct (p r).
Qed.

Lemma find_app_none {A} (q : A -> bool) (l1 l2 : list A) :
  List.find q l1 = None -> List.find q (l1 ++ l2) = List.find q l2.
Proof.
  induction l1 as [|a l1 IH]; simpl; [reflexivity|].
  destruct (q a); [discriminate | exact IH].
Qed.

Lemma find_app_some {A} (q : A -> bool) (l1 l2 : list A) (a : A) :
  List.find q l1 = Some a -> List.find q (l1 ++ l2) = Some a.
Proof.
  induction l1 as [|b l1 IH]; simpl; [discriminate|].
  destruct (q b); [trivial | exact IH].
Qed.

Lemma find_none_iff {A} (q : A -> bool) (l : list A) :
  List.find q l = None <-> forall a, In a l -> q a = false.
Proof.
  split; [apply List.find_none|].
  induction l as [|a l IH]; intros H; simpl; [reflexivity|].
  rewrite (H a (or_introl eq_refl)). apply IH. intros b Hb. apply H. now right.
Qed.

Lemma Forall2_refl {A} (R : A -> A -> Prop) (l : list A) :
  (forall a, R a a) -> Forall2 R l l.
Proof. intros H. induction l; constructor; auto. Qed.

Lemma NoDup_map_inj {A B} (g : A -> B) (l : list A) (a b : A) :
  NoDup (List.map g l) -> In a l -> In b l -> g a = g b -> a = b.
Proof.
  induction l as [|x l IH]; simpl; [tauto|].
  intros Hnd Ha Hb E. inversion Hnd as [|? ? Hnot Hnd']; subst.
  destruct Ha as [->|Ha], Hb as [->|Hb]; auto.
  - exfalso. apply Hnot. rewrite E. now apply List.in_map.
  - exfalso. apply Hnot. rewrite <- E. now apply List.in_map.
Qed.

End StoreFacts.

(** ** Lifecycle: what each operation leaves alone *)

Module Frame.
Import Str Store Lifecycle Trace StoreFacts.

(** Case analysis along the branches of an operation. *)
Ltac branches :=
  repeat match goal with
  | |- context [if negb ?b then _ else _] => destruct b eqn:?; cbn [negb]
  | |- context [match find_license ?d ?k with _ => _ end] =>
      destruct (find_license d k) eqn:?
  | |- context [match verify_join ?d ?n ?k ?m with _ => _ end] =>
      destruct (verify_join d n k m) as [[? [?|]]|] eqn:?
  | |- context [match List.find ?q ?l with _ => _ end] =>
      destruct (List.find q l) eqn:?
  | |- context [if ?a >=? ?b then _ else _] => destruct (Z.geb_spec a b)
  end.

Lemma expiry_activations db k l now :
  activations (fst (activate_expiry db k l now)) = activations db.
Proof.
  unfold activate_expiry.
  destruct (billing_type l =? "one-time")%string, (expires_at l); reflexivity.
Qed.

Lemma expiry_log db k l now :
  verification_log (fst (activate_expiry db k l now)) = verification_log db.
Proof.
  unfold activate_expiry.
  destruct (billing_type l =? "one-time")%string, (expires_at l); reflexivity.
Qed.

(** The only write of the tail of [activate]: the first expiry date of a
    license that is not a one-time purchase. *)
Lemma expiry_licenses db k l now :
  licenses (fst (activate_expiry db k l now)) =
  match expires_at l with
  | Some _ => licenses db
  | None =>
      if (billing_type l =? "one-time")%string then licenses db
      else update_where (lic_exact k) (set_expires_at (now + days365))
                        (licenses db)
  end.
Proof.
  unfold activate_expiry.
  destruct (billing_type l =? "one-time")%string, (expires_at l); reflexivity.
Qed.

Lemma expiry_response db k l now :
  snd (activate_expiry db k l now) =
  ActOk (type l) (tier l) (billing_type l)
        (if (billing_type l =? "one-time")%string then None
         else Some (now + days365))
        (now + days365).
Proof.
  unfold activate_expiry.
  destruct (billing_type l =? "one-time")%string; reflexivity.
Qed.

Lemma expiry_licenses_map {B} (g : License -> B) db k l now :
  (forall e r, g (set_expires_at e r) = g r) ->
  List.map g (licenses (fst (activate_expiry db k l now))) =
  List.map g (licenses db).
Proof.
  intros H. rewrite expiry_licenses.
  destruct (expires_at l); [reflexivity|].
  destruct (billing_type l =? "one-time")%string; [reflexivity|].
  now apply map_update_where.
Qed.

(** [activate] rewrites license rows in place and only in
    [current_activations], [activated_at] and [expires_at]. *)
Lemma activate_licenses_map {B} (g : License -> B) db clk key email m ip :
  (forall e r, g (set_expires_at e r) = g r) ->
  (forall t r, g (count_activation t r) = g r) ->
  List.map g (licenses (fst (activate db clk key email m ip))) =
  List.map g (licenses db).
Proof.
  intros He Hc. unfold activate.
  branches; try reflexivity; rewrite expiry_licenses_map by assumption;
    cbn [licenses with_licenses with_activations]; try reflexivity.
  now apply map_update_where.
Qed.

Lemma activate_log db clk key email m ip :
  verification_log (fst (activate db clk key email m ip)) = verification_log db.
Proof.
  unfold activate. branches; try reflexivity; now rewrite expiry_log.
Qed.

Lemma verify_licenses db clk sel key m :
  licenses (fst (verify db clk sel key m)) = licenses db.
Proof.
  unfold verify. branches; try reflexivity.
  destruct (billing_type l =? "annual")%string, (expires_at l) as [e|];
    try reflexivity.
  now destruct (clk 0%nat >? e).
Qed.

Lemma deactivate_licenses_map {B} (g : License -> B) db key m :
  (forall r, g (uncount_activation r) = g r) ->
  List.map g (licenses (fst (deactivate db key m))) = List.map g (licenses db).
Proof.
  intros H. unfold deactivate. branches; try reflexivity.
  cbn [fst licenses with_licenses with_activations].
  now apply map_update_where.
Qed.

Lemma deactivate_log db key m :
  verification_log (fst (deactivate db key m)) = verification_log db.
Proof. unfold deactivate. branches; reflexivity. Qed.

Lemma create_log db tb clk email tier max :
  verification_log (fst (create_license db tb clk email tier max)) =
  verification_log db.
Proof.
  unfold create_license.
  destruct (fits_int64 _); cbn [negb]; [|reflexivity].
  now destruct (existsb _ _).
Qed.

Lemma create_activations db tb clk email tier max :
  activations (fst (create_license db tb clk email tier max)) = activations db.
Proof.
  unfold create_license.
  destruct (fits_int64 _); cbn [negb]; [|reflexivity].
  now destruct (existsb _ _).
Qed.

End Frame.

(** ** Lifecycle: well-formed databases *)

Module WellFormed.
Import Str Store Lifecycle Trace StoreFacts Frame.

Lemma keys_canonical_keys db :
  keys_canonical db <->
  Forall (fun k => sql_upper k = k) (List.map license_key (licenses db)).
Proof.
  unfold keys_canonical. rewrite Forall_forall. split.
  - intros H k Hk. apply in_map_iff in Hk as [l [<- Hl]]. auto.
  - intros H l Hl. apply H. now apply in_map.
Qed.

Lemma activations_refer_keys db :
  activations_refer db <->
  forall a, In a (activations db) ->
    exists k, In k (List.map license_key (licenses db)) /\
              key_ieq (a_license_key a) k = true.
Proof.
  unfold activations_refer. split; intros H a Ha; destruct (H a Ha) as [x [Hx E]].
  - exists (license_key x). split; [now apply in_map | exact E].
  - apply in_map_iff in Hx as [l [<- Hl]]. now exists l.
Qed.

Lemma find_license_some db k l :
  find_license db k = Some l ->
  In l (licenses db) /\ key_ieq (license_key l) k = true.
Proof. intros H. now apply List.find_some in H. Qed.

(** In a well-formed database the row that the case-blind lookup returns is
    the only row an exact comparison with the same key can select. *)
Lemma exact_is_found db k l l' :
  keys_canonical db -> keys_unique db ->
  find_license db k = Some l -> In l' (licenses db) -> license_key l' = k ->
  l' = l.
Proof.
  intros Hc Hu Hf Hin Hk.
  destruct (find_license_some _ _ _ Hf) as [Hl Hieq].
  apply (NoDup_map_inj license_key (licenses db)); auto.
  apply key_ieq_eq in Hieq.
  rewrite (Hc l Hl) in Hieq. rewrite <- Hk in Hieq.
  rewrite (Hc l' Hin) in Hieq. congruence.
Qed.

(** With canonical keys, an exact comparison with a key that is not the
    stored spelling selects nothing. *)
Lemma exact_none db k l :
  keys_canonical db -> find_license db k = Some l -> license_key l <> k ->
  forall l', In l' (licenses db) -> lic_exact k l' = false.
Proof.
  intros Hc Hf Hne l' Hin.
  destruct (find_license_some _ _ _ Hf) as [Hl Hieq].
  unfold lic_exact. apply String.eqb_neq. intros Hk. apply Hne.
  apply key_ieq_eq in Hieq.
  rewrite (Hc l Hl) in Hieq. rewrite <- Hk in Hieq |- *.
  now rewrite (Hc l' Hin) in Hieq.
Qed.

Lemma activate_keys db clk key email m ip :
  List.map license_key (licenses (fst (activate db clk key email m ip))) =
  List.map license_key (licenses db).
Proof. now apply activate_licenses_map. Qed.

Lemma deactivate_keys db key m :
  List.map license_key (licenses (fst (deactivate db key m))) =
  List.map license_key (licenses db).
Proof. now apply deactivate_licenses_map. Qed.

(** The key of every activation row after [activate] is the key of an older
    row, or the key of the request, which then names a stored license. *)
Lemma activate_activation_keys db clk key email m ip a' :
  In a' (activations (fst (activate db clk key email m ip))) ->
  (exists a, In a (activations db) /\ a_license_key a' = a_license_key a) \/
  (a_license_key a' = strip key /\
   exists l, find_license db (strip key) = Some l).
Proof.
  unfold activate.
  branches;
    try (intros Hin; left; exists a'; split; [exact Hin | reflexivity]);
    rewrite expiry_activations; cbn [activations with_licenses with_activations];
    intros Hin.
  - apply in_update_where in Hin as [a0 [Ha0 ->]]. left. exists a0.
    split; [assumption | now destruct (act_exact _ _ a0)].
  - apply in_app_or in Hin as [Hin|[<-|[]]].
    + left. now exists a'.
    + right. split; [reflexivity | eauto].
Qed.

Lemma verify_activation_keys db clk sel key m a' :
  In a' (activations (fst (verify db clk sel key m))) ->
  exists a, In a (activations db) /\ a_license_key a' = a_license_key a.
Proof.
  unfold verify.
  branches; try (intros H; exists a'; split; [exact H | reflexivity]).
  destruct (billing_type l =? "annual")%string, (expires_at l) as [e|];
    try destruct (clk 0%nat >? e);
    try (intros H; exists a'; split; [exact H | reflexivity]);
    cbn [fst activations with_log with_activations]; intros H;
    apply in_update_where in H as [a0 [Ha0 ->]]; exists a0;
    (split; [assumption | now destruct (act_exact _ _ a0)]).
Qed.

Lemma deactivate_activation_keys db key m a' :
  In a' (activations (fst (deactivate db key m))) ->
  exists a, In a (activations db) /\ a_license_key a' = a_license_key a.
Proof.
  unfold deactivate.
  branches; try (intros H; exists a'; split; [exact H | reflexivity]).
  cbn [fst activations with_licenses with_activations]. intros H.
  apply in_update_where in H as [a0 [Ha0 ->]]. exists a0.
  split; [assumption | now destruct (act_ieq _ _ a0)].
Qed.

Lemma wf_init : wf_db init_db.
Proof.
  split.
  - intros l [].
  - constructor.
  - intros a [].
Qed.

Lemma wf_same_keys db db' :
  List.map license_key (licenses db') = List.map license_key (licenses db) ->
  (forall a', In a' (activations db') ->
     exists k, In k (List.map license_key (licenses db)) /\
               key_ieq (a_license_key a') k = true) ->
  wf_db db -> wf_db db'.
Proof.
  intros Hk Ha [Hc Hu Hr]. split.
  - apply keys_canonical_keys. rewrite Hk. now apply keys_canonical_keys.
  - unfold keys_unique. now rewrite Hk.
  - apply activations_refer_keys. rewrite Hk. exact Ha.
Qed.

Lemma wf_activate db clk key email m ip :
  wf_db db -> wf_db (fst (activate db clk key email m ip)).
Proof.
  intros Hwf. apply (wf_same_keys db); auto using activate_keys.
  intros a' Ha'.
  destruct (activate_activation_keys _ _ _ _ _ _ _ Ha')
    as [[a [Ha E]]|[E [l Hl]]]; rewrite E.
  - apply activations_refer_keys; [apply Hwf | exact Ha].
  - destruct (find_license_some _ _ _ Hl) as [Hin Hieq].
    exists (license_key l). split; [now apply in_map|].
    now rewrite key_ieq_sym.
Qed.

Lemma wf_verify db clk sel key m : wf_db db -> wf_db (fst (verify db clk sel key m)).
Proof.
  intros Hwf. apply (wf_same_keys db); auto.
  - now rewrite verify_licenses.
  - intros a' Ha'. destruct (verify_activation_keys _ _ _ _ _ _ Ha') as [a [Ha E]].
    rewrite E. apply activations_refer_keys; [apply Hwf | exact Ha].
Qed.

Lemma wf_deactivate db key m : wf_db db -> wf_db (fst (deactivate db key m)).
Proof.
  intros Hwf. apply (wf_same_keys db); auto using deactivate_keys.
  intros a' Ha'. destruct (deactivate_activation_keys _ _ _ _ Ha') as [a [Ha E]].
  rewrite E. apply activations_refer_keys; [apply Hwf | exact Ha].
Qed.

Lemma wf_create db tb clk email tier max :
  List.length (tb 8%nat) = 8%nat -> wf_db db ->
  wf_db (fst (create_license db tb clk email tier max)).
Proof.
  intros Hlen [Hc Hu Hr]. unfold create_license.
  destruct (fits_int64 _); cbn [negb]; [|now split].
  destruct (existsb _ _) eqn:E; [now split|].
  cbn [fst]. split.
  - intros l Hl. cbn [licenses with_licenses] in Hl.
    apply in_app_or in Hl as [Hl|[<-|[]]]; [auto|].
    now apply KeyGenFacts.generate_canonical.
  - unfold keys_unique. cbn [licenses with_licenses].
    rewrite List.map_app. cbn [List.map license_key].
    apply (NoDup_Add (a := KeyGen.generate_license_key tb tier)
                     (l := List.map license_key (licenses db))).
    { rewrite <- (List.app_nil_r (List.map license_key (licenses db))) at 1.
      apply Add_app. }
    split; [exact Hu|].
    intros Hin. apply in_map_iff in Hin as [l [Hk Hl]].
    assert (Hf : existsb (lic_exact (KeyGen.generate_license_key tb tier))
                         (licenses db) = true).
    { apply existsb_exists. exists l. split; [exact Hl|].
      unfold lic_exact. now apply String.eqb_eq. }
    congruence.
  - intros a Ha. cbn [activations with_licenses] in Ha.
    destruct (Hr a Ha) as [l [Hl Hieq]]. exists l. split; [|exact Hieq].
    cbn [licenses with_licenses]. apply in_or_app. now left.
Qed.

Lemma wf_step db c : call_ok c -> wf_db db -> wf_db (step db c).
Proof.
  destruct c; cbn [call_ok step]; intros Hok Hwf;
    auto using wf_create, wf_activate, wf_verify, wf_deactivate.
Qed.

(** Every database that the public operations build from the initial one is
    well-formed. *)
Lemma wf_run cs : forall db, Forall call_ok cs -> wf_db db -> wf_db (run db cs).
Proof.
  induction cs as [|c cs IH]; intros db Hok Hwf; [exact Hwf|].
  inversion Hok; subst. cbn [run fold_left]. apply IH; auto using wf_step.
Qed.

End WellFormed.

(** ** Creation: type and billing type *)

Module CreateFacts.
Import Str Store Lifecycle SpecWords.

Lemma startswith_iff (s p : string) :
  startswith s p = true <-> starts_with s p.
Proof. apply StrFacts.prefix_iff. Qed.

Lemma contains_substring_iff (s sub : string) :
  contains sub s = true <-> has_substring s sub.
Proof. apply StrFacts.contains_iff. Qed.

Lemma derive_type_spec (tier : string) : spec_type tier (derive_type tier).
Proof.
  unfold derive_type.
  destruct (startswith tier "pro") eqn:Hp.
  - constructor. now apply startswith_iff.
  - assert (Np : ~ starts_with tier "pro")
      by (rewrite <- startswith_iff; congruence).
    destruct (startswith tier "enterprise") eqn:He.
    + constructor; [exact Np | now apply startswith_iff].
    + constructor; [exact Np|]. rewrite <- startswith_iff. congruence.
Qed.

Lemma derive_billing_type_spec (tier : string) :
  spec_billing_type tier (derive_billing_type tier).
Proof.
  unfold derive_billing_type.
  destruct (contains "lifetime" tier) eqn:H.
  - constructor. now apply contains_substring_iff.
  - constructor. rewrite <- contains_substring_iff. congruence.
Qed.

(** The words of the specification determine one value. *)
Lemma spec_type_functional (tier t1 t2 : string) :
  spec_type tier t1 -> spec_type tier t2 -> t1 = t2.
Proof. intros H1 H2. destruct H1; destruct H2; tauto. Qed.

Lemma spec_billing_type_functional (tier b1 b2 : string) :
  spec_billing_type tier b1 -> spec_billing_type tier b2 -> b1 = b2.
Proof. intros H1 H2. destruct H1; destruct H2; tauto. Qed.

Lemma create_license_none db tb clk email tier max db' :
  create_license db tb clk email tier max = (db', Returns None) -> db' = db.
Proof.
  unfold create_license.
  destruct (fits_int64 _); cbn [negb]; [|discriminate].
  destruct (existsb _ _); [|discriminate].
  intros H. now injection H.
Qed.

(** A limit that does not fit the column: the exception leaves the function
    and nothing is stored. *)
Lemma create_license_raises db tb clk email tier max db' exn :
  create_license db tb clk email tier max = (db', Raises exn) ->
  db' = db /\ exn = "OverflowError" /\ fits_int64 max = false.
Proof.
  unfold create_license.
  destruct (fits_int64 _); cbn [negb].
  - destruct (existsb _ _); discriminate.
  - intros H. injection H as <- <-. auto.
Qed.

(** What a successful [create_license] stores. *)
Lemma create_license_some db tb clk email tier max db' key :
  create_license db tb clk email tier max = (db', Returns (Some key)) ->
  key = KeyGen.generate_license_key tb tier /\
  List.existsb (lic_exact key) (licenses db) = false /\
  db' = with_licenses db
          (licenses db ++
           [mkLicense key email (derive_type tier) tier
                      (derive_billing_type tier) "active" (clk 0%nat)
                      None None None max 0]).
Proof.
  unfold create_license.
  destruct (fits_int64 _); cbn [negb]; [|discriminate].
  destruct (existsb _ _) eqn:E; [discriminate|].
  intros H. injection H as <- <-. auto.
Qed.

End CreateFacts.

(** ** The activation limit *)

Module LimitFacts.
Import Str Store Lifecycle Trace StoreFacts Frame WellFormed.

Lemma within_limit_forall db :
  within_limit db <->
  Forall (fun l => current_activations l <= max_activations l) (licenses db).
Proof. unfold within_limit. now rewrite Forall_forall. Qed.

Lemma expiry_within_limit db k l now :
  within_limit db -> within_limit (fst (activate_expiry db k l now)).
Proof.
  rewrite !within_limit_forall, expiry_licenses. intros H.
  destruct (expires_at l); [exact H|].
  destruct (billing_type l =? "one-time")%string; [exact H|].
  apply Forall_update_where; auto.
Qed.

Lemma activate_within_limit db clk key email m ip :
  keys_canonical db -> keys_unique db -> within_limit db ->
  within_limit (fst (activate db clk key email m ip)).
Proof.
  intros Hc Hu Hw. unfold activate.
  branches; try exact Hw; apply expiry_within_limit; try exact Hw.
  apply within_limit_forall. cbn [licenses with_licenses with_activations].
  apply Forall_update_where; [now apply within_limit_forall|].
  intros r Hr Hle Hex. unfold lic_exact in Hex. apply String.eqb_eq in Hex.
  match goal with
  | Hf : find_license db (strip key) = Some l |- _ =>
      rewrite (exact_is_found db (strip key) l r Hc Hu Hf Hr Hex)
  end.
  cbn [count_activation current_activations max_activations]. lia.
Qed.

Lemma activate_canonical db clk key email m ip :
  keys_canonical db -> keys_canonical (fst (activate db clk key email m ip)).
Proof.
  rewrite !keys_canonical_keys. now rewrite activate_keys.
Qed.

Lemma activate_unique db clk key email m ip :
  keys_unique db -> keys_unique (fst (activate db clk key email m ip)).
Proof. unfold keys_unique. now rewrite activate_keys. Qed.

Lemma run_activate_within_limit cs :
  forall db, keys_canonical db -> keys_unique db -> within_limit db ->
    Forall is_activate cs -> within_limit (run db cs).
Proof.
  induction cs as [|c cs IH]; intros db Hc Hu Hw Hall; [exact Hw|].
  inversion Hall as [|? ? Hact Hall']; subst.
  destruct c; cbn [is_activate] in Hact; try contradiction.
  cbn [run fold_left step]. apply IH; auto using
    activate_canonical, activate_unique, activate_within_limit.
Qed.

(** A license at its limit gets no new activation row. *)
Lemma activate_at_limit db clk key email m ip l :
  find_license db (strip key) = Some l ->
  max_activations l <= current_activations l ->
  List.length (activations (fst (activate db clk key email m ip))) =
  List.length (activations db).
Proof.
  intros Hf Hle. unfold activate. rewrite Hf.
  branches; try reflexivity; rewrite expiry_activations;
    cbn [activations with_licenses with_activations].
  - apply update_where_length.
  - lia.
Qed.

Lemma activate_refuses db clk key email m ip l :
  find_license db (strip key) = Some l ->
  max_activations l <= current_activations l ->
  List.find (act_exact (strip key) (strip m)) (activations db) = None ->
  fst (activate db clk key email m ip) = db /\
  (nonempty (strip key) && nonempty (strip email) && nonempty (strip m) = true ->
   status l = "active" ->
   py_lower (strip email) = py_lower (Store.email l) ->
   snd (activate db clk key email m ip) = ActLimitReached (max_activations l)).
Proof.
  intros Hf Hle Hnone. unfold activate. rewrite Hf, Hnone.
  destruct (current_activations l >=? max_activations l) eqn:E; [|lia].
  split.
  - now branches.
  - intros -> Hs He. rewrite Hs, He, !String.eqb_refl. reflexivity.
Qed.

Lemma counters_not_raised_same db db' :
  licenses db' = licenses db -> counters_not_raised db db'.
Proof.
  intros H. exists (licenses db), []. rewrite H, app_nil_r.
  repeat split; [|constructor].
  apply Forall2_refl. intros r. split; [reflexivity | lia].
Qed.

Lemma verify_not_raised db clk sel key m :
  counters_not_raised db (fst (verify db clk sel key m)).
Proof. apply counters_not_raised_same, verify_licenses. Qed.

Lemma deactivate_not_raised db key m :
  counters_not_raised db (fst (deactivate db key m)).
Proof.
  unfold deactivate. branches; try now apply counters_not_raised_same.
  cbn [fst]. exists (licenses (with_licenses
    (with_activations db
       (update_where (act_ieq (strip key) (strip m)) (set_status "deactivated")
          (activations db)))
    (update_where (lic_exact (strip key)) uncount_activation (licenses db)))), [].
  rewrite app_nil_r. repeat split; [|constructor].
  cbn [licenses with_licenses].
  apply Forall2_update_where.
  - intros r. split; [reflexivity | lia].
  - intros r. cbn. split; [reflexivity | lia].
Qed.

Lemma create_not_raised db tb clk email tier max :
  counters_not_raised db (fst (create_license db tb clk email tier max)).
Proof.
  unfold create_license.
  destruct (fits_int64 _); cbn [negb];
    [|now apply counters_not_raised_same].
  destruct (existsb _ _); [now apply counters_not_raised_same|].
  cbn [fst licenses with_licenses]. eexists _, _. split; [reflexivity|].
  split; [|repeat constructor].
  apply Forall2_refl. intros r. split; [reflexivity | lia].
Qed.

End LimitFacts.

(** ** Activating twice *)

Module TwiceFacts.
Import Str Store Lifecycle Trace StoreFacts Frame WellFormed.

Lemma expiry_licenses_rows db k l now :
  licenses (fst (activate_expiry db k l now)) =
  List.map (expiry_row k l now) (licenses db).
Proof.
  rewrite expiry_licenses. unfold expiry_row, update_where.
  destruct (expires_at l); cbn beta iota; [now rewrite List.map_id|].
  destruct (billing_type l =? "one-time")%string; cbn beta iota;
    [now rewrite List.map_id | reflexivity].
Qed.

(** The case-blind lookup finds the image of the row it found before, under
    any rewriting of rows that keeps their keys. *)
Lemma find_license_map db db' g k :
  licenses db' = List.map g (licenses db) ->
  (forall r, license_key (g r) = license_key r) ->
  find_license db' k = option_map g (find_license db k).
Proof.
  intros E Hg. unfold find_license. rewrite E. clear E.
  generalize (licenses db) as rows.
  induction rows as [|r rows IH]; simpl; [reflexivity|].
  rewrite Hg. destruct (key_ieq (license_key r) k); [reflexivity | exact IH].
Qed.

Lemma expiry_row_key k l now r :
  license_key (expiry_row k l now r) = license_key r.
Proof.
  unfold expiry_row.
  destruct (expires_at l), (billing_type l =? "one-time")%string,
    (lic_exact k r); reflexivity.
Qed.

Lemma expiry_row_counter k l now r :
  current_activations (expiry_row k l now r) = current_activations r.
Proof.
  unfold expiry_row.
  destruct (expires_at l), (billing_type l =? "one-time")%string,
    (lic_exact k r); reflexivity.
Qed.

(** Once the license of the request has an expiry date, or is a one-time
    purchase, or no stored key is spelled like the key of the request, the
    tail of [activate] writes nothing. *)
Lemma expiry_row_idle db k l now :
  (expires_at l = None -> (billing_type l =? "one-time")%string = false ->
   forall r, In r (licenses db) -> lic_exact k r = false) ->
  List.map (expiry_row k l now) (licenses db) = licenses db.
Proof.
  intros H. rewrite <- (List.map_id (licenses db)) at 2.
  apply List.map_ext_in. intros r Hr. unfold expiry_row.
  destruct (expires_at l); [reflexivity|].
  destruct (billing_type l =? "one-time")%string; [reflexivity|].
  now rewrite (H eq_refl eq_refl r Hr).
Qed.

(** The request of a machine that has its row already. *)
Lemma activate_existing db clk key email m ip l a :
  nonempty (strip key) && nonempty (strip email) && nonempty (strip m) = true ->
  find_license db (strip key) = Some l ->
  (status l =? "active")%string = true ->
  (py_lower (strip email) =? py_lower (Store.email l))%string = true ->
  List.find (act_exact (strip key) (strip m)) (activations db) = Some a ->
  activate db clk key email m ip =
  activate_expiry
    (with_activations db
       (update_where (act_exact (strip key) (strip m))
          (set_last_verified_ip (clk 0%nat) ip) (activations db)))
    (strip key) l (clk 1%nat).
Proof.
  intros H1 H2 H3 H4 H5. unfold activate. now rewrite H1, H2, H3, H4, H5.
Qed.

(** The license of a successful request, as the next request reads it. *)
Lemma license_after_success db db1 k l now (g : License -> License) :
  licenses db1 = List.map (fun r => expiry_row k l now (g r)) (licenses db) ->
  (forall r, license_key (g r) = license_key r /\ status (g r) = status r /\
             Store.email (g r) = Store.email r /\
             billing_type (g r) = billing_type r /\
             expires_at (g r) = expires_at r) ->
  find_license db k = Some l ->
  exists l1,
    find_license db1 k = Some l1 /\ status l1 = status l /\
    Store.email l1 = Store.email l /\
    (keys_canonical db -> expires_at l1 = None ->
     (billing_type l1 =? "one-time")%string = false ->
     forall r, In r (licenses db1) -> lic_exact k r = false).
Proof.
  intros E Hg Hf.
  assert (Hkey : forall r, license_key (expiry_row k l now (g r)) = license_key r)
    by (intros r; rewrite expiry_row_key; apply Hg).
  exists (expiry_row k l now (g l)).
  rewrite (find_license_map db db1 _ k E Hkey), Hf.
  split; [reflexivity|].
  destruct (Hg l) as (Gk & Gs & Ge & Gb & Gx).
  unfold expiry_row.
  destruct (expires_at l) as [e|] eqn:Hx.
  { repeat split; try assumption. intros _ Hn. congruence. }
  destruct (billing_type l =? "one-time")%string eqn:Hb.
  { repeat split; try assumption. intros _ _ Hn. congruence. }
  destruct (lic_exact k (g l)) eqn:Hex.
  { repeat split; try assumption. intros _ Hn. discriminate Hn. }
  repeat split; try assumption.
  intros Hc _ _ r Hr. rewrite E in Hr.
  apply in_map_iff in Hr as [r0 [<- Hr0]].
  unfold lic_exact. rewrite Hkey.
  apply (exact_none db k l Hc Hf); [|exact Hr0].
  unfold lic_exact in Hex. rewrite Gk in Hex. now apply String.eqb_neq.
Qed.

(** After any [activate], the same request either fails as before and
    changes nothing, or finds the row of the machine. *)
Lemma activate_then db c1 key email m ip :
  (fst (activate db c1 key email m ip) = db /\
   forall c2, activate db c2 key email m ip =
              (db, snd (activate db c1 key email m ip))) \/
  (nonempty (strip key) && nonempty (strip email) && nonempty (strip m) = true /\
   exists l1 a1,
     find_license (fst (activate db c1 key email m ip)) (strip key) = Some l1 /\
     (status l1 =? "active")%string = true /\
     (py_lower (strip email) =? py_lower (Store.email l1))%string = true /\
     List.find (act_exact (strip key) (strip m))
               (activations (fst (activate db c1 key email m ip))) = Some a1 /\
     (keys_canonical db -> expires_at l1 = None ->
      (billing_type l1 =? "one-time")%string = false ->
      forall r, In r (licenses (fst (activate db c1 key email m ip))) ->
                lic_exact (strip key) r = false)).
Proof.
  unfold activate.
  destruct (nonempty (strip key) && nonempty (strip email)
            && nonempty (strip m)) eqn:Hne; cbn [negb];
    [|left; split; [reflexivity | intros c2; reflexivity]].
  destruct (find_license db (strip key)) as [l|] eqn:Hf;
    [|left; split; [reflexivity | intros c2; reflexivity]].
  destruct (status l =? "active")%string eqn:Hst; cbn [negb];
    [|left; split; [reflexivity | intros c2; reflexivity]].
  destruct (py_lower (strip email) =? py_lower (Store.email l))%string eqn:Hem;
    cbn [negb]; [|left; split; [reflexivity | intros c2; reflexivity]].
  destruct (List.find (act_exact (strip key) (strip m)) (activations db))
    as [a|] eqn:Ha.
  - (* the machine had its row *)
    right. split; [reflexivity|].
    destruct (license_after_success db
                (fst (activate_expiry
                   (with_activations db
                      (update_where (act_exact (strip key) (strip m))
                         (set_last_verified_ip (c1 0%nat) ip)
                         (activations db)))
                   (strip key) l (c1 1%nat)))
                (strip key) l (c1 1%nat) (fun r => r))
      as (l1 & H1 & Hs & He & Hcan);
      [ rewrite expiry_licenses_rows; reflexivity
      | intros r; repeat split | exact Hf | ].
    exists l1, (set_last_verified_ip (c1 0%nat) ip a).
    rewrite expiry_activations. cbn [activations with_activations].
    rewrite find_update_where, Ha by reflexivity. cbn [option_map].
    rewrite Hs, He, (proj2 (List.find_some _ _ Ha)).
    split; [exact H1|]. split; [exact Hst|]. split; [exact Hem|].
    split; [reflexivity | exact Hcan].
  - destruct (Z.geb_spec (current_activations l) (max_activations l));
      [left; split; [reflexivity | intros c2; reflexivity]|].
    (* the machine takes a seat *)
    right. split; [reflexivity|].
    destruct (license_after_success db
                (fst (activate_expiry
                   (with_licenses
                      (with_activations db
                         (activations db ++
                          [mkActivation (strip key) (strip m) ip
                             (c1 0%nat) (Some (c1 1%nat)) "active"])%list)
                      (update_where (lic_exact (strip key))
                         (count_activation (c1 2%nat)) (licenses db)))
                   (strip key) l (c1 3%nat)))
                (strip key) l (c1 3%nat)
                (fun r => if lic_exact (strip key) r
                          then count_activation (c1 2%nat) r else r))
      as (l1 & H1 & Hs & He & Hcan);
      [ rewrite expiry_licenses_rows; cbn [licenses with_licenses];
        unfold update_where; now rewrite List.map_map
      | intros r; destruct (lic_exact (strip key) r); repeat split
      | exact Hf | ].
    exists l1,
      (mkActivation (strip key) (strip m) ip (c1 0%nat)
                    (Some (c1 1%nat)) "active").
    rewrite expiry_activations.
    cbn [activations with_activations with_licenses].
    rewrite (find_app_none _ _ _ Ha), Hs, He.
    cbn [List.find]. unfold act_exact. cbn [a_license_key a_machine_id].
    rewrite !String.eqb_refl. cbn [andb].
    split; [exact H1|]. split; [exact Hst|]. split; [exact Hem|].
    split; [reflexivity | exact Hcan].
Qed.

End TwiceFacts.

(** ** Verification and deactivation *)

Module VerifyFacts.
Import Str Store Lifecycle Trace StoreFacts Frame.

(** What [verify] appends to the log, by its answer. *)
Lemma verify_log db clk sel key m :
  exists new,
    verification_log (fst (verify db clk sel key m)) =
    (verification_log db ++ new)%list /\
    match snd (verify db clk sel key m) with
    | VerInvalidKey =>
        exists t, new = [mkLogEntry (strip key) (strip m) None t
                                    "failed" "Invalid key"]
    | VerValid _ tr _ _ _ =>
        exists t, new = [mkLogEntry (strip key) (strip m) None t
                                    "success" ("Verified " ++ tr)]
    | _ => new = []
    end.
Proof.
  unfold verify.
  branches; try (exists []; split; [now rewrite app_nil_r | reflexivity]).
  - destruct (billing_type l =? "annual")%string, (expires_at l) as [e|];
      try destruct (clk 0%nat >? e);
      try (exists []; split; [now rewrite app_nil_r | reflexivity]);
      (eexists; split; [reflexivity | eexists; reflexivity]).
  - eexists; split; [reflexivity | eexists; reflexivity].
Qed.

Lemma step_log db c :
  exists new, verification_log (step db c) = (verification_log db ++ new)%list.
Proof.
  destruct c as [tb clk e t mx | clk k e m ip | clk sel k m | k m]; cbn [step].
  - exists []. now rewrite create_log, app_nil_r.
  - exists []. now rewrite activate_log, app_nil_r.
  - destruct (verify_log db clk sel k m) as [new [H _]]. now exists new.
  - exists []. now rewrite deactivate_log, app_nil_r.
Qed.

Lemma run_log cs :
  forall db,
    exists new, verification_log (run db cs) = (verification_log db ++ new)%list.
Proof.
  induction cs as [|c cs IH]; intros db; cbn [run fold_left].
  - exists []. now rewrite app_nil_r.
  - destruct (IH (step db c)) as [new2 H2].
    destruct (step_log db c) as [new1 H1].
    exists (new1 ++ new2)%list.
    unfold run in H2. now rewrite H2, H1, app_assoc.
Qed.

(** [verify] asks only that the joined activation row has a status that is
    not empty. *)
Lemma verify_valid db clk sel key m l a :
  nonempty (strip key) && nonempty (strip m) = true ->
  verify_join db sel (strip key) (strip m) = Some (l, Some a) ->
  status l = "active" ->
  nonempty (a_status a) = true ->
  (forall e, billing_type l = "annual" -> expires_at l = Some e ->
             clk 0%nat <= e) ->
  valid (snd (verify db clk sel key m)) = true.
Proof.
  intros Hne Hj Hs Ha Hx. unfold verify. rewrite Hne, Hj, Hs, Ha.
  cbn [negb String.eqb Ascii.eqb Bool.eqb andb].
  destruct (billing_type l =? "annual")%string eqn:Hb; [|reflexivity].
  destruct (expires_at l) as [e|] eqn:He; [|reflexivity].
  apply String.eqb_eq in Hb. specialize (Hx e Hb eq_refl).
  destruct (clk 0%nat >? e) eqn:Hgt; [|reflexivity].
  apply Z.gtb_lt in Hgt. lia.
Qed.

Lemma act_ieq_congr k1 k2 m a :
  key_ieq k1 k2 = true -> act_ieq k1 m a = act_ieq k2 m a.
Proof.
  intros H. unfold act_ieq. now rewrite (key_ieq_congr k1 k2).
Qed.

(** A successful [deactivate]: the request was complete and an active row
    of the machine was there. *)
Lemma deactivate_ok db key m :
  snd (deactivate db key m) = DeOk ->
  nonempty (strip key) && nonempty (strip m) = true /\
  (exists a0, In a0 (activations db) /\
              act_ieq (strip key) (strip m) a0 = true /\
              (a_status a0 =? "active")%string = true) /\
  fst (deactivate db key m) =
  with_licenses
    (with_activations db
       (update_where (act_ieq (strip key) (strip m)) (set_status "deactivated")
                     (activations db)))
    (update_where (lic_exact (strip key)) uncount_activation (licenses db)).
Proof.
  unfold deactivate.
  destruct (nonempty (strip key) && nonempty (strip m)); cbn [negb];
    [|discriminate].
  destruct (List.find _ (activations db)) as [a0|] eqn:Hf; [|discriminate].
  intros _. split; [reflexivity|]. split; [|reflexivity].
  apply List.find_some in Hf as [Hin Hq]. exists a0. split; [exact Hin|].
  now apply andb_true_iff in Hq.
Qed.

Lemma deactivate_failed db key m :
  snd (deactivate db key m) <> DeOk -> fst (deactivate db key m) = db.
Proof.
  unfold deactivate.
  destruct (nonempty (strip key) && nonempty (strip m)); cbn [negb];
    [|reflexivity].
  destruct (List.find _ (activations db)); [|reflexivity].
  intros H. now elim H.
Qed.

(** A pair without an active row is refused and nothing is written. *)
Lemma deactivate_refused db key m :
  nonempty (strip key) && nonempty (strip m) = true ->
  (forall a, In a (activations db) ->
     act_ieq (strip key) (strip m) a = true -> a_status a = "deactivated") ->
  deactivate db key m = (db, DeNoActiveActivation).
Proof.
  intros Hne Hall. unfold deactivate. rewrite Hne. cbn [negb].
  assert (Hnone : List.find
            (fun a => act_ieq (strip key) (strip m) a
                      && (a_status a =? "active")%string)
            (activations db) = None).
  { apply find_none_iff. intros a Ha.
    destruct (act_ieq (strip key) (strip m) a) eqn:E; [|reflexivity].
    now rewrite (Hall a Ha E). }
  now rewrite Hnone.
Qed.

Lemma deactivated_rows db key m a :
  In a (update_where (act_ieq (strip key) (strip m)) (set_status "deactivated")
                     (activations db)) ->
  act_ieq (strip key) (strip m) a = true -> a_status a = "deactivated".
Proof.
  intros Hin Hq. apply in_update_where in Hin as [a0 [_ ->]].
  destruct (act_ieq (strip key) (strip m) a0) eqn:E; [reflexivity|].
  congruence.
Qed.

(** After a successful [deactivate], [verify] still joins the license with
    a row of the machine, now deactivated. *)
Lemma verify_join_after_deactivate db sel key m l :
  snd (deactivate db key m) = DeOk ->
  find_license db (strip key) = Some l ->
  exists l' a,
    verify_join (fst (deactivate db key m)) sel (strip key) (strip m) =
    Some (l', Some a) /\
    a_status a = "deactivated" /\ status l' = status l /\
    billing_type l' = billing_type l /\ expires_at l' = expires_at l.
Proof.
  intros Hok Hf.
  destruct (deactivate_ok db key m Hok) as (Hne & (a0 & Hin & Hq & _) & E).
  rewrite E. clear E. unfold verify_join.
  match goal with
  | |- context [find_license ?d (strip key)] =>
      rewrite (TwiceFacts.find_license_map db d
                 (fun r => if lic_exact (strip key) r
                           then uncount_activation r else r)
                 (strip key) eq_refl), Hf
        by (intros r; now destruct (lic_exact (strip key) r))
  end.
  cbn [option_map activations with_licenses with_activations].
  set (l' := if lic_exact (strip key) l then uncount_activation l else l).
  assert (Hk : license_key l' = license_key l)
    by (unfold l'; now destruct (lic_exact (strip key) l)).
  assert (Hieq : key_ieq (license_key l') (strip key) = true).
  { rewrite Hk. now apply List.find_some in Hf. }
  unfold joined_rows. cbn [activations with_licenses with_activations].
  set (rows := List.filter (act_ieq (license_key l') (strip m)) _).
  assert (Hrow : In (set_status "deactivated" a0) rows).
  { apply filter_In. split.
    - pose proof (update_where_in (act_ieq (strip key) (strip m))
                    (set_status "deactivated") (activations db) a0 Hin) as Hin'.
      now rewrite Hq in Hin'.
    - rewrite (act_ieq_congr _ _ _ _ Hieq). exact Hq. }
  destruct (fetch_one_some sel rows _ Hrow) as [a Ha]. rewrite Ha.
  exists l', a. split; [reflexivity|]. split.
  - apply fetch_one_in in Ha. apply filter_In in Ha as [Ha Hqa].
    rewrite (act_ieq_congr _ _ _ _ Hieq) in Hqa.
    exact (deactivated_rows db key m a Ha Hqa).
  - unfold l'. now destruct (lic_exact (strip key) l).
Qed.

End VerifyFacts.

(** ** A fresh license *)

Module FreshFacts.
Import Str Store Lifecycle Trace StoreFacts Frame WellFormed.

(** A key in upper case that is not stored is not stored in any spelling. *)
Lemma unused_key db key :
  keys_canonical db -> sql_upper key = key ->
  List.existsb (lic_exact key) (licenses db) = false ->
  forall r k', In r (licenses db) -> key_ieq k' key = true ->
               key_ieq (license_key r) k' = false.
Proof.
  intros Hc Hup Hex r k' Hr Hk'.
  destruct (key_ieq (license_key r) k') eqn:E; [|reflexivity].
  exfalso.
  assert (Hrk : key_ieq (license_key r) key = true)
    by (eapply key_ieq_trans; eauto).
  apply key_ieq_eq in Hrk. rewrite (Hc r Hr), Hup in Hrk.
  assert (Hex' : List.existsb (lic_exact key) (licenses db) = true).
  { apply existsb_exists. exists r. split; [exact Hr|].
    unfold lic_exact. now apply String.eqb_eq. }
  congruence.
Qed.

(** Any spelling of the key of a license that was just created finds that
    license. *)
Lemma created_is_found db tb c0 email tier max db1 key k' :
  keys_canonical db -> List.length (tb 8%nat) = 8%nat ->
  create_license db tb c0 email tier max = (db1, Returns (Some key)) ->
  key_ieq k' key = true ->
  find_license db1 k' =
  Some (mkLicense key email (derive_type tier) tier (derive_billing_type tier)
                  "active" (c0 0%nat) None None None max 0).
Proof.
  intros Hc Hlen Hcr Hk'.
  apply CreateFacts.create_license_some in Hcr as (Hkey & Hex & ->).
  assert (Hup : sql_upper key = key)
    by (rewrite Hkey; now apply KeyGenFacts.generate_canonical).
  unfold find_license. cbn [licenses with_licenses].
  rewrite find_app_none.
  - cbn [List.find license_key]. now rewrite key_ieq_sym, Hk'.
  - apply find_none_iff. intros r Hr. now apply (unused_key db key).
Qed.

(** No activation row refers to a license that was just created. *)
Lemma created_has_no_rows db tb c0 email tier max db1 key :
  keys_canonical db -> activations_refer db -> List.length (tb 8%nat) = 8%nat ->
  create_license db tb c0 email tier max = (db1, Returns (Some key)) ->
  forall a, In a (activations db1) -> key_ieq (a_license_key a) key = false.
Proof.
  intros Hc Hr Hlen Hcr a Ha.
  apply CreateFacts.create_license_some in Hcr as (Hkey & Hex & ->).
  assert (Hup : sql_upper key = key)
    by (rewrite Hkey; now apply KeyGenFacts.generate_canonical).
  cbn [activations with_licenses] in Ha.
  destruct (Hr a Ha) as [l [Hl Hal]].
  destruct (key_ieq (a_license_key a) key) eqn:E; [|reflexivity].
  rewrite key_ieq_sym in Hal.
  now rewrite (unused_key db key Hc Hup Hex l (a_license_key a) Hl E) in Hal.
Qed.

End FreshFacts.

(** ** Counters and rows when keys are spelled as stored *)

Module CounterFacts.
Import Str Store Lifecycle Trace StoreFacts Frame WellFormed.

(** Upper-case keys are equal without regard to case only when equal. *)
Lemma key_ieq_canonical k1 k2 :
  sql_upper k1 = k1 -> sql_upper k2 = k2 ->
  key_ieq k1 k2 = (k1 =? k2)%string.
Proof. intros H1 H2. unfold key_ieq. now rewrite H1, H2. Qed.

Lemma filter_update_same {A} (q p : A -> bool) (f : A -> A) (rows : list A) :
  (forall r, In r rows -> p r = true -> q (f r) = q r) ->
  List.length (List.filter q (update_where p f rows)) =
  List.length (List.filter q rows).
Proof.
  induction rows as [|r rows IH]; intros H; [reflexivity|].
  cbn [update_where List.map List.filter].
  assert (E : q (if p r then f r else r) = q r).
  { destruct (p r) eqn:Hp; [|reflexivity]. apply H; [now left | exact Hp]. }
  rewrite E. fold (update_where p f rows).
  destruct (q r); cbn [List.length]; rewrite IH; auto;
    intros r' Hr'; apply H; now right.
Qed.

(** Deactivating the one row of a key and machine takes exactly one row
    out of the count. *)
Lemma filter_deactivate k m (acts : list Activation) :
  sql_upper k = k ->
  (forall a, In a acts -> sql_upper (a_license_key a) = a_license_key a) ->
  NoDup (List.map act_pair acts) ->
  (exists a0, In a0 acts /\ act_ieq k m a0 = true /\
              (a_status a0 =? "active")%string = true) ->
  S (List.length
       (List.filter (counted k)
          (update_where (act_ieq k m) (set_status "deactivated") acts))) =
  List.length (List.filter (counted k) acts).
Proof.
  intros Hk. induction acts as [|a acts IH]; intros Hc Hnd [a0 [Hin [Hp Hs]]];
    [destruct Hin|].
  inversion Hnd as [|? ? Hnot Hnd']; subst.
  cbn [update_where List.map List.filter].
  fold (update_where (act_ieq k m) (set_status "deactivated") acts).
  destruct (act_ieq k m a) eqn:Hpa.
  - (* [a] is the row of the pair; no other row is *)
    assert (Hpair : act_pair a = (k, m)).
    { unfold act_ieq in Hpa. apply andb_true_iff in Hpa as [Hka Hma].
      rewrite key_ieq_canonical in Hka by auto using in_eq.
      apply String.eqb_eq in Hka, Hma. unfold act_pair. now rewrite Hka, Hma. }
    assert (Hrest : forall r, In r acts -> act_ieq k m r = false).
    { intros r Hr. destruct (act_ieq k m r) eqn:Hpr; [|reflexivity].
      exfalso. apply Hnot. rewrite Hpair.
      unfold act_ieq in Hpr. apply andb_true_iff in Hpr as [Hkr Hmr].
      rewrite key_ieq_canonical in Hkr by auto using in_cons.
      apply String.eqb_eq in Hkr, Hmr.
      apply in_map_iff. exists r. split; [|exact Hr].
      unfold act_pair. now rewrite Hkr, Hmr. }
    rewrite (update_where_none _ _ _ Hrest).
    assert (Ha0 : a0 = a).
    { destruct Hin as [->|Hin]; [reflexivity|].
      rewrite (Hrest a0 Hin) in Hp. discriminate Hp. }
    subst a0.
    unfold act_ieq in Hpa. apply andb_true_iff in Hpa as [Hka _].
    assert (E1 : counted k (set_status "deactivated" a) = false)
      by (unfold counted; cbn [set_status a_license_key a_status];
          now rewrite Hka).
    assert (E2 : counted k a = true)
      by (unfold counted; now rewrite Hka, Hs).
    now rewrite E1, E2.
  - (* [a] is another row *)
    assert (Hin' : In a0 acts).
    { destruct Hin as [->|Hin]; [congruence | exact Hin]. }
    specialize (IH (fun r Hr => Hc r (in_cons _ _ _ Hr)) Hnd'
                   (ex_intro _ a0 (conj Hin' (conj Hp Hs)))).
    destruct (counted k a); cbn [List.length]; now rewrite IH.
Qed.

(** The three ways in which [activate] ends. *)
Lemma activate_shape db clk key email m ip :
  fst (activate db clk key email m ip) = db \/
  (exists l a,
     find_license db (strip key) = Some l /\
     List.find (act_exact (strip key) (strip m)) (activations db) = Some a /\
     fst (activate db clk key email m ip) =
     fst (activate_expiry
            (with_activations db
               (update_where (act_exact (strip key) (strip m))
                  (set_last_verified_ip (clk 0%nat) ip) (activations db)))
            (strip key) l (clk 1%nat))) \/
  (exists l,
     find_license db (strip key) = Some l /\
     List.find (act_exact (strip key) (strip m)) (activations db) = None /\
     fst (activate db clk key email m ip) =
     fst (activate_expiry
            (with_licenses
               (with_activations db
                  (activations db ++
                   [mkActivation (strip key) (strip m) ip (clk 0%nat)
                                 (Some (clk 1%nat)) "active"])%list)
               (update_where (lic_exact (strip key))
                  (count_activation (clk 2%nat)) (licenses db)))
            (strip key) l (clk 3%nat))).
Proof.
  unfold activate.
  destruct (nonempty (strip key) && nonempty (strip email)
            && nonempty (strip m)); cbn [negb]; [|now left].
  destruct (find_license db (strip key)) as [l|] eqn:Hf; [|now left].
  destruct (status l =? "active")%string; cbn [negb]; [|now left].
  destruct (py_lower (strip email) =? py_lower (Store.email l))%string;
    cbn [negb]; [|now left].
  destruct (List.find (act_exact (strip key) (strip m)) (activations db))
    as [a|] eqn:Ha.
  - right. left. now exists l, a.
  - destruct (current_activations l >=? max_activations l); [now left|].
    right. right. now exists l.
Qed.

(** The three ways in which [verify] ends. *)
Lemma verify_shape db clk sel key m :
  fst (verify db clk sel key m) = db \/
  (exists lg, fst (verify db clk sel key m) = with_log db lg) \/
  (exists t lg,
     fst (verify db clk sel key m) =
     with_log
       (with_activations db
          (update_where (act_exact (strip key) (strip m))
             (set_last_verified t) (activations db)))
       lg).
Proof.
  unfold verify.
  destruct (nonempty (strip key) && nonempty (strip m)); cbn [negb];
    [|now left].
  destruct (verify_join db sel (strip key) (strip m)) as [[l [a|]]|];
    [| destruct (status l =? "active")%string; now left
     | right; left; eexists; reflexivity].
  destruct (status l =? "active")%string; cbn [negb]; [|now left].
  destruct (nonempty (a_status a)); cbn [negb]; [|now left].
  destruct (billing_type l =? "annual")%string, (expires_at l) as [e|];
    try destruct (clk 0%nat >? e); try (now left);
    right; right; eexists; eexists; reflexivity.
Qed.

(** Counters keep step with the rows when every counter moves as its count
    of active rows moves. *)
Lemma counter_matches_map db db' (g : License -> License) :
  licenses db' = List.map g (licenses db) ->
  (forall r, license_key (g r) = license_key r) ->
  (forall r, In r (licenses db) ->
     current_activations (g r) - current_activations r =
     active_count db' (license_key r) - active_count db (license_key r)) ->
  counter_matches db -> counter_matches db'.
Proof.
  intros E Hk Hd Hm l' Hl'. rewrite E in Hl'.
  apply in_map_iff in Hl' as [r [<- Hr]].
  rewrite Hk. specialize (Hd r Hr). specialize (Hm r Hr). lia.
Qed.

Lemma active_count_touched db acts key p f :
  (forall a, counted key (f a) = counted key a) ->
  active_count (with_activations db (update_where p f acts)) key =
  Z.of_nat (List.length (List.filter (counted key) acts)).
Proof.
  intros H. unfold active_count. cbn [activations with_activations].
  now rewrite filter_update_same by (intros; apply H).
Qed.

Lemma counted_seen key t ip a :
  counted key (set_last_verified_ip t ip a) = counted key a.
Proof. reflexivity. Qed.

Lemma tidy_activate db clk key email m ip :
  sql_upper (strip key) = strip key -> tidy db ->
  tidy (fst (activate db clk key email m ip)).
Proof.
  intros Hk [Hwf Hrows Hpairs Hcount].
  destruct (activate_shape db clk key email m ip)
    as [E | [(l & a & Hf & Ha & E) | (l & Hf & Ha & E)]].
  - rewrite E. now split.
  - (* the machine had its row *)
    split; [now apply wf_activate | | |]; rewrite E.
    + rewrite expiry_activations. cbn [activations with_activations].
      intros a' Hin. apply in_update_where in Hin as [a0 [Ha0 ->]].
      destruct (act_exact _ _ a0); cbn; auto.
    + rewrite expiry_activations. cbn [activations with_activations].
      now rewrite map_update_where.
    + apply (counter_matches_map db _ (expiry_row (strip key) l (clk 1%nat)));
        [ now rewrite TwiceFacts.expiry_licenses_rows
        | apply TwiceFacts.expiry_row_key | | exact Hcount ].
      intros r Hr. rewrite TwiceFacts.expiry_row_counter.
      unfold active_count at 1. rewrite expiry_activations.
      cbn [activations with_activations].
      rewrite filter_update_same by (intros; apply counted_seen).
      unfold active_count. lia.
  - (* the machine takes a seat *)
    split; [now apply wf_activate | | |]; rewrite E.
    + rewrite expiry_activations.
      cbn [activations with_activations with_licenses].
      intros a' Hin. apply in_app_or in Hin as [Hin|[<-|[]]]; auto.
    + rewrite expiry_activations.
      cbn [activations with_activations with_licenses].
      rewrite List.map_app. cbn [List.map act_pair a_license_key a_machine_id].
      apply (NoDup_Add (a := (strip key, strip m))
                       (l := List.map act_pair (activations db))).
      { rewrite <- (List.app_nil_r (List.map act_pair (activations db))) at 1.
        apply Add_app. }
      split; [exact Hpairs|].
      intros Hin. apply in_map_iff in Hin as [a0 [Hp Ha0]].
      apply (List.find_none _ _ Ha) in Ha0.
      unfold act_pair in Hp. injection Hp as Hp1 Hp2.
      unfold act_exact in Ha0. now rewrite Hp1, Hp2, !String.eqb_refl in Ha0.
    + apply (counter_matches_map db _
               (fun r => expiry_row (strip key) l (clk 3%nat)
                           (if lic_exact (strip key) r
                            then count_activation (clk 2%nat) r else r)));
        [ rewrite TwiceFacts.expiry_licenses_rows;
          cbn [licenses with_licenses]; unfold update_where;
          now rewrite List.map_map
        | intros r; rewrite TwiceFacts.expiry_row_key;
          now destruct (lic_exact (strip key) r)
        | | exact Hcount ].
      intros r Hr. rewrite TwiceFacts.expiry_row_counter.
      unfold active_count. rewrite expiry_activations.
      cbn [activations with_activations with_licenses].
      rewrite List.filter_app, List.length_app.
      cbn [List.filter]. unfold counted at 2.
      cbn [a_license_key a_status String.eqb Ascii.eqb Bool.eqb].
      rewrite andb_true_r.
      rewrite key_ieq_canonical by (auto; apply Hwf; exact Hr).
      unfold lic_exact. rewrite (String.eqb_sym (license_key r)).
      destruct (strip key =? license_key r)%string;
        cbn [List.length count_activation current_activations]; lia.
Qed.

Lemma tidy_verify db clk sel key m : tidy db -> tidy (fst (verify db clk sel key m)).
Proof.
  intros [Hwf Hrows Hpairs Hcount].
  destruct (verify_shape db clk sel key m) as [E | [[lg E] | (t & lg & E)]].
  - rewrite E. now split.
  - split; [now apply wf_verify | | |]; rewrite E; assumption.
  - split; [now apply wf_verify | | |]; rewrite E;
      cbn [activations with_activations with_log].
    + intros a' Hin. apply in_update_where in Hin as [a0 [Ha0 ->]].
      destruct (act_exact _ _ a0); cbn; auto.
    + now rewrite map_update_where.
    + apply (counter_matches_map db _ (fun r => r));
        [ cbn [licenses with_activations with_log]; now rewrite List.map_id
        | reflexivity | | exact Hcount ].
      intros r Hr. unfold active_count.
      cbn [activations with_activations with_log].
      rewrite filter_update_same by reflexivity. lia.
Qed.

Lemma tidy_deactivate db key m :
  sql_upper (strip key) = strip key -> tidy db ->
  tidy (fst (deactivate db key m)).
Proof.
  intros Hk [Hwf Hrows Hpairs Hcount].
  destruct (snd (deactivate db key m)) eqn:Hr;
    try (rewrite VerifyFacts.deactivate_failed by (rewrite Hr; discriminate);
         now split).
  destruct (VerifyFacts.deactivate_ok db key m Hr)
    as (_ & (a0 & Hin & Hq & Hs) & E).
  split; [now apply wf_deactivate | | |]; rewrite E;
    cbn [activations with_activations with_licenses].
  - intros a' Ha'. apply in_update_where in Ha' as [a1 [Ha1 ->]].
    destruct (act_ieq _ _ a1); cbn; auto.
  - now rewrite map_update_where.
  - apply (counter_matches_map db _
             (fun r => if lic_exact (strip key) r then uncount_activation r
                       else r));
      [ reflexivity
      | intros r; now destruct (lic_exact (strip key) r)
      | | exact Hcount ].
    intros r Hrin. unfold active_count.
    cbn [activations with_activations with_licenses].
    unfold lic_exact. destruct (license_key r =? strip key)%string eqn:Hrk.
    + apply String.eqb_eq in Hrk. rewrite Hrk.
      rewrite <- (filter_deactivate (strip key) (strip m) (activations db)
                    Hk Hrows Hpairs
                    (ex_intro _ a0 (conj Hin (conj Hq Hs)))).
      cbn [uncount_activation current_activations]. lia.
    + rewrite filter_update_same; [lia|].
      intros a Ha Hpa. unfold counted.
      cbn [set_status a_license_key a_status].
      unfold act_ieq in Hpa. apply andb_true_iff in Hpa as [Hka _].
      rewrite key_ieq_canonical in Hka by auto.
      apply String.eqb_eq in Hka.
      rewrite key_ieq_canonical by (auto; apply Hwf; exact Hrin).
      rewrite Hka, String.eqb_sym, Hrk. reflexivity.
Qed.

Lemma tidy_create db tb clk email tier max :
  List.length (tb 8%nat) = 8%nat -> tidy db ->
  tidy (fst (create_license db tb clk email tier max)).
Proof.
  intros Hlen [Hwf Hrows Hpairs Hcount].
  destruct (create_license db tb clk email tier max)
    as [db1 [[key|]|exn]] eqn:Hcr.
  - pose proof (FreshFacts.created_has_no_rows db tb clk email tier max db1 key
                  (wf_canonical _ Hwf) (wf_refer _ Hwf) Hlen Hcr) as Hnone.
    pose proof (wf_create db tb clk email tier max Hlen Hwf) as Hwf1.
    rewrite Hcr in Hwf1. cbn [fst] in *.
    apply CreateFacts.create_license_some in Hcr as (_ & _ & ->).
    split; [exact Hwf1 | exact Hrows | exact Hpairs |].
    intros l Hl. cbn [licenses with_licenses] in Hl.
    unfold active_count. cbn [activations with_licenses] in *.
    apply in_app_or in Hl as [Hl|[<-|[]]]; [now apply Hcount|].
    cbn [current_activations license_key].
    assert (E : List.filter (counted key) (activations db) = []).
    { generalize Hnone. generalize (activations db) as acts.
      induction acts as [|a acts IH]; intros H; [reflexivity|].
      cbn [List.filter]. unfold counted at 1.
      rewrite (H a (or_introl eq_refl)). cbn [andb].
      apply IH. intros a' Ha'. apply H. now right. }
    now rewrite E.
  - apply CreateFacts.create_license_none in Hcr as ->. now split.
  - apply CreateFacts.create_license_raises in Hcr as (-> & _). now split.
Qed.

Lemma tidy_init : tidy init_db.
Proof.
  split; [exact wf_init | intros a [] | constructor | intros l []].
Qed.

Lemma tidy_step db c :
  call_ok c -> call_canonical c -> tidy db -> tidy (step db c).
Proof.
  destruct c; cbn [call_ok call_canonical step]; intros Hok Hcan Ht;
    auto using tidy_create, tidy_activate, tidy_verify, tidy_deactivate.
Qed.

Lemma tidy_run cs :
  forall db, Forall call_ok cs -> Forall call_canonical cs ->
             tidy db -> tidy (run db cs).
Proof.
  induction cs as [|c cs IH]; intros db Hok Hcan Ht; [exact Ht|].
  inversion Hok; inversion Hcan; subst.
  cbn [run fold_left]. apply IH; auto using tidy_step.
Qed.

End CounterFacts.

(** ** The round trip of a fresh license *)

Module RoundTripFacts.

(** The round trip without anything in between.  A license created with
    tier "pro_lifetime", in a database whose keys are stored in upper case
    and whose activation rows refer to stored licenses, then activated with
    success on a machine under any spelling of its key: [verify] joins the
    license with the row that this [activate] inserted. *)
Lemma lifetime_round_trip_direct :
  forall db tb c0 c1 c2 sel email max db1 key k email' m ip db2
         ty tr bl ex mx,
    Trace.keys_canonical db -> Trace.activations_refer db ->
    List.length (tb 8%nat) = 8%nat ->
    Lifecycle.create_license db tb c0 email "pro_lifetime" max =
      (db1, Lifecycle.Returns (Some key)) ->
    Store.key_ieq (Str.strip k) key = true ->
    Lifecycle.activate db1 c1 k email' m ip =
      (db2, Lifecycle.ActOk ty tr bl ex mx) ->
    ex = None /\
    exists l a,
      Lifecycle.verify_join db2 sel (Str.strip k) (Str.strip m) = Some (l, Some a) /\
      Store.license_key l = key /\
      a = Store.mkActivation (Str.strip k) (Str.strip m) ip (c1 0%nat)
                             (Some (c1 1%nat)) "active" /\
      Store.activations db2 = (Store.activations db1 ++ [a])%list /\
      snd (Lifecycle.verify db2 c2 sel k m) =
      Lifecycle.VerValid "pro" "pro_lifetime" "one-time" None
        (Some (Store.a_activated_at a + Lifecycle.days365)).
Proof.
  intros db tb c0 c1 c2 sel email max db1 key k email' m ip db2
         ty tr bl ex mx Hc Hr Hlen Hcr Hk Hact.
  pose proof (FreshFacts.created_is_found db tb c0 email "pro_lifetime" max
                db1 key (Str.strip k) Hc Hlen Hcr Hk) as Hfound.
  pose proof (FreshFacts.created_has_no_rows db tb c0 email "pro_lifetime" max
                db1 key Hc Hr Hlen Hcr) as Hrows.
  set (lnew := Store.mkLicense key email (Lifecycle.derive_type "pro_lifetime")
                 "pro_lifetime" (Lifecycle.derive_billing_type "pro_lifetime")
                 "active" (c0 0%nat) None None None max 0) in *.
  (* the machine has no row yet, in any spelling of the key *)
  assert (Hnone_ieq : List.filter (Store.act_ieq key (Str.strip m))
                                  (Store.activations db1) = []).
  { apply StoreFacts.filter_none. intros a Ha.
    unfold Store.act_ieq. now rewrite (Hrows a Ha). }
  assert (Hnone : List.find (Store.act_exact (Str.strip k) (Str.strip m))
                            (Store.activations db1) = None).
  { apply StoreFacts.find_none_iff. intros a Ha.
    unfold Store.act_exact.
    destruct (Store.a_license_key a =? Str.strip k)%string eqn:E;
      [|reflexivity].
    apply String.eqb_eq in E. pose proof (Hrows a Ha) as Hf.
    rewrite E, Hk in Hf. discriminate Hf. }
  (* so the call that succeeded inserted one *)
  unfold Lifecycle.activate in Hact. rewrite Hfound, Hnone in Hact.
  destruct (Str.nonempty (Str.strip k) && Str.nonempty (Str.strip email')
            && Str.nonempty (Str.strip m)) eqn:Hne;
    cbn [negb] in Hact; [|discriminate Hact].
  change (Store.status lnew) with "active" in Hact.
  cbn [String.eqb Ascii.eqb Bool.eqb andb negb] in Hact.
  destruct (Str.py_lower (Str.strip email') =? Str.py_lower (Store.email lnew))%string;
    cbn [negb] in Hact; [|discriminate Hact].
  destruct (Store.current_activations lnew >=? Store.max_activations lnew);
    [discriminate Hact|].
  unfold Lifecycle.activate_expiry in Hact.
  change (Store.billing_type lnew) with "one-time" in Hact.
  change (Store.expires_at lnew) with (@None Z) in Hact.
  cbn [String.eqb Ascii.eqb Bool.eqb andb] in Hact.
  injection Hact as Hdb2 _ _ _ <- _.
  split; [reflexivity|].
  (* what verify reads *)
  set (row := Store.mkActivation (Str.strip k) (Str.strip m) ip (c1 0%nat)
                                 (Some (c1 1%nat)) "active").
  set (g := fun r => if Store.lic_exact (Str.strip k) r
                     then Store.count_activation (c1 2%nat) r else r).
  assert (E : db2 =
              Store.with_licenses
                (Store.with_activations db1 (Store.activations db1 ++ [row])%list)
                (Store.update_where (Store.lic_exact (Str.strip k))
                   (Store.count_activation (c1 2%nat)) (Store.licenses db1)))
    by (rewrite <- Hdb2; reflexivity).
  clear Hdb2. rewrite E. clear E.
  assert (Hne2 : Str.nonempty (Str.strip k) && Str.nonempty (Str.strip m) = true).
  { apply andb_true_iff in Hne as [Hne Hm].
    apply andb_true_iff in Hne as [Hk' _]. now rewrite Hk', Hm. }
  assert (Hjoin :
    Lifecycle.verify_join
      (Store.with_licenses
         (Store.with_activations db1 (Store.activations db1 ++ [row])%list)
         (Store.update_where (Store.lic_exact (Str.strip k))
            (Store.count_activation (c1 2%nat)) (Store.licenses db1)))
      sel (Str.strip k) (Str.strip m) = Some (g lnew, Some row)).
  { unfold Lifecycle.verify_join, Lifecycle.joined_rows.
    match goal with
    | |- context [Store.find_license ?d (Str.strip k)] =>
        rewrite (TwiceFacts.find_license_map db1 d g (Str.strip k) eq_refl),
          Hfound
          by (intros r; unfold g; now destruct (Store.lic_exact (Str.strip k) r))
    end.
    cbn [option_map Store.activations Store.with_licenses
         Store.with_activations].
    replace (Store.license_key (g lnew)) with key
      by (unfold g; now destruct (Store.lic_exact (Str.strip k) lnew)).
    rewrite List.filter_app, Hnone_ieq.
    cbn [List.filter List.app]. unfold Store.act_ieq at 1, row at 1.
    cbn [Store.a_license_key Store.a_machine_id].
    rewrite Hk, String.eqb_refl. cbn [andb].
    now rewrite StoreFacts.fetch_one_single. }
  eexists. eexists. split; [exact Hjoin|].
  split; [unfold g; now destruct (Store.lic_exact (Str.strip k) lnew)|].
  split; [reflexivity|]. split; [reflexivity|].
  unfold Lifecycle.verify. rewrite Hne2, Hjoin. cbn [negb].
  unfold g. now destruct (Store.lic_exact (Str.strip k) lnew).
Qed.

End RoundTripFacts.

(** ** What the operations keep of the rows they wrote *)

Module HistoryFacts.
Import Str Store Lifecycle Trace StoreFacts Frame WellFormed.

Lemma consistent_init : consistent init_db.
Proof.
  split; [exact wf_init | intros l [] | intros a []].
Qed.

(** The tail of [activate] gives an expiry date to the license it read and
    to no other, so never to a one-time purchase. *)
Lemma expiry_row_fields db k l now r0 r :
  wf_db db -> find_license db k = Some l -> In r0 (licenses db) ->
  license_key r = license_key r0 -> status r = status r0 ->
  type r = type r0 -> tier r = tier r0 ->
  billing_type r = billing_type r0 -> expires_at r = expires_at r0 ->
  status r0 = "active" /\ type r0 = derive_type (tier r0) /\
  billing_type r0 = derive_billing_type (tier r0) /\
  (billing_type r0 = "one-time" -> expires_at r0 = None) ->
  status (expiry_row k l now r) = "active" /\
  type (expiry_row k l now r) = derive_type (tier (expiry_row k l now r)) /\
  billing_type (expiry_row k l now r) =
    derive_billing_type (tier (expiry_row k l now r)) /\
  (billing_type (expiry_row k l now r) = "one-time" ->
   expires_at (expiry_row k l now r) = None).
Proof.
  intros Hwf Hf Hr0 Ek Es Ety Eti Eb Ex (Hs & Hty & Hb & Hx).
  assert (Hkeep :
    status r = "active" /\ type r = derive_type (tier r) /\
    billing_type r = derive_billing_type (tier r) /\
    (billing_type r = "one-time" -> expires_at r = None)).
  { rewrite Es, Ety, Eti, Eb, Ex. auto. }
  unfold expiry_row.
  destruct (expires_at l) eqn:Hxl; [exact Hkeep|].
  destruct (billing_type l =? "one-time")%string eqn:Hbl; [exact Hkeep|].
  destruct (lic_exact k r) eqn:Hex; [|exact Hkeep].
  cbn [set_expires_at status type tier billing_type expires_at].
  destruct Hkeep as (K1 & K2 & K3 & _). repeat split; auto.
  intros Hone. exfalso.
  unfold lic_exact in Hex. apply String.eqb_eq in Hex. rewrite Ek in Hex.
  rewrite (exact_is_found db k l r0 (wf_canonical _ Hwf) (wf_unique _ Hwf)
             Hf Hr0 Hex) in Eb.
  rewrite Eb in Hone. rewrite Hone in Hbl. discriminate Hbl.
Qed.

Lemma consistent_activate db clk key email m ip :
  consistent db -> consistent (fst (activate db clk key email m ip)).
Proof.
  intros [Hwf Hl Ha].
  destruct (CounterFacts.activate_shape db clk key email m ip)
    as [E | [(l & a & Hf & Hfa & E) | (l & Hf & Hfa & E)]].
  - rewrite E. now split.
  - split; [now apply wf_activate | |]; rewrite E.
    + rewrite TwiceFacts.expiry_licenses_rows.
      cbn [licenses with_activations].
      intros l' Hl'. apply in_map_iff in Hl' as [r [<- Hr]].
      now apply (expiry_row_fields db _ _ _ r r); auto.
    + rewrite expiry_activations. cbn [activations with_activations].
      intros a' Ha'. apply in_update_where in Ha' as [a0 [Ha0 ->]].
      destruct (act_exact _ _ a0); cbn; auto.
  - split; [now apply wf_activate | |]; rewrite E.
    + rewrite TwiceFacts.expiry_licenses_rows.
      cbn [licenses with_activations with_licenses].
      intros l' Hl'. apply in_map_iff in Hl' as [r1 [<- Hr1]].
      apply in_update_where in Hr1 as [r [Hr ->]].
      apply (expiry_row_fields db _ _ _ r); auto;
        now destruct (lic_exact (strip key) r).
    + rewrite expiry_activations.
      cbn [activations with_activations with_licenses].
      intros a' Ha'. apply in_app_or in Ha' as [Ha'|[<-|[]]]; auto.
Qed.

Lemma consistent_verify db clk sel key m :
  consistent db -> consistent (fst (verify db clk sel key m)).
Proof.
  intros [Hwf Hl Ha].
  destruct (CounterFacts.verify_shape db clk sel key m)
    as [E | [[lg E] | (t & lg & E)]].
  - rewrite E. now split.
  - split; [now apply wf_verify | |]; rewrite E; assumption.
  - split; [now apply wf_verify | |]; rewrite E;
      cbn [licenses activations with_activations with_log]; [assumption|].
    intros a' Ha'. apply in_update_where in Ha' as [a0 [Ha0 ->]].
    destruct (act_exact _ _ a0); cbn; auto.
Qed.

Lemma consistent_deactivate db key m :
  consistent db -> consistent (fst (deactivate db key m)).
Proof.
  intros [Hwf Hl Ha].
  destruct (snd (deactivate db key m)) eqn:Hr;
    try (rewrite VerifyFacts.deactivate_failed by (rewrite Hr; discriminate);
         now split).
  destruct (VerifyFacts.deactivate_ok db key m Hr) as (_ & _ & E).
  split; [now apply wf_deactivate | |]; rewrite E;
    cbn [licenses activations with_activations with_licenses].
  - intros l' Hl'. apply in_update_where in Hl' as [r [Hr0 ->]].
    destruct (lic_exact (strip key) r); cbn; auto.
  - intros a' Ha'. apply in_update_where in Ha' as [a0 [Ha0 ->]].
    destruct (act_ieq _ _ a0); cbn; auto.
Qed.

Lemma consistent_create db tb clk email tier max :
  List.length (tb 8%nat) = 8%nat -> consistent db ->
  consistent (fst (create_license db tb clk email tier max)).
Proof.
  intros Hlen [Hwf Hl Ha].
  split; [now apply wf_create | |].
  - unfold create_license.
    destruct (fits_int64 _); cbn [negb]; [|exact Hl].
    destruct (existsb _ _); [exact Hl|].
    cbn [fst licenses with_licenses].
    intros l Hin. apply in_app_or in Hin as [Hin|[<-|[]]]; [auto|].
    cbn. repeat split. 
  - now rewrite create_activations.
Qed.

Lemma consistent_step db c : call_ok c -> consistent db -> consistent (step db c).
Proof.
  destruct c; cbn [call_ok step]; intros Hok Hc;
    auto using consistent_create, consistent_activate, consistent_verify,
               consistent_deactivate.
Qed.

Lemma consistent_run cs :
  forall db, Forall call_ok cs -> consistent db -> consistent (run db cs).
Proof.
  induction cs as [|c cs IH]; intros db Hok Hc; [exact Hc|].
  inversion Hok; subst. cbn [run fold_left]. apply IH; auto using consistent_step.
Qed.

Lemma has_row_update db key m p f :
  (forall a, act_ieq key m (f a) = act_ieq key m a) ->
  has_row db key m ->
  has_row (with_activations db (update_where p f (activations db))) key m.
Proof.
  intros Hf [a [Ha Hq]].
  exists (if p a then f a else a). split.
  - cbn [activations with_activations]. now apply update_where_in.
  - destruct (p a); [now rewrite Hf | exact Hq].
Qed.

Lemma has_row_same db db' key m :
  activations db' = activations db -> has_row db key m -> has_row db' key m.
Proof. intros E [a [Ha Hq]]. exists a. now rewrite E. Qed.

(** With upper-case unique keys, every spelling of a stored key finds its
    license. *)
Lemma found_is db k l :
  wf_db db -> In l (licenses db) -> key_ieq k (license_key l) = true ->
  find_license db k = Some l.
Proof.
  intros Hwf Hl Hk.
  destruct (find_license db k) as [l'|] eqn:Hf.
  - destruct (find_license_some _ _ _ Hf) as [Hl' Hk'].
    f_equal. apply (NoDup_map_inj license_key (licenses db));
      [apply Hwf | exact Hl' | exact Hl |].
    pose proof (key_ieq_trans _ _ _ Hk' Hk) as Hkk.
    apply key_ieq_eq in Hkk.
    now rewrite (wf_canonical _ Hwf l' Hl'), (wf_canonical _ Hwf l Hl) in Hkk.
  - apply (List.find_none _ _ Hf) in Hl. rewrite key_ieq_sym in Hl. congruence.
Qed.

(** [verify] of a lifetime license on a machine that has a row. *)
Lemma verify_lifetime db clk sel k m l :
  consistent db -> In l (licenses db) -> tier l = "pro_lifetime" ->
  key_ieq (strip k) (license_key l) = true ->
  has_row db (license_key l) (strip m) ->
  nonempty (strip k) && nonempty (strip m) = true ->
  exists a,
    verify_join db sel (strip k) (strip m) = Some (l, Some a) /\
    snd (verify db clk sel k m) =
    VerValid "pro" "pro_lifetime" "one-time" None
             (Some (a_activated_at a + days365)).
Proof.
  intros [Hwf Hls Hrows] Hl Ht Hk [a0 [Ha0 Hq0]] Hne.
  pose proof (found_is db (strip k) l Hwf Hl Hk) as Hf.
  assert (Hin0 : In a0 (joined_rows db l (strip m)))
    by (apply filter_In; now split).
  destruct (fetch_one_some sel _ _ Hin0) as [a Ha].
  exists a.
  assert (Hj : verify_join db sel (strip k) (strip m) = Some (l, Some a))
    by (unfold verify_join; now rewrite Hf, Ha).
  split; [exact Hj|].
  destruct (Hls l Hl) as (Hs & Hty & Hb & Hx).
  rewrite Ht in Hty, Hb.
  change (derive_type "pro_lifetime") with "pro" in Hty.
  change (derive_billing_type "pro_lifetime") with "one-time" in Hb.
  specialize (Hx Hb).
  apply fetch_one_in in Ha. apply filter_In in Ha as [Hin _].
  unfold verify. rewrite Hne, Hj, Hs, (Hrows a Hin), Hb, Hx, Hty, Ht.
  reflexivity.
Qed.

End HistoryFacts.

(** * The properties of the specification *)

(** X17.  The scope of the drift.  As long as every [activate] and [deactivate]
    spells the key in upper case, as licenses are stored, every database
    that the public operations build from the empty one keeps each counter
    equal to the number of active rows of its license, with one row per
    key and machine. *)
Theorem counters_match_when_keys_are_spelled_as_stored :
  forall cs,
    Forall Trace.call_ok cs -> Forall Trace.call_canonical cs ->
    Trace.counter_matches (Trace.run Store.init_db cs) /\
    NoDup (List.map Trace.act_pair
                    (Store.activations (Trace.run Store.init_db cs))).
Proof.
  intros cs Hok Hcan.
  destruct (CounterFacts.tidy_run cs Store.init_db Hok Hcan
              CounterFacts.tidy_init) as [_ _ Hpairs Hcount].
  now split.
Qed.

(** C1 does not hold of the code.  [activate] finds the license without
    regard to case, but bumps the counter [WHERE license_key = ?] with the
    key as the client wrote it: a request that writes the key in lower case
    inserts an active row and the counter stays at zero.  [deactivate] has
    the same defect in the other direction, and the two together take the
    counter below zero.  Since the counter stays at zero, a license with
    one seat activates a second machine as well. *)
Theorem C1_counter_drifts :
  let created := Trace.Create Sample.token_aa (Sample.tick 0)
                              "a@x.com" "pro_lifetime" 1 in
  let db := Trace.run Store.init_db
              [created;
               Trace.Activate (Sample.tick 10) Sample.key_aa_lower
                              "a@x.com" "M1" None] in
  let db' := Trace.run Store.init_db
              [created;
               Trace.Activate (Sample.tick 10) Sample.key_aa "a@x.com" "M1" None;
               Trace.Deactivate Sample.key_aa_lower "M1"] in
  let db'' := Trace.run Store.init_db
              [created;
               Trace.Activate (Sample.tick 10) Sample.key_aa "a@x.com" "M1" None;
               Trace.Deactivate Sample.key_aa "M1";
               Trace.Activate (Sample.tick 20) Sample.key_aa_lower
                              "a@x.com" "M1" None;
               Trace.Deactivate Sample.key_aa "M1"] in
  let oversold := Trace.run Store.init_db
              [created;
               Trace.Activate (Sample.tick 10) Sample.key_aa_lower
                              "a@x.com" "M1" None;
               Trace.Activate (Sample.tick 20) Sample.key_aa_lower
                              "a@x.com" "M2" None] in
  (List.map Store.license_key (Store.licenses db) = [Sample.key_aa] /\
   List.map Store.current_activations (Store.licenses db) = [0] /\
   Store.active_count db Sample.key_aa = 1 /\
   ~ Trace.counter_matches db) /\
  (List.map Store.current_activations (Store.licenses db') = [1] /\
   Store.active_count db' Sample.key_aa = 0 /\
   ~ Trace.counter_matches db') /\
  (List.map Store.current_activations (Store.licenses db'') = [-1] /\
   Store.active_count db'' Sample.key_aa = 0) /\
  (List.map Store.max_activations (Store.licenses oversold) = [1] /\
   List.map Store.current_activations (Store.licenses oversold) = [0] /\
   Store.active_count oversold Sample.key_aa = 2).
Proof.
  cbv zeta. repeat split; try reflexivity.
  - intros H. specialize (H _ (or_introl eq_refl)). discriminate H.
  - intros H. specialize (H _ (or_introl eq_refl)). discriminate H.
Qed.

(** C2 does not hold of the code, for the same reason: only the lookups
    fold the case of the key.  On one license with one seat, the request
    with the stored key and the request with the key in lower case get the
    same answer from [activate], [verify] and [deactivate], but they do not
    write the same: the lower-case [activate] leaves the counter at zero,
    the lower-case [verify] does not stamp [last_verified], the lower-case
    [deactivate] does not lower the counter.  The answers differ as well
    once a row exists: the machine that activated with the stored key is
    refused when it activates again in lower case. *)
Theorem C2_case_variant_differs :
  let db := Sample.db_one "pro_lifetime" 1 in
  let db1 := Sample.db_m1 "pro_lifetime" 1 in
  Store.key_ieq Sample.key_aa_lower Sample.key_aa = true /\
  (* activate *)
  (snd (Lifecycle.activate db (Sample.tick 10) Sample.key_aa "a@x.com" "M1" None) =
   snd (Lifecycle.activate db (Sample.tick 10) Sample.key_aa_lower
          "a@x.com" "M1" None) /\
   List.map Store.current_activations
     (Store.licenses (fst (Lifecycle.activate db (Sample.tick 10) Sample.key_aa
                             "a@x.com" "M1" None))) = [1] /\
   List.map Store.current_activations
     (Store.licenses (fst (Lifecycle.activate db (Sample.tick 10)
                             Sample.key_aa_lower "a@x.com" "M1" None))) = [0]) /\
  (snd (Lifecycle.activate db1 (Sample.tick 20) Sample.key_aa
          "a@x.com" "M1" None) =
   Lifecycle.ActOk "pro" "pro_lifetime" "one-time" None (21 + Lifecycle.days365) /\
   snd (Lifecycle.activate db1 (Sample.tick 20) Sample.key_aa_lower
          "a@x.com" "M1" None) = Lifecycle.ActLimitReached 1) /\
  (* verify, whatever the order of the join *)
  (forall sel,
   snd (Lifecycle.verify db1 (Sample.tick 50) sel Sample.key_aa "M1") =
   snd (Lifecycle.verify db1 (Sample.tick 50) sel Sample.key_aa_lower "M1") /\
   List.map Store.a_last_verified
     (Store.activations
        (fst (Lifecycle.verify db1 (Sample.tick 50) sel Sample.key_aa "M1"))) =
   [Some 50] /\
   List.map Store.a_last_verified
     (Store.activations
        (fst (Lifecycle.verify db1 (Sample.tick 50) sel
                Sample.key_aa_lower "M1"))) =
   [Some 11]) /\
  (* deactivate *)
  (snd (Lifecycle.deactivate db1 Sample.key_aa "M1") = Lifecycle.DeOk /\
   snd (Lifecycle.deactivate db1 Sample.key_aa_lower "M1") = Lifecycle.DeOk /\
   List.map Store.current_activations
     (Store.licenses (fst (Lifecycle.deactivate db1 Sample.key_aa "M1"))) = [0] /\
   List.map Store.current_activations
     (Store.licenses (fst (Lifecycle.deactivate db1 Sample.key_aa_lower "M1")))
   = [1]).
Proof.
  cbv zeta. repeat split; try reflexivity;
    destruct sel as [|[|n]]; reflexivity.
Qed.

(** C3.  On a database whose license keys are stored in upper case and are
    unique, as [create_license] makes them, no sequence of [activate] calls
    takes a counter above its limit.  [activate] adds no activation row for
    a license whose counter has reached the limit, and answers
    "Maximum activations reached" when the machine has no row yet; and no
    other operation raises a counter: [verify] and [deactivate] leave it or
    lower it, [create_license] starts a new one at zero. *)
Theorem C3_activation_limit :
  (forall db cs,
     Trace.keys_canonical db -> Trace.keys_unique db ->
     Trace.within_limit db -> Forall Trace.is_activate cs ->
     Trace.within_limit (Trace.run db cs)) /\
  (forall db clk key email m ip l,
     Store.find_license db (Str.strip key) = Some l ->
     Store.max_activations l <= Store.current_activations l ->
     List.length
       (Store.activations (fst (Lifecycle.activate db clk key email m ip))) =
     List.length (Store.activations db) /\
     (List.find (Store.act_exact (Str.strip key) (Str.strip m))
                (Store.activations db) = None ->
      fst (Lifecycle.activate db clk key email m ip) = db /\
      (Str.nonempty (Str.strip key) && Str.nonempty (Str.strip email)
         && Str.nonempty (Str.strip m) = true ->
       Store.status l = "active" ->
       Str.py_lower (Str.strip email) = Str.py_lower (Store.email l) ->
       snd (Lifecycle.activate db clk key email m ip) =
       Lifecycle.ActLimitReached (Store.max_activations l)))) /\
  (forall db c,
     ~ Trace.is_activate c -> Trace.counters_not_raised db (Trace.step db c)).
Proof.
  split; [|split].
  - intros db cs Hc Hu Hw Hall. now apply LimitFacts.run_activate_within_limit.
  - intros db clk key email m ip l Hf Hle. split.
    + now apply LimitFacts.activate_at_limit with (l := l).
    + intros Hnone. now apply LimitFacts.activate_refuses.
  - intros db c Hc. destruct c; cbn [Trace.is_activate Trace.step] in *.
    + apply LimitFacts.create_not_raised.
    + tauto.
    + apply LimitFacts.verify_not_raised.
    + apply LimitFacts.deactivate_not_raised.
Qed.

(** The scenario of the specification: one annual license with one seat;
    machine M1 takes the seat, machine M2 is refused. *)
Example scenario_limit_reached :
  let db1 := fst (Lifecycle.activate (Sample.db_one "pro_annual" 1)
                    (Sample.tick 10) Sample.key_aa "a@x.com" "M1" None) in
  snd (Lifecycle.activate (Sample.db_one "pro_annual" 1)
         (Sample.tick 10) Sample.key_aa "a@x.com" "M1" None) =
  Lifecycle.ActOk "pro" "pro_annual" "annual"
    (Some (13 + Lifecycle.days365)) (13 + Lifecycle.days365) /\
  List.map Store.current_activations (Store.licenses db1) = [1] /\
  Lifecycle.activate db1 (Sample.tick 20) Sample.key_aa "a@x.com" "M2" None =
  (db1, Lifecycle.ActLimitReached 1).
Proof. cbv zeta. repeat split; reflexivity. Qed.

(** One seat: M1 takes it, M2 is refused, and the deactivation of M1
    raises nothing. *)
Lemma C3_witness :
  let db := Sample.db_one "pro_annual" 1 in
  let cs := [Trace.Activate (Sample.tick 10) Sample.key_aa "a@x.com" "M1" None;
             Trace.Activate (Sample.tick 20) Sample.key_aa "a@x.com" "M2" None] in
  let db1 := Trace.run db [Trace.Activate (Sample.tick 10) Sample.key_aa
                             "a@x.com" "M1" None] in
  (Trace.keys_canonical db /\ Trace.keys_unique db /\ Trace.within_limit db /\
   Forall Trace.is_activate cs /\ Trace.within_limit (Trace.run db cs)) /\
  (Lifecycle.activate db1 (Sample.tick 20) Sample.key_aa "a@x.com" "M2" None =
   (db1, Lifecycle.ActLimitReached 1)) /\
  Trace.counters_not_raised db1
    (Trace.step db1 (Trace.Deactivate Sample.key_aa "M1")).
Proof.
  cbv zeta.
  destruct C3_activation_limit as (Hseq & Hrefuse & Hother).
  assert (Hc : Trace.keys_canonical (Sample.db_one "pro_annual" 1))
    by (intros l [<-|[]]; reflexivity).
  assert (Hu : Trace.keys_unique (Sample.db_one "pro_annual" 1))
    by (repeat constructor; simpl; tauto).
  assert (Hw : Trace.within_limit (Sample.db_one "pro_annual" 1))
    by (intros l [<-|[]]; simpl; lia).
  assert (Ha : Forall Trace.is_activate
                 [Trace.Activate (Sample.tick 10) Sample.key_aa "a@x.com" "M1" None;
                  Trace.Activate (Sample.tick 20) Sample.key_aa "a@x.com" "M2" None])
    by (repeat constructor).
  split; [|split].
  - repeat split; try assumption. now apply Hseq.
  - destruct (Hrefuse
      (Trace.run (Sample.db_one "pro_annual" 1)
         [Trace.Activate (Sample.tick 10) Sample.key_aa "a@x.com" "M1" None])
      (Sample.tick 20) Sample.key_aa "a@x.com" "M2" None
      (Store.mkLicense Sample.key_aa "a@x.com" "pro" "pro_annual" "annual"
         "active" 0 (Some 12) (Some (13 + Lifecycle.days365)) None 1 1)
      eq_refl ltac:(simpl; lia)) as [_ H].
    destruct (H eq_refl) as [H1 H2].
    specialize (H2 eq_refl eq_refl eq_refl).
    rewrite (surjective_pairing (Lifecycle.activate _ _ _ _ _ _)).
    now rewrite H1, H2.
  - apply Hother. simpl. tauto.
Defined.

(** C4.  Of two [activate] calls in a row with the same arguments, the
    second leaves every [current_activations] as the first left it and
    writes nothing to the verification log; in [activations] it rewrites
    only rows of the same key and machine, and of those only
    [last_verified] and [ip_address].  When the license keys are stored in
    upper case, as the generator writes them, it leaves the whole
    [licenses] table as it was. *)
Theorem C4_activate_idempotent :
  forall db c1 c2 key email m ip,
    let db1 := fst (Lifecycle.activate db c1 key email m ip) in
    let db2 := fst (Lifecycle.activate db1 c2 key email m ip) in
    List.map Store.current_activations (Store.licenses db2) =
    List.map Store.current_activations (Store.licenses db1) /\
    Store.verification_log db2 = Store.verification_log db1 /\
    (exists f,
       (forall a, Trace.same_but_seen a (f a)) /\
       Store.activations db2 =
       Store.update_where (Store.act_exact (Str.strip key) (Str.strip m)) f
                          (Store.activations db1)) /\
    (Trace.keys_canonical db -> Store.licenses db2 = Store.licenses db1).
Proof.
  intros db c1 c2 key email m ip. cbv zeta.
  pose proof (TwiceFacts.activate_then db c1 key email m ip) as H.
  set (db1 := fst (Lifecycle.activate db c1 key email m ip)) in *.
  destruct H as [[E Hsame] | (Hne & l1 & a1 & Hf & Hs & He & Ha & Hcan)].
  - (* the first call failed: so does the second, and nothing is written *)
    assert (E2 : fst (Lifecycle.activate db1 c2 key email m ip) = db1).
    { rewrite E, Hsame. reflexivity. }
    rewrite E2. repeat split; auto.
    exists (fun a => a). split; [now repeat split|].
    now rewrite StoreFacts.update_where_same.
  - (* the second call finds the row of the machine *)
    rewrite (TwiceFacts.activate_existing db1 c2 key email m ip l1 a1
               Hne Hf Hs He Ha).
    rewrite TwiceFacts.expiry_licenses_rows, Frame.expiry_log,
      Frame.expiry_activations.
    cbn [Store.licenses Store.activations Store.verification_log
         Store.with_activations].
    split; [|split; [reflexivity | split]].
    + rewrite List.map_map. apply List.map_ext.
      intros r. apply TwiceFacts.expiry_row_counter.
    + eexists. split; [|reflexivity]. intros a. now repeat split.
    + intros Hc. apply TwiceFacts.expiry_row_idle. now apply Hcan.
Qed.

(** Two activations of machine M1 in a row, a microsecond clock apart. *)
Lemma C4_witness :
  let db := Sample.db_one "pro_annual" 1 in
  let db1 := fst (Lifecycle.activate db (Sample.tick 10) Sample.key_aa
                    "a@x.com" "M1" None) in
  let db2 := fst (Lifecycle.activate db1 (Sample.tick 20) Sample.key_aa
                    "a@x.com" "M1" None) in
  Trace.keys_canonical db /\
  Store.licenses db2 = Store.licenses db1 /\
  List.map Store.current_activations (Store.licenses db2) = [1].
Proof.
  cbv zeta.
  assert (Hc : Trace.keys_canonical (Sample.db_one "pro_annual" 1))
    by (intros l [<-|[]]; reflexivity).
  split; [exact Hc|].
  split; [|reflexivity].
  exact (proj2 (proj2 (proj2
    (C4_activate_idempotent (Sample.db_one "pro_annual" 1)
       (Sample.tick 10) (Sample.tick 20) Sample.key_aa "a@x.com" "M1" None)))
    Hc).
Defined.

(** C5 does not hold of the code, for the reason of C1: [activate] looks
    for the row of the machine under the key as the request writes it, so a
    machine that activates under two spellings of the key gets two rows,
    and the join of [verify], which compares the keys without regard to
    case, pairs the license with both.  Here machine M1 activates a
    lifetime license with the key in lower case at time 10 and with the
    stored key at time 20, both with success.  A [verify] for the
    lower-case key and M1 then reports the maintenance date of whichever
    row the engine produces first: in rowid order that of the lower-case
    activation, 10 + 365 days; in the order of the index that SQLite builds
    for the join, where the upper-case key comes first, the date
    20 + 365 days of the other activation.  Whatever the order, the
    requests for the two spellings get the same date, though the two
    activations are ten time units apart. *)
Theorem C5_round_trip_reads_another_activation :
  let db1 := Sample.db_one "pro_lifetime" 1 in
  let db2 := fst (Lifecycle.activate db1 (Sample.tick 10) Sample.key_aa_lower
                    "a@x.com" "M1" None) in
  let db3 := fst (Lifecycle.activate db2 (Sample.tick 20) Sample.key_aa
                    "a@x.com" "M1" None) in
  let valid_until t :=
    Lifecycle.VerValid "pro" "pro_lifetime" "one-time" None
                       (Some (t + Lifecycle.days365)) in
  (* both requests are answered with success *)
  snd (Lifecycle.activate db1 (Sample.tick 10) Sample.key_aa_lower
         "a@x.com" "M1" None) =
    Lifecycle.ActOk "pro" "pro_lifetime" "one-time" None
                    (13 + Lifecycle.days365) /\
  snd (Lifecycle.activate db2 (Sample.tick 20) Sample.key_aa
         "a@x.com" "M1" None) =
    Lifecycle.ActOk "pro" "pro_lifetime" "one-time" None
                    (23 + Lifecycle.days365) /\
  (* the two activations of machine M1 *)
  List.map (fun a => (Store.a_license_key a, Store.a_machine_id a,
                      Store.a_activated_at a, Store.a_status a))
           (Store.activations db3) =
    [(Sample.key_aa_lower, "M1", 10, "active");
     (Sample.key_aa, "M1", 20, "active")] /\
  (* verify for the pair that was activated at time 10 *)
  snd (Lifecycle.verify db3 (Sample.tick 50) 0 Sample.key_aa_lower "M1") =
    valid_until 10 /\
  snd (Lifecycle.verify db3 (Sample.tick 50) 1 Sample.key_aa_lower "M1") =
    valid_until 20 /\
  (* one answer for both pairs *)
  (forall sel,
     snd (Lifecycle.verify db3 (Sample.tick 50) sel Sample.key_aa_lower "M1") =
     snd (Lifecycle.verify db3 (Sample.tick 50) sel Sample.key_aa "M1") /\
     (snd (Lifecycle.verify db3 (Sample.tick 50) sel Sample.key_aa "M1") =
        valid_until 10 \/
      snd (Lifecycle.verify db3 (Sample.tick 50) sel Sample.key_aa "M1") =
        valid_until 20)).
Proof.
  cbv zeta. repeat split; try reflexivity.
  - destruct sel as [|[|[|n]]]; reflexivity.
  - destruct sel as [|[|[|n]]]; [left | right | left | left]; reflexivity.
Qed.

(** C6.  The license row that a successful [create_license] stores has the
    [type] and [billing_type] that the specification derives from the tier:
    "pro" when the tier starts with "pro", "enterprise" when it starts with
    "enterprise", otherwise "free"; "one-time" when the tier contains
    "lifetime", otherwise "annual".  Both are the only values that the
    wording allows, so they depend on nothing but the tier. *)
Theorem C6_type_and_billing_from_tier :
  forall db tb clk email tier max db' key,
    Lifecycle.create_license db tb clk email tier max =
      (db', Lifecycle.Returns (Some key)) ->
    exists l,
      Store.licenses db' = (Store.licenses db ++ [l])%list /\
      Store.license_key l = key /\
      Store.tier l = tier /\
      SpecWords.spec_type tier (Store.type l) /\
      SpecWords.spec_billing_type tier (Store.billing_type l) /\
      (forall t, SpecWords.spec_type tier t -> t = Store.type l) /\
      (forall b, SpecWords.spec_billing_type tier b -> b = Store.billing_type l).
Proof.
  intros db tb clk email tier max db' key H.
  apply CreateFacts.create_license_some in H as (_ & _ & ->).
  eexists. split; [reflexivity|]. cbn.
  repeat split.
  - apply CreateFacts.derive_type_spec.
  - apply CreateFacts.derive_billing_type_spec.
  - intros t Ht.
    exact (CreateFacts.spec_type_functional _ _ _ Ht
             (CreateFacts.derive_type_spec tier)).
  - intros b Hb.
    exact (CreateFacts.spec_billing_type_functional _ _ _ Hb
             (CreateFacts.derive_billing_type_spec tier)).
Qed.

(** The enterprise sample license of the start-up code. *)
Lemma C6_witness :
  Lifecycle.create_license Store.init_db Sample.token_aa (Sample.tick 0)
    "enterprise@example.com" "enterprise_lifetime" 1 =
  (fst (Lifecycle.create_license Store.init_db Sample.token_aa (Sample.tick 0)
          "enterprise@example.com" "enterprise_lifetime" 1),
   Lifecycle.Returns (Some Sample.key_aa)) /\
  exists l,
    Store.licenses
      (fst (Lifecycle.create_license Store.init_db Sample.token_aa
              (Sample.tick 0) "enterprise@example.com"
              "enterprise_lifetime" 1)) = ([] ++ [l])%list /\
    Store.license_key l = Sample.key_aa /\
    Store.tier l = "enterprise_lifetime" /\
    SpecWords.spec_type "enterprise_lifetime" (Store.type l) /\
    SpecWords.spec_billing_type "enterprise_lifetime" (Store.billing_type l) /\
    (forall t, SpecWords.spec_type "enterprise_lifetime" t -> t = Store.type l) /\
    (forall b, SpecWords.spec_billing_type "enterprise_lifetime" b ->
               b = Store.billing_type l).
Proof.
  split; [reflexivity|].
  apply (C6_type_and_billing_from_tier Store.init_db Sample.token_aa
           (Sample.tick 0) "enterprise@example.com" "enterprise_lifetime" 1).
  reflexivity.
Defined.

(** The five tiers of the product, and a tier that is none of them. *)
Example derive_known_tiers :
  List.map (fun t => (Lifecycle.derive_type t, Lifecycle.derive_billing_type t))
           ["free"; "pro_lifetime"; "pro_annual"; "enterprise_lifetime";
            "enterprise_annual"; "team"] =
  [("free", "annual"); ("pro", "one-time"); ("pro", "annual");
   ("enterprise", "one-time"); ("enterprise", "annual"); ("free", "annual")].
Proof. reflexivity. Qed.

(** C7, as the code has it.  Whenever the generator answers the request for
    eight bytes with eight bytes, the key has the form
    [UPAGER-XXXX-XXXX-XXXX-XXXX] with sixteen upper-case hexadecimal digits
    in four groups of four; the tier does not enter the key; and the key
    carries the eight bytes that [secrets.token_hex(8)] draws: it is a
    function of them and distinct draws give distinct keys. *)
Theorem C7_key_format_eight_bytes :
  forall (token_bytes : nat -> list byte) (tier : string),
    List.length (token_bytes 8%nat) = 8%nat ->
    KeyGen.key_format (KeyGen.generate_license_key token_bytes tier) /\
    (forall tier', KeyGen.generate_license_key token_bytes tier' =
                   KeyGen.generate_license_key token_bytes tier) /\
    KeyGen.key_entropy_bytes 8.
Proof.
  intros tb tier H. split; [|split].
  - now apply KeyGenFacts.generate_format.
  - intros tier'. apply KeyGenFacts.generate_tier_irrelevant.
  - exact KeyGenFacts.entropy_8.
Qed.

(** The key drawn from eight bytes [0xAA]. *)
Lemma C7_witness :
  List.length (Sample.token_aa 8%nat) = 8%nat /\
  KeyGen.key_format (KeyGen.generate_license_key Sample.token_aa "pro_annual") /\
  (forall tier', KeyGen.generate_license_key Sample.token_aa tier' =
                 KeyGen.generate_license_key Sample.token_aa "pro_annual") /\
  KeyGen.key_entropy_bytes 8.
Proof.
  split; [reflexivity|].
  apply (C7_key_format_eight_bytes Sample.token_aa "pro_annual").
  reflexivity.
Defined.

(** C7, as the specification words it, fails on the entropy: the key is
    not drawn from sixteen bytes.  Two generators whose answers to a request
    for sixteen bytes differ give the same key, because the key is made of
    sixteen hexadecimal digits, which are eight bytes. *)
Lemma C7_sixteen_bytes_refuted :
  let r1 := fun n : nat => List.repeat Byte.x00 n in
  let r2 := fun n : nat =>
              if (n =? 16)%nat then List.repeat Byte.xff n
              else List.repeat Byte.x00 n in
  List.length (r1 16%nat) = 16%nat /\ List.length (r2 16%nat) = 16%nat /\
  r1 16%nat <> r2 16%nat /\
  KeyGen.generate_license_key r1 "pro_lifetime" =
  KeyGen.generate_license_key r2 "pro_lifetime" /\
  KeyGen.generate_license_key r1 "pro_lifetime" = "UPAGER-0000-0000-0000-0000" /\
  ~ KeyGen.key_entropy_bytes 16.
Proof.
  cbv zeta. repeat split; try reflexivity.
  - discriminate.
  - intros [_ Hinj].
    specialize (Hinj (fun n : nat => List.repeat Byte.x00 n)
                     (fun n : nat =>
                        if (n =? 16)%nat then List.repeat Byte.xff n
                        else List.repeat Byte.x00 n)
                     "pro_lifetime" eq_refl eq_refl eq_refl).
    discriminate Hinj.
Qed.

(** C8, as the code has it.  The verification log only grows at its end: no
    operation, and so no sequence of operations, changes or drops a row, and
    [create_license], [activate] and [deactivate] never write to it.
    [verify] appends exactly one row when it answers valid (result
    "success") and when the key is unknown (result "failed"); a request
    that lacks a field is answered before the database is opened and
    appends nothing. *)
Theorem C8_log_append_only :
  (forall db clk sel key m,
     match snd (Lifecycle.verify db clk sel key m) with
     | Lifecycle.VerValid _ tr _ _ _ =>
         exists t,
           Store.verification_log (fst (Lifecycle.verify db clk sel key m)) =
           (Store.verification_log db ++
            [Store.mkLogEntry (Str.strip key) (Str.strip m) None
                              t "success" ("Verified " ++ tr)])%list
     | Lifecycle.VerInvalidKey =>
         exists t,
           Store.verification_log (fst (Lifecycle.verify db clk sel key m)) =
           (Store.verification_log db ++
            [Store.mkLogEntry (Str.strip key) (Str.strip m) None
                              t "failed" "Invalid key"])%list
     | Lifecycle.VerMissingFields =>
         Store.verification_log (fst (Lifecycle.verify db clk sel key m)) =
         Store.verification_log db
     | _ =>
         exists new,
           Store.verification_log (fst (Lifecycle.verify db clk sel key m)) =
           (Store.verification_log db ++ new)%list
     end) /\
  (forall db cs,
     exists new,
       Store.verification_log (Trace.run db cs) =
       (Store.verification_log db ++ new)%list) /\
  (forall db tb clk email tier max,
     Store.verification_log
       (fst (Lifecycle.create_license db tb clk email tier max)) =
     Store.verification_log db) /\
  (forall db clk key email m ip,
     Store.verification_log (fst (Lifecycle.activate db clk key email m ip)) =
     Store.verification_log db) /\
  (forall db key m,
     Store.verification_log (fst (Lifecycle.deactivate db key m)) =
     Store.verification_log db).
Proof.
  split; [|split; [intros db cs; apply VerifyFacts.run_log|];
           split; [exact Frame.create_log|];
           split; [exact Frame.activate_log | exact Frame.deactivate_log]].
  intros db clk sel key m.
  destruct (VerifyFacts.verify_log db clk sel key m) as [new [E H]].
  destruct (snd (Lifecycle.verify db clk sel key m)).
  - subst new. now rewrite app_nil_r in E.
  - destruct H as [t ->]. now exists t.
  - now exists new.
  - now exists new.
  - now exists new.
  - destruct H as [t ->]. now exists t.
Qed.

(** C8, as the specification words it, fails: a [verify] for a machine that
    never activated the license answers valid=false and leaves the log
    empty, and so does a [verify] without a machine identifier. *)
Lemma C8_unlogged_failure :
  let db := Sample.db_one "pro_lifetime" 1 in
  let r := Lifecycle.verify db (Sample.tick 5) 0 Sample.key_aa "M1" in
  let r' := Lifecycle.verify db (Sample.tick 5) 0 Sample.key_aa "  " in
  snd r = Lifecycle.VerNotActivated /\
  Lifecycle.valid (snd r) = false /\
  Store.verification_log db = [] /\
  Store.verification_log (fst r) = [] /\
  ~ (exists e, Store.verification_log (fst r) =
               (Store.verification_log db ++ [e])%list) /\
  snd r' = Lifecycle.VerMissingFields /\
  Store.verification_log (fst r') = [].
Proof.
  cbv zeta. repeat split; try reflexivity.
  intros [e H]. discriminate H.
Qed.

(** Two more scenarios of the specification: a [verify] before any
    [activate] of the machine, and a [verify] of an annual license past its
    expiry date. *)
Example scenario_not_activated_and_expired :
  snd (Lifecycle.verify (Sample.db_one "pro_annual" 1) (Sample.tick 5) 0
         Sample.key_aa "M1") = Lifecycle.VerNotActivated /\
  snd (Lifecycle.verify (Sample.db_m1 "pro_annual" 1)
         (Sample.tick (14 + Lifecycle.days365)) 0 Sample.key_aa "M1") =
  Lifecycle.VerExpired /\
  Lifecycle.valid
    (snd (Lifecycle.verify (Sample.db_m1 "pro_annual" 1)
            (Sample.tick (13 + Lifecycle.days365)) 0 Sample.key_aa "M1")) = true.
Proof. repeat split; reflexivity. Qed.

(** C9.  [verify] does not look at whether the joined activation row is
    active: with a row whose status is "deactivated", on an active license
    that has not expired, it answers valid.  In particular this is the
    answer right after a successful [deactivate] of that machine. *)
Theorem C9_verify_ignores_activation_status :
  (forall db clk sel key m l a,
     Str.nonempty (Str.strip key) && Str.nonempty (Str.strip m) = true ->
     Lifecycle.verify_join db sel (Str.strip key) (Str.strip m) = Some (l, Some a) ->
     Store.status l = "active" ->
     Store.a_status a = "deactivated" ->
     (forall e, Store.billing_type l = "annual" -> Store.expires_at l = Some e ->
                clk 0%nat <= e) ->
     Lifecycle.valid (snd (Lifecycle.verify db clk sel key m)) = true) /\
  (forall db clk sel key m l,
     snd (Lifecycle.deactivate db key m) = Lifecycle.DeOk ->
     Store.find_license db (Str.strip key) = Some l ->
     Store.status l = "active" ->
     (forall e, Store.billing_type l = "annual" -> Store.expires_at l = Some e ->
                clk 0%nat <= e) ->
     (exists l' a,
        Lifecycle.verify_join (fst (Lifecycle.deactivate db key m)) sel
          (Str.strip key) (Str.strip m) = Some (l', Some a) /\
        Store.a_status a = "deactivated") /\
     Lifecycle.valid
       (snd (Lifecycle.verify (fst (Lifecycle.deactivate db key m))
               clk sel key m))
     = true).
Proof.
  split.
  - intros db clk sel key m l a Hne Hj Hs Ha Hx.
    apply (VerifyFacts.verify_valid db clk sel key m l a); auto.
    now rewrite Ha.
  - intros db clk sel key m l Hok Hf Hs Hx.
    destruct (VerifyFacts.verify_join_after_deactivate db sel key m l Hok Hf)
      as (l' & a & Hj & Ha & Hs' & Hb' & He').
    split; [now exists l', a|].
    apply (VerifyFacts.verify_valid _ clk sel key m l' a); auto.
    + apply (VerifyFacts.deactivate_ok db key m Hok).
    + congruence.
    + now rewrite Ha.
    + intros e Hb He. apply Hx; congruence.
Qed.

(** Machine M1, activated and deactivated, verifies. *)
Lemma C9_witness :
  (exists l a,
     Lifecycle.verify_join (Sample.db_m1_off "pro_annual" 1) 0
       (Str.strip Sample.key_aa) (Str.strip "M1") = Some (l, Some a) /\
     Store.status l = "active" /\ Store.a_status a = "deactivated" /\
     Lifecycle.valid
       (snd (Lifecycle.verify (Sample.db_m1_off "pro_annual" 1)
               (Sample.tick 100) 0 Sample.key_aa "M1")) = true) /\
  (snd (Lifecycle.deactivate (Sample.db_m1 "pro_annual" 1) Sample.key_aa "M1") =
   Lifecycle.DeOk /\
   Lifecycle.valid
     (snd (Lifecycle.verify
             (fst (Lifecycle.deactivate (Sample.db_m1 "pro_annual" 1)
                     Sample.key_aa "M1"))
             (Sample.tick 100) 0 Sample.key_aa "M1")) = true).
Proof.
  destruct C9_verify_ignores_activation_status as [Hrow Hafter].
  split.
  - eexists. eexists.
    split; [reflexivity|]. split; [reflexivity|]. split; [reflexivity|].
    eapply Hrow; try reflexivity.
    intros e _ He. injection He as <-. vm_compute. discriminate.
  - split; [reflexivity|].
    eapply Hafter; try reflexivity.
    intros e _ He. injection He as <-. vm_compute. discriminate.
Defined.

(** C10 does not hold of the code, for the reason of C1.  Machine M1
    activates the license under its stored key and deactivates it: its row
    is deactivated and the counter is back at zero.  Then M1 activates
    again with the key in lower case: [activate] looks for the row under
    the key as written, finds none and inserts a second row, and its
    counter update, which compares the key as written, matches no license.
    A [deactivate] with the stored key now finds the new row, since its
    SELECT compares the keys without regard to case: it answers with
    success although the row of the stored key and M1 was deactivated
    already, and lowers the counter a second time, to -1. *)
Theorem C10_deactivated_pair_is_decremented_again :
  let db :=
    Trace.run Store.init_db
      [Trace.Create Sample.token_aa (Sample.tick 0) "a@x.com" "pro_annual" 1;
       Trace.Activate (Sample.tick 10) Sample.key_aa "a@x.com" "M1" None;
       Trace.Deactivate Sample.key_aa "M1";
       Trace.Activate (Sample.tick 20) Sample.key_aa_lower "a@x.com" "M1"
                      None] in
  (* the row of the stored key and M1 is deactivated, the counter is 0 *)
  List.map (fun a => (Store.a_license_key a, Store.a_machine_id a,
                      Store.a_status a))
           (Store.activations db) =
    [(Sample.key_aa, "M1", "deactivated");
     (Sample.key_aa_lower, "M1", "active")] /\
  List.map Store.current_activations (Store.licenses db) = [0] /\
  (* deactivate with the same exact key *)
  snd (Lifecycle.deactivate db Sample.key_aa "M1") = Lifecycle.DeOk /\
  List.map Store.current_activations
    (Store.licenses (fst (Lifecycle.deactivate db Sample.key_aa "M1"))) =
    [-1] /\
  List.map Store.a_status
    (Store.activations (fst (Lifecycle.deactivate db Sample.key_aa "M1"))) =
    ["deactivated"; "deactivated"].
Proof. cbv zeta. repeat split; reflexivity. Qed.

(** The scenario of the specification: after the deactivation of M1 the
    counter is back at zero and M2 can take the seat. *)
Example scenario_seat_freed :
  List.map Store.current_activations
           (Store.licenses (Sample.db_m1 "pro_annual" 1)) = [1] /\
  List.map Store.current_activations
           (Store.licenses (Sample.db_m1_off "pro_annual" 1)) = [0] /\
  snd (Lifecycle.activate (Sample.db_m1_off "pro_annual" 1) (Sample.tick 30)
         Sample.key_aa "a@x.com" "M2" None) =
  Lifecycle.ActOk "pro" "pro_annual" "annual"
    (Some (33 + Lifecycle.days365)) (33 + Lifecycle.days365).
Proof. repeat split; reflexivity. Qed.

(** * Further properties of the code *)

(** ** Requests that are refused *)

Module RefusalFacts.
Import Str Store Lifecycle Trace StoreFacts Frame.

Lemma activate_refused_unchanged db clk key email m ip :
  match snd (activate db clk key email m ip) with
  | ActOk _ _ _ _ _ => True
  | _ => fst (activate db clk key email m ip) = db
  end.
Proof.
  unfold activate.
  branches; try reflexivity; now rewrite expiry_response.
Qed.

Lemma deactivate_refused_unchanged db key m :
  match snd (deactivate db key m) with
  | DeOk => True
  | _ => fst (deactivate db key m) = db
  end.
Proof.
  destruct (snd (deactivate db key m)) eqn:E; [| |exact I];
    apply VerifyFacts.deactivate_failed; rewrite E; discriminate.
Qed.

Lemma verify_refused_unchanged db clk sel key m :
  match snd (verify db clk sel key m) with
  | VerValid _ _ _ _ _ => True
  | VerInvalidKey =>
      licenses (fst (verify db clk sel key m)) = licenses db /\
      activations (fst (verify db clk sel key m)) = activations db
  | _ => fst (verify db clk sel key m) = db
  end.
Proof.
  unfold verify.
  branches; try reflexivity; try (split; reflexivity).
  destruct (billing_type l =? "annual")%string, (expires_at l) as [e|];
    try destruct (clk 0%nat >? e); try reflexivity; exact I.
Qed.

End RefusalFacts.

(** X1.  A request that is refused writes nothing: whenever [activate]
    answers anything but success and whenever [deactivate] answers
    anything but success, the database is exactly as before; whenever
    [verify] answers not valid, the database is as before, except that an
    unknown key adds its row to the log and leaves licenses and activations
    as they were. *)
Theorem refused_requests_write_nothing :
  (forall db clk key email m ip,
     match snd (Lifecycle.activate db clk key email m ip) with
     | Lifecycle.ActOk _ _ _ _ _ => True
     | _ => fst (Lifecycle.activate db clk key email m ip) = db
     end) /\
  (forall db key m,
     match snd (Lifecycle.deactivate db key m) with
     | Lifecycle.DeOk => True
     | _ => fst (Lifecycle.deactivate db key m) = db
     end) /\
  (forall db clk sel key m,
     match snd (Lifecycle.verify db clk sel key m) with
     | Lifecycle.VerValid _ _ _ _ _ => True
     | Lifecycle.VerInvalidKey =>
         Store.licenses (fst (Lifecycle.verify db clk sel key m)) =
           Store.licenses db /\
         Store.activations (fst (Lifecycle.verify db clk sel key m)) =
           Store.activations db
     | _ => fst (Lifecycle.verify db clk sel key m) = db
     end).
Proof.
  split; [exact RefusalFacts.activate_refused_unchanged|].
  split; [exact RefusalFacts.deactivate_refused_unchanged
         | exact RefusalFacts.verify_refused_unchanged].
Qed.

(** ** What [verify] answers, and what it writes *)

Module AnswerFacts.
Import Str Store Lifecycle Trace StoreFacts Frame.


Lemma verify_expired_iff db clk sel key m :
  snd (verify db clk sel key m) = VerExpired <->
  nonempty (strip key) && nonempty (strip m) = true /\
  exists l a e,
    verify_join db sel (strip key) (strip m) = Some (l, Some a) /\
    status l = "active" /\ nonempty (a_status a) = true /\
    billing_type l = "annual" /\ expires_at l = Some e /\ e < clk 0%nat.
Proof.
  unfold verify. split.
  - destruct (nonempty (strip key) && nonempty (strip m)); cbn [negb];
      [|discriminate].
    destruct (verify_join db sel (strip key) (strip m)) as [[l [a|]]|];
      [| destruct (status l =? "active")%string; discriminate | discriminate].
    destruct (status l =? "active")%string eqn:Hs; cbn [negb]; [|discriminate].
    destruct (nonempty (a_status a)) eqn:Ha; cbn [negb]; [|discriminate].
    destruct (billing_type l =? "annual")%string eqn:Hb; [|discriminate].
    destruct (expires_at l) as [e|] eqn:He; [|discriminate].
    destruct (clk 0%nat >? e) eqn:Hgt; [|discriminate].
    intros _. split; [reflexivity|]. exists l, a, e.
    apply String.eqb_eq in Hs, Hb. apply Z.gtb_lt in Hgt. auto 10.
  - intros (Hne & l & a & e & Hj & Hs & Ha & Hb & He & Hlt).
    rewrite Hne, Hj, Hs, Ha, Hb, He.
    cbn [negb String.eqb Ascii.eqb Bool.eqb andb].
    apply Z.gtb_lt in Hlt. now rewrite Hlt.
Qed.

(** The join in terms of the tables: the license that the key names and a
    row that the machine has under a spelling of its key. *)
Lemma verify_join_some db sel k m l a :
  verify_join db sel k m = Some (l, Some a) ->
  find_license db k = Some l /\ In a (activations db) /\
  act_ieq (license_key l) m a = true.
Proof.
  unfold verify_join, joined_rows.
  destruct (find_license db k) as [l0|]; [|discriminate].
  destruct (fetch_one sel _) as [a0|] eqn:Ha; [|discriminate].
  intros H. injection H as <- <-. split; [reflexivity|].
  apply fetch_one_in in Ha. now apply filter_In in Ha.
Qed.

Lemma verify_join_has_row db sel k m l :
  find_license db k = Some l -> has_row db (license_key l) m ->
  exists a, verify_join db sel k m = Some (l, Some a).
Proof.
  intros Hf [a0 [Hin Hq]]. unfold verify_join. rewrite Hf.
  assert (Hin0 : In a0 (joined_rows db l m)) by (apply filter_In; now split).
  destruct (fetch_one_some sel _ _ Hin0) as [a Ha]. rewrite Ha. now exists a.
Qed.

(** [verify] rewrites no license, and of an activation row at most
    [last_verified]. *)
Lemma verify_rows db clk sel key m :
  Forall2 (fun a a' =>
             a_license_key a' = a_license_key a /\
             a_machine_id a' = a_machine_id a /\
             a_ip_address a' = a_ip_address a /\
             a_activated_at a' = a_activated_at a /\
             a_status a' = a_status a /\
             (a_last_verified a' = a_last_verified a \/
              act_exact (strip key) (strip m) a = true))
          (activations db) (activations (fst (verify db clk sel key m))).
Proof.
  destruct (CounterFacts.verify_shape db clk sel key m)
    as [E | [[lg E] | (t & lg & E)]]; rewrite E;
    cbn [activations with_log with_activations].
  - apply Forall2_refl. intros a. repeat split; auto.
  - apply Forall2_refl. intros a. repeat split; auto.
  - clear E. unfold update_where. generalize (activations db) as acts.
    induction acts as [|a acts IH]; cbn [List.map]; constructor; [|exact IH].
    destruct (act_exact (strip key) (strip m) a); cbn; repeat split; auto.
Qed.

End AnswerFacts.



(** X3.  [verify] is read-only but for its stamps: it leaves the licenses
    table as it is, so no counter, date or status of a license moves; in
    [activations] it keeps every row in place with its key, machine, IP
    address, activation time and status, and changes [last_verified] only
    on rows stored under the key exactly as the request writes it. *)
Theorem verify_only_stamps :
  forall db clk sel key m,
    Store.licenses (fst (Lifecycle.verify db clk sel key m)) = Store.licenses db /\
    Forall2 (fun a a' =>
               Store.a_license_key a' = Store.a_license_key a /\
               Store.a_machine_id a' = Store.a_machine_id a /\
               Store.a_ip_address a' = Store.a_ip_address a /\
               Store.a_activated_at a' = Store.a_activated_at a /\
               Store.a_status a' = Store.a_status a /\
               (Store.a_last_verified a' = Store.a_last_verified a \/
                Store.act_exact (Str.strip key) (Str.strip m) a = true))
            (Store.activations db)
            (Store.activations (fst (Lifecycle.verify db clk sel key m))).
Proof.
  intros db clk sel key m. split.
  - apply Frame.verify_licenses.
  - apply AnswerFacts.verify_rows.
Qed.

(** ** How a request may spell its fields *)

Module SpellingFacts.
Import Str Store Lifecycle Trace StoreFacts Frame.

Lemma nonempty_map f s : nonempty (Str.map f s) = nonempty s.
Proof. now destruct s. Qed.

Lemma key_ieq_nonempty k1 k2 :
  key_ieq k1 k2 = true -> nonempty k1 = nonempty k2.
Proof.
  intros H. apply key_ieq_eq in H.
  rewrite <- (nonempty_map upper_ascii k1), <- (nonempty_map upper_ascii k2).
  unfold sql_upper in H. now rewrite H.
Qed.

Lemma py_lower_nonempty e1 e2 :
  py_lower e1 = py_lower e2 -> nonempty e1 = nonempty e2.
Proof.
  intros H.
  rewrite <- (nonempty_map lower_char e1), <- (nonempty_map lower_char e2).
  unfold py_lower in H. now rewrite H.
Qed.

Lemma find_ext {A} (p q : A -> bool) (l : list A) :
  (forall a, p a = q a) -> List.find p l = List.find q l.
Proof.
  intros H. induction l as [|a l IH]; simpl; [reflexivity|].
  now rewrite H, IH.
Qed.

Lemma update_where_ext {A} (p q : A -> bool) (f : A -> A) (l : list A) :
  (forall a, p a = q a) -> update_where p f l = update_where q f l.
Proof.
  intros H. unfold update_where. apply List.map_ext.
  intros a. now rewrite H.
Qed.

Lemma find_license_ieq db k1 k2 :
  key_ieq k1 k2 = true -> find_license db k1 = find_license db k2.
Proof.
  intros H. unfold find_license. apply find_ext.
  intros l. now apply key_ieq_congr.
Qed.

Lemma verify_answer_ieq db clk sel k1 k2 m :
  key_ieq (strip k1) (strip k2) = true ->
  snd (verify db clk sel k1 m) = snd (verify db clk sel k2 m).
Proof.
  intros H. unfold verify, verify_join.
  rewrite (key_ieq_nonempty _ _ H), (find_license_ieq db _ _ H).
  destruct (nonempty (strip k2) && nonempty (strip m)); cbn [negb];
    [|reflexivity].
  destruct (find_license db (strip k2)) as [l|]; [|reflexivity].
  destruct (status l =? "active")%string; cbn [negb]; [|reflexivity].
  destruct (fetch_one sel (joined_rows db l (strip m))) as [a|];
    [|reflexivity].
  destruct (nonempty (a_status a)); cbn [negb]; [|reflexivity].
  destruct (billing_type l =? "annual")%string, (expires_at l) as [e|];
    try destruct (clk 0%nat >? e); reflexivity.
Qed.

Lemma deactivate_ieq db k1 k2 m :
  key_ieq (strip k1) (strip k2) = true ->
  snd (deactivate db k1 m) = snd (deactivate db k2 m) /\
  activations (fst (deactivate db k1 m)) =
  activations (fst (deactivate db k2 m)).
Proof.
  intros H. unfold deactivate.
  rewrite (key_ieq_nonempty _ _ H).
  assert (Hq : forall a, act_ieq (strip k1) (strip m) a =
                         act_ieq (strip k2) (strip m) a)
    by (intros a; now apply VerifyFacts.act_ieq_congr).
  rewrite (find_ext
             (fun a => act_ieq (strip k1) (strip m) a
                       && (a_status a =? "active")%string)
             (fun a => act_ieq (strip k2) (strip m) a
                       && (a_status a =? "active")%string))
    by (intros a; now rewrite Hq).
  rewrite (update_where_ext _ _ _ _ Hq).
  destruct (nonempty (strip k2) && nonempty (strip m)); cbn [negb];
    [|now split].
  now destruct (List.find _ (activations db)).
Qed.

End SpellingFacts.

(** X4.  [activate] reads the key, the email and the machine identifier
    without the whitespace around them, and the email without regard to
    case: two requests that agree on those readings get the same answer and
    write the same. *)
Theorem activate_ignores_padding_and_email_case :
  forall db clk k1 k2 e1 e2 m1 m2 ip,
    Str.strip k1 = Str.strip k2 ->
    Str.py_lower (Str.strip e1) = Str.py_lower (Str.strip e2) ->
    Str.strip m1 = Str.strip m2 ->
    Lifecycle.activate db clk k1 e1 m1 ip =
    Lifecycle.activate db clk k2 e2 m2 ip.
Proof.
  intros db clk k1 k2 e1 e2 m1 m2 ip Hk He Hm.
  unfold Lifecycle.activate.
  now rewrite Hk, Hm, He, (SpellingFacts.py_lower_nonempty _ _ He).
Qed.

(** The owner's address in capitals and with blanks around. *)
Lemma activate_ignores_padding_witness :
  Str.strip " UPAGER-AAAA-AAAA-AAAA-AAAA " = Str.strip Sample.key_aa /\
  Str.py_lower (Str.strip " A@X.COM") = Str.py_lower (Str.strip "a@x.com") /\
  Str.strip "M1  " = Str.strip "M1" /\
  Lifecycle.activate (Sample.db_one "pro_annual" 1) (Sample.tick 10)
    " UPAGER-AAAA-AAAA-AAAA-AAAA " " A@X.COM" "M1  " None =
  Lifecycle.activate (Sample.db_one "pro_annual" 1) (Sample.tick 10)
    Sample.key_aa "a@x.com" "M1" None.
Proof.
  split; [reflexivity|]. split; [reflexivity|]. split; [reflexivity|].
  apply activate_ignores_padding_and_email_case; reflexivity.
Defined.

(** X5.  The answers of [verify] and of [deactivate] do not depend on
    the case in which the request spells the key, and [deactivate] marks the
    same activation rows under either spelling.  (What else the two
    requests write does depend on the spelling.) *)
Theorem verify_and_deactivate_answer_in_any_case :
  forall db clk sel k1 k2 m,
    Store.key_ieq (Str.strip k1) (Str.strip k2) = true ->
    snd (Lifecycle.verify db clk sel k1 m) = snd (Lifecycle.verify db clk sel k2 m) /\
    snd (Lifecycle.deactivate db k1 m) = snd (Lifecycle.deactivate db k2 m) /\
    Store.activations (fst (Lifecycle.deactivate db k1 m)) =
    Store.activations (fst (Lifecycle.deactivate db k2 m)).
Proof.
  intros db clk sel k1 k2 m H. split.
  - now apply SpellingFacts.verify_answer_ieq.
  - now apply SpellingFacts.deactivate_ieq.
Qed.

(** The stored key and the key in lower case, machine M1. *)
Lemma verify_and_deactivate_any_case_witness :
  Store.key_ieq (Str.strip Sample.key_aa_lower) (Str.strip Sample.key_aa) = true /\
  snd (Lifecycle.verify (Sample.db_m1 "pro_annual" 1) (Sample.tick 50) 0
         Sample.key_aa_lower "M1") =
  snd (Lifecycle.verify (Sample.db_m1 "pro_annual" 1) (Sample.tick 50) 0
         Sample.key_aa "M1") /\
  snd (Lifecycle.deactivate (Sample.db_m1 "pro_annual" 1)
         Sample.key_aa_lower "M1") =
  snd (Lifecycle.deactivate (Sample.db_m1 "pro_annual" 1) Sample.key_aa "M1") /\
  Store.activations
    (fst (Lifecycle.deactivate (Sample.db_m1 "pro_annual" 1)
            Sample.key_aa_lower "M1")) =
  Store.activations
    (fst (Lifecycle.deactivate (Sample.db_m1 "pro_annual" 1) Sample.key_aa "M1")).
Proof.
  split; [reflexivity|].
  apply verify_and_deactivate_answer_in_any_case. reflexivity.
Defined.

(** ** What a row keeps for good *)

Module EvolveFacts.
Import Str Store Lifecycle Trace StoreFacts Frame WellFormed.

Lemma license_evolves_refl l : license_evolves l l.
Proof. unfold license_evolves. repeat split; auto. Qed.

Lemma license_evolves_trans l1 l2 l3 :
  license_evolves l1 l2 -> license_evolves l2 l3 -> license_evolves l1 l3.
Proof.
  unfold license_evolves.
  intros (A1 & A2 & A3 & A4 & A5 & A6 & A7 & A8 & A9 & A10 & A11)
         (B1 & B2 & B3 & B4 & B5 & B6 & B7 & B8 & B9 & B10 & B11).
  repeat split; try congruence; auto.
Qed.

Lemma row_evolves_refl a : row_evolves a a.
Proof. unfold row_evolves. repeat split; auto. Qed.

Lemma row_evolves_trans a1 a2 a3 :
  row_evolves a1 a2 -> row_evolves a2 a3 -> row_evolves a1 a3.
Proof.
  unfold row_evolves. intros (A1 & A2 & A3 & A4) (B1 & B2 & B3 & B4).
  repeat split; try congruence.
  destruct B4 as [B4|B4]; [|now right].
  destruct A4 as [A4|A4]; [left | right]; congruence.
Qed.

Section Chain.
Context {A : Type} (R : A -> A -> Prop).
Hypothesis R_refl : forall a, R a a.
Hypothesis R_trans : forall a b c, R a b -> R b c -> R a c.

Lemma Forall2_trans (l1 l2 l3 : list A) :
  Forall2 R l1 l2 -> Forall2 R l2 l3 -> Forall2 R l1 l3.
Proof.
  intros H. revert l3. induction H; intros l3 H3; inversion H3; subst;
    constructor; eauto.
Qed.

(** Rows kept in place and evolved, with new rows behind them: this
    composes. *)
Lemma grows_trans (l1 l2 l3 : list A) :
  (exists old new, l2 = (old ++ new)%list /\ Forall2 R l1 old) ->
  (exists old new, l3 = (old ++ new)%list /\ Forall2 R l2 old) ->
  exists old new, l3 = (old ++ new)%list /\ Forall2 R l1 old.
Proof.
  intros (o1 & n1 & -> & H1) (o2 & n2 & -> & H2).
  apply Forall2_app_inv_l in H2 as (o2a & o2b & Ha & Hb & ->).
  exists o2a, (o2b ++ n2)%list. split; [now rewrite app_assoc|].
  now apply (Forall2_trans l1 o1 o2a).
Qed.

Lemma grows_refl (l : list A) :
  exists old new, l = (old ++ new)%list /\ Forall2 R l old.
Proof.
  exists l, []. split; [now rewrite app_nil_r | now apply Forall2_refl].
Qed.

Lemma grows_map (l : list A) (g : A -> A) :
  (forall a, In a l -> R a (g a)) ->
  exists old new, List.map g l = (old ++ new)%list /\ Forall2 R l old.
Proof.
  intros H. exists (List.map g l), []. split; [now rewrite app_nil_r|].
  induction l as [|a l IH]; cbn [List.map]; constructor.
  - apply H. now left.
  - apply IH. intros b Hb. apply H. now right.
Qed.

Lemma grows_nth (l l' : list A) (n : nat) (a : A) :
  (exists old new, l' = (old ++ new)%list /\ Forall2 R l old) ->
  nth_error l n = Some a ->
  exists a', nth_error l' n = Some a' /\ R a a'.
Proof.
  intros (old & new & -> & H). revert n.
  induction H as [|x y l old Hxy H IH]; intros n Hn.
  - now destruct n.
  - destruct n as [|n]; cbn in Hn |- *.
    + injection Hn as <-. now exists y.
    + now apply IH.
Qed.

End Chain.

Lemma expiry_row_evolves db k l now r0 r :
  wf_db db -> find_license db k = Some l -> In r0 (licenses db) ->
  license_key r = license_key r0 -> expires_at r = expires_at r0 ->
  license_evolves r0 r -> license_evolves r0 (expiry_row k l now r).
Proof.
  intros Hwf Hf Hr0 Ek Ex H. unfold expiry_row.
  destruct (expires_at l) eqn:Hx; [exact H|].
  destruct (billing_type l =? "one-time")%string; [exact H|].
  destruct (lic_exact k r) eqn:Hex; [|exact H].
  unfold lic_exact in Hex. apply String.eqb_eq in Hex. rewrite Ek in Hex.
  pose proof (exact_is_found db k l r0 (wf_canonical _ Hwf) (wf_unique _ Hwf)
                Hf Hr0 Hex) as ->.
  destruct H as (A1 & A2 & A3 & A4 & A5 & A6 & A7 & A8 & A9 & A10 & A11).
  unfold license_evolves. cbn. repeat split; auto.
  intros t0 Ht0. congruence.
Qed.

Lemma count_activation_evolves t r : license_evolves r (count_activation t r).
Proof.
  unfold license_evolves. cbn. repeat split; auto.
  intros t0 Ht0. now rewrite Ht0.
Qed.

Lemma licenses_evolve_step db c :
  wf_db db -> licenses_evolve db (step db c).
Proof.
  intros Hwf. unfold licenses_evolve.
  destruct c as [tb clk e t mx | clk k e m ip | clk sel k m | k m]; cbn [step].
  - unfold create_license.
    destruct (fits_int64 _); cbn [negb fst];
      [|apply grows_refl; exact license_evolves_refl].
    destruct (existsb _ _); cbn [fst].
    + apply grows_refl. exact license_evolves_refl.
    + cbn [licenses with_licenses]. eexists _, _. split; [reflexivity|].
      apply Forall2_refl. exact license_evolves_refl.
  - destruct (CounterFacts.activate_shape db clk k e m ip)
      as [E | [(l & a & Hf & _ & E) | (l & Hf & _ & E)]]; rewrite E.
    + apply grows_refl. exact license_evolves_refl.
    + rewrite TwiceFacts.expiry_licenses_rows. cbn [licenses with_activations].
      apply grows_map. intros r Hr.
      apply (expiry_row_evolves db); auto using license_evolves_refl.
    + rewrite TwiceFacts.expiry_licenses_rows.
      cbn [licenses with_activations with_licenses].
      unfold update_where. rewrite List.map_map.
      apply grows_map. intros r Hr.
      apply (expiry_row_evolves db); auto;
        destruct (lic_exact (strip k) r);
        auto using license_evolves_refl, count_activation_evolves.
  - rewrite verify_licenses. apply grows_refl. exact license_evolves_refl.
  - destruct (snd (deactivate db k m)) eqn:Hr;
      try (rewrite VerifyFacts.deactivate_failed by (rewrite Hr; discriminate);
           apply grows_refl; exact license_evolves_refl).
    destruct (VerifyFacts.deactivate_ok db k m Hr) as (_ & _ & E). rewrite E.
    cbn [licenses with_licenses]. apply grows_map.
    intros r _. destruct (lic_exact (strip k) r); cbn;
      unfold license_evolves; now repeat split.
Qed.

Lemma licenses_evolve_run cs :
  forall db, wf_db db -> Forall call_ok cs -> licenses_evolve db (run db cs).
Proof.
  induction cs as [|c cs IH]; intros db Hwf Hok.
  - apply grows_refl. exact license_evolves_refl.
  - inversion Hok; subst. cbn [run fold_left].
    apply (grows_trans license_evolves license_evolves_trans
             (licenses db) (licenses (step db c))).
    + now apply licenses_evolve_step.
    + apply IH; auto using wf_step.
Qed.

Lemma rows_evolve_step db c : rows_evolve db (step db c).
Proof.
  unfold rows_evolve.
  destruct c as [tb clk e t mx | clk k e m ip | clk sel k m | k m]; cbn [step].
  - rewrite create_activations. apply grows_refl. exact row_evolves_refl.
  - destruct (CounterFacts.activate_shape db clk k e m ip)
      as [E | [(l & a & _ & _ & E) | (l & _ & _ & E)]]; rewrite E.
    + apply grows_refl. exact row_evolves_refl.
    + rewrite expiry_activations. cbn [activations with_activations].
      apply grows_map. intros r _.
      destruct (act_exact _ _ r); unfold row_evolves; cbn; auto.
    + rewrite expiry_activations.
      cbn [activations with_activations with_licenses].
      eexists _, _. split; [reflexivity|].
      apply Forall2_refl. exact row_evolves_refl.
  - destruct (CounterFacts.verify_shape db clk sel k m)
      as [E | [[lg E] | (t & lg & E)]]; rewrite E;
      cbn [activations with_log with_activations];
      try (apply grows_refl; exact row_evolves_refl).
    apply grows_map. intros r _.
    destruct (act_exact _ _ r); unfold row_evolves; cbn; auto.
  - destruct (snd (deactivate db k m)) eqn:Hr;
      try (rewrite VerifyFacts.deactivate_failed by (rewrite Hr; discriminate);
           apply grows_refl; exact row_evolves_refl).
    destruct (VerifyFacts.deactivate_ok db k m Hr) as (_ & _ & E). rewrite E.
    cbn [activations with_licenses with_activations]. apply grows_map.
    intros r _. destruct (act_ieq _ _ r); unfold row_evolves; cbn; auto.
Qed.

Lemma rows_evolve_run cs : forall db, rows_evolve db (run db cs).
Proof.
  induction cs as [|c cs IH]; intros db.
  - apply grows_refl. exact row_evolves_refl.
  - cbn [run fold_left].
    apply (grows_trans row_evolves row_evolves_trans
             (activations db) (activations (step db c))).
    + apply rows_evolve_step.
    + apply IH.
Qed.

End EvolveFacts.

(** X6.  What a license keeps for good.  In a database with upper-case,
    unique license keys, whatever requests follow, every license stays at
    its place in the table with its key, email, type, tier, billing type,
    status, creation time and activation limit, and its [activated_at] and
    [expires_at], once set, are never written again: only the counter
    moves, and no license is ever removed. *)
Theorem license_fields_are_write_once :
  forall db cs n l,
    Trace.wf_db db -> Forall Trace.call_ok cs ->
    nth_error (Store.licenses db) n = Some l ->
    exists l',
      nth_error (Store.licenses (Trace.run db cs)) n = Some l' /\
      Trace.license_evolves l l'.
Proof.
  intros db cs n l Hwf Hok Hn.
  apply (EvolveFacts.grows_nth Trace.license_evolves (Store.licenses db));
    [|exact Hn].
  now apply EvolveFacts.licenses_evolve_run.
Qed.

(** An annual license activated twice, eight minutes apart: the dates of
    the first activation stay. *)
Lemma license_fields_are_write_once_witness :
  let db := Sample.db_m1 "pro_annual" 1 in
  let cs := [Trace.Activate (Sample.tick 500000000) Sample.key_aa
                            "a@x.com" "M1" None] in
  Trace.wf_db db /\ Forall Trace.call_ok cs /\
  exists l l',
    nth_error (Store.licenses db) 0 = Some l /\
    nth_error (Store.licenses (Trace.run db cs)) 0 = Some l' /\
    Trace.license_evolves l l' /\
    Store.expires_at l' = Some (13 + Lifecycle.days365).
Proof.
  cbv zeta.
  assert (Hwf : Trace.wf_db (Sample.db_m1 "pro_annual" 1)).
  { apply WellFormed.wf_activate.
    exact (WellFormed.wf_create Store.init_db Sample.token_aa (Sample.tick 0)
             "a@x.com" "pro_annual" 1 eq_refl WellFormed.wf_init). }
  assert (Hok : Forall Trace.call_ok
                  [Trace.Activate (Sample.tick 500000000) Sample.key_aa
                                  "a@x.com" "M1" None])
    by (repeat constructor).
  split; [exact Hwf|]. split; [exact Hok|].
  destruct (license_fields_are_write_once (Sample.db_m1 "pro_annual" 1)
              [Trace.Activate (Sample.tick 500000000) Sample.key_aa
                              "a@x.com" "M1" None]
              0%nat _ Hwf Hok eq_refl) as (l' & Hn & He).
  eexists. exists l'. split; [reflexivity|]. split; [exact Hn|].
  split; [exact He|].
  vm_compute in Hn. injection Hn as <-. reflexivity.
Defined.

(** X7.  What an activation row keeps for good.  Whatever the database and
    whatever requests follow, every activation row stays at its place with
    its key, machine and activation time, and its status is as it was or
    has become "deactivated": no operation removes a row, and none turns a
    deactivated row back to active. *)
Theorem activation_rows_only_go_forward :
  forall db cs n a,
    nth_error (Store.activations db) n = Some a ->
    exists a',
      nth_error (Store.activations (Trace.run db cs)) n = Some a' /\
      Trace.row_evolves a a'.
Proof.
  intros db cs n a Hn.
  apply (EvolveFacts.grows_nth Trace.row_evolves (Store.activations db));
    [|exact Hn].
  apply EvolveFacts.rows_evolve_run.
Qed.

(** Machine M1, deactivated, activates and verifies again: its row stays
    deactivated. *)
Lemma activation_rows_only_go_forward_witness :
  let db := Sample.db_m1_off "pro_annual" 1 in
  let cs := [Trace.Activate (Sample.tick 30) Sample.key_aa "a@x.com" "M1" None;
             Trace.Verify (Sample.tick 40) 0 Sample.key_aa "M1"] in
  exists a a',
    nth_error (Store.activations db) 0 = Some a /\
    nth_error (Store.activations (Trace.run db cs)) 0 = Some a' /\
    Trace.row_evolves a a' /\
    Store.a_status a' = "deactivated".
Proof.
  cbv zeta.
  destruct (activation_rows_only_go_forward (Sample.db_m1_off "pro_annual" 1)
              [Trace.Activate (Sample.tick 30) Sample.key_aa "a@x.com" "M1" None;
               Trace.Verify (Sample.tick 40) 0 Sample.key_aa "M1"]
              0%nat _ eq_refl) as (a' & Hn & He).
  eexists. exists a'. split; [reflexivity|]. split; [exact Hn|].
  split; [exact He|].
  vm_compute in Hn. injection Hn as <-. reflexivity.
Defined.

(** ** Creating and activating *)

Module SeatFacts.
Import Str Store Lifecycle Trace StoreFacts Frame WellFormed.

Lemma find_app_miss {A} (q : A -> bool) (l : list A) (x : A) :
  q x = false -> List.find q (l ++ [x]) = List.find q l.
Proof.
  intros H. induction l as [|a l IH]; cbn [List.app List.find].
  - now rewrite H.
  - now destruct (q a).
Qed.

Lemma generated_key_nonempty tb tier :
  nonempty (KeyGen.generate_license_key tb tier) = true.
Proof. reflexivity. Qed.

(** A license that was just created, activated by its owner. *)
Lemma fresh_activate :
  forall db tb c0 email tier max db1 key c1 k e m ip,
    Trace.keys_canonical db -> Trace.activations_refer db ->
    List.length (tb 8%nat) = 8%nat ->
    Lifecycle.create_license db tb c0 email tier max =
      (db1, Lifecycle.Returns (Some key)) ->
    Store.key_ieq (Str.strip k) key = true ->
    Str.nonempty (Str.strip e) && Str.nonempty (Str.strip m) = true ->
    Str.py_lower (Str.strip e) = Str.py_lower email ->
    snd (Lifecycle.activate db1 c1 k e m ip) =
    if 0 <? max
    then Lifecycle.ActOk (Lifecycle.derive_type tier) tier
           (Lifecycle.derive_billing_type tier)
           (if (Lifecycle.derive_billing_type tier =? "one-time")%string
            then None else Some (c1 3%nat + Lifecycle.days365))
           (c1 3%nat + Lifecycle.days365)
    else Lifecycle.ActLimitReached max.
Proof.
  intros db tb c0 email tier max db1 key c1 k e m ip
         Hc Hr Hlen Hcr Hk Hne He.
  pose proof (FreshFacts.created_is_found db tb c0 email tier max
                db1 key (Str.strip k) Hc Hlen Hcr Hk) as Hfound.
  pose proof (FreshFacts.created_has_no_rows db tb c0 email tier max
                db1 key Hc Hr Hlen Hcr) as Hrows.
  assert (Hnone : List.find (Store.act_exact (Str.strip k) (Str.strip m))
                            (Store.activations db1) = None).
  { apply StoreFacts.find_none_iff. intros a Ha.
    unfold Store.act_exact.
    destruct (Store.a_license_key a =? Str.strip k)%string eqn:E;
      [|reflexivity].
    apply String.eqb_eq in E. pose proof (Hrows a Ha) as Hf.
    rewrite E, Hk in Hf. discriminate Hf. }
  assert (Hkn : Str.nonempty (Str.strip k) = true).
  { rewrite (SpellingFacts.key_ieq_nonempty _ _ Hk).
    destruct (CreateFacts.create_license_some _ _ _ _ _ _ _ _ Hcr) as (-> & _).
    apply generated_key_nonempty. }
  apply andb_true_iff in Hne as [Hen Hmn].
  unfold Lifecycle.activate.
  rewrite Hkn, Hen, Hmn, Hfound, Hnone.
  cbn [andb negb Store.status Store.email Store.current_activations
       Store.max_activations String.eqb Ascii.eqb Bool.eqb].
  rewrite He, String.eqb_refl. cbn [negb].
  rewrite Z.geb_leb. destruct (Z.ltb_spec 0 max) as [Hpos|Hnon].
  - destruct (Z.leb_spec max 0) as [Hle|_]; [lia|].
    now rewrite Frame.expiry_response.
  - destruct (Z.leb_spec max 0) as [_|Hgt]; [reflexivity | lia].
Qed.

End SeatFacts.

(** X8.  A machine that has a row under the key as the request writes it
    is answered with success whenever the license is active and the email
    matches, whatever the status of the row and however many seats are
    taken; the request inserts no row and changes no status and no
    counter.  So a deactivated machine that activates again is told that
    the license is activated while its row stays deactivated. *)
Theorem activate_with_a_row_changes_no_status :
  forall db clk key email m ip l a,
    Str.nonempty (Str.strip key) && Str.nonempty (Str.strip email)
      && Str.nonempty (Str.strip m) = true ->
    Store.find_license db (Str.strip key) = Some l ->
    Store.status l = "active" ->
    Str.py_lower (Str.strip email) = Str.py_lower (Store.email l) ->
    List.find (Store.act_exact (Str.strip key) (Str.strip m))
              (Store.activations db) = Some a ->
    (exists ex mx,
       snd (Lifecycle.activate db clk key email m ip) =
       Lifecycle.ActOk (Store.type l) (Store.tier l) (Store.billing_type l)
                       ex mx) /\
    List.map Store.a_status
             (Store.activations (fst (Lifecycle.activate db clk key email m ip)))
    = List.map Store.a_status (Store.activations db) /\
    List.map Store.current_activations
             (Store.licenses (fst (Lifecycle.activate db clk key email m ip)))
    = List.map Store.current_activations (Store.licenses db).
Proof.
  intros db clk key email m ip l a Hne Hf Hs He Ha.
  assert (Hs' : (Store.status l =? "active")%string = true)
    by (now apply String.eqb_eq).
  assert (He' : (Str.py_lower (Str.strip email)
                 =? Str.py_lower (Store.email l))%string = true)
    by (now apply String.eqb_eq).
  rewrite (TwiceFacts.activate_existing db clk key email m ip l a
             Hne Hf Hs' He' Ha).
  rewrite Frame.expiry_response, Frame.expiry_activations.
  split; [eexists; eexists; reflexivity|]. split.
  - cbn [Store.activations Store.with_activations].
    now apply StoreFacts.map_update_where.
  - now rewrite Frame.expiry_licenses_map.
Qed.

(** One seat, taken by M2 after M1 was deactivated; M1 activates again. *)
Lemma activate_with_a_row_witness :
  let db := fst (Lifecycle.activate (Sample.db_m1_off "pro_annual" 1)
                   (Sample.tick 30) Sample.key_aa "a@x.com" "M2" None) in
  List.map Store.a_status (Store.activations db) = ["deactivated"; "active"] /\
  List.map Store.current_activations (Store.licenses db) = [1] /\
  (exists ex mx,
     snd (Lifecycle.activate db (Sample.tick 60) Sample.key_aa
            "a@x.com" "M1" None) =
     Lifecycle.ActOk "pro" "pro_annual" "annual" ex mx) /\
  List.map Store.a_status
    (Store.activations
       (fst (Lifecycle.activate db (Sample.tick 60) Sample.key_aa
               "a@x.com" "M1" None))) = ["deactivated"; "active"] /\
  List.map Store.current_activations
    (Store.licenses
       (fst (Lifecycle.activate db (Sample.tick 60) Sample.key_aa
               "a@x.com" "M1" None))) = [1].
Proof.
  cbv zeta. split; [reflexivity|]. split; [reflexivity|].
  edestruct (activate_with_a_row_changes_no_status
               (fst (Lifecycle.activate (Sample.db_m1_off "pro_annual" 1)
                       (Sample.tick 30) Sample.key_aa "a@x.com" "M2" None))
               (Sample.tick 60) Sample.key_aa "a@x.com" "M1" None)
    as ((ex & mx & Hr) & Hst & Hcur); [reflexivity ..|].
  split; [exists ex, mx; exact Hr|].
  split; [etransitivity; [exact Hst | reflexivity]
         | etransitivity; [exact Hcur | reflexivity]].
Defined.

(** X9.  Creating and looking up.  In a database with upper-case keys, a
    successful [create_license] returns a key that was not stored before;
    afterwards every spelling of that key finds the new license, which is
    active, has the email, tier and limit of the call, a counter of zero
    and no dates; every other key finds what it found before; and the
    activations and the log are untouched. *)
Theorem created_license_is_found :
  forall db tb clk email tier max db' key,
    Trace.keys_canonical db -> List.length (tb 8%nat) = 8%nat ->
    Lifecycle.create_license db tb clk email tier max =
      (db', Lifecycle.Returns (Some key)) ->
    Store.find_license db key = None /\
    (forall k, Store.key_ieq k key = true ->
       exists l,
         Store.find_license db' k = Some l /\
         Store.license_key l = key /\ Store.email l = email /\
         Store.tier l = tier /\ Store.status l = "active" /\
         Store.max_activations l = max /\ Store.current_activations l = 0 /\
         Store.activated_at l = None /\ Store.expires_at l = None) /\
    (forall k, Store.key_ieq k key = false ->
       Store.find_license db' k = Store.find_license db k) /\
    Store.activations db' = Store.activations db /\
    Store.verification_log db' = Store.verification_log db.
Proof.
  intros db tb clk email tier max db' key Hc Hlen Hcr.
  pose proof (CreateFacts.create_license_some _ _ _ _ _ _ _ _ Hcr)
    as (Hkey & Hex & E).
  assert (Hup : Str.sql_upper key = key)
    by (rewrite Hkey; now apply KeyGenFacts.generate_canonical).
  split; [|split; [|split; [|split]]].
  - apply StoreFacts.find_none_iff. intros r Hr.
    apply (FreshFacts.unused_key db key Hc Hup Hex r key Hr).
    apply StoreFacts.key_ieq_refl.
  - intros k Hk. eexists. split.
    + apply (FreshFacts.created_is_found db tb clk email tier max db' key k);
        assumption.
    + repeat split.
  - intros k Hk. rewrite E. unfold Store.find_license.
    cbn [Store.licenses Store.with_licenses].
    apply SeatFacts.find_app_miss. cbn [Store.license_key].
    now rewrite StoreFacts.key_ieq_sym.
  - now rewrite E.
  - now rewrite E.
Qed.

(** The first license of an empty database, looked up in lower case. *)
Lemma created_license_is_found_witness :
  Trace.keys_canonical Store.init_db /\
  List.length (Sample.token_aa 8%nat) = 8%nat /\
  Lifecycle.create_license Store.init_db Sample.token_aa (Sample.tick 0)
    "a@x.com" "pro_annual" 3 =
  (Sample.db_one "pro_annual" 3, Lifecycle.Returns (Some Sample.key_aa)) /\
  exists l,
    Store.find_license (Sample.db_one "pro_annual" 3) Sample.key_aa_lower =
      Some l /\
    Store.license_key l = Sample.key_aa /\ Store.max_activations l = 3.
Proof.
  assert (Hc : Trace.keys_canonical Store.init_db) by (intros l []).
  split; [exact Hc|]. split; [reflexivity|]. split; [reflexivity|].
  destruct (created_license_is_found Store.init_db Sample.token_aa
              (Sample.tick 0) "a@x.com" "pro_annual" 3
              (Sample.db_one "pro_annual" 3) Sample.key_aa Hc eq_refl eq_refl)
    as (_ & Hfound & _).
  destruct (Hfound Sample.key_aa_lower eq_refl)
    as (l & Hl & Hk & _ & _ & _ & Hm & _).
  now exists l.
Defined.

(** X10.  Creating and activating.  A license that was just created, in a
    database with upper-case keys whose activation rows refer to stored
    licenses, and that its owner activates on any machine under any
    spelling of the key, the email in any case: the answer is success when
    the activation limit is at least one, and "Maximum activations
    reached" when the limit is zero or negative, in which case the license
    can never be used.  The success reports no expiry date for a one-time
    purchase and otherwise a year from the request. *)
Theorem fresh_license_activates_when_it_has_a_seat :
  forall db tb c0 email tier max db1 key c1 k e m ip,
    Trace.keys_canonical db -> Trace.activations_refer db ->
    List.length (tb 8%nat) = 8%nat ->
    Lifecycle.create_license db tb c0 email tier max =
      (db1, Lifecycle.Returns (Some key)) ->
    Store.key_ieq (Str.strip k) key = true ->
    Str.nonempty (Str.strip e) && Str.nonempty (Str.strip m) = true ->
    Str.py_lower (Str.strip e) = Str.py_lower email ->
    snd (Lifecycle.activate db1 c1 k e m ip) =
    if 0 <? max
    then Lifecycle.ActOk (Lifecycle.derive_type tier) tier
           (Lifecycle.derive_billing_type tier)
           (if (Lifecycle.derive_billing_type tier =? "one-time")%string
            then None else Some (c1 3%nat + Lifecycle.days365))
           (c1 3%nat + Lifecycle.days365)
    else Lifecycle.ActLimitReached max.
Proof.
  intros db tb c0 email tier max db1 key c1 k e m ip.
  apply SeatFacts.fresh_activate.
Qed.

(** A license without a seat, and the sample license with one. *)
Lemma fresh_license_activates_witness :
  Trace.keys_canonical Store.init_db /\ Trace.activations_refer Store.init_db /\
  List.length (Sample.token_aa 8%nat) = 8%nat /\
  Lifecycle.create_license Store.init_db Sample.token_aa (Sample.tick 0)
    "a@x.com" "pro_annual" 0 =
  (Sample.db_one "pro_annual" 0, Lifecycle.Returns (Some Sample.key_aa)) /\
  Store.key_ieq (Str.strip Sample.key_aa_lower) Sample.key_aa = true /\
  Str.nonempty (Str.strip "A@X.com") && Str.nonempty (Str.strip "M1") = true /\
  Str.py_lower (Str.strip "A@X.com") = Str.py_lower "a@x.com" /\
  snd (Lifecycle.activate (Sample.db_one "pro_annual" 0) (Sample.tick 10)
         Sample.key_aa_lower "A@X.com" "M1" None) =
  Lifecycle.ActLimitReached 0.
Proof.
  assert (Hc : Trace.keys_canonical Store.init_db) by (intros l []).
  assert (Hr : Trace.activations_refer Store.init_db) by (intros a []).
  split; [exact Hc|]. split; [exact Hr|].
  split; [reflexivity|]. split; [reflexivity|]. split; [reflexivity|].
  split; [reflexivity|]. split; [reflexivity|].
  exact (fresh_license_activates_when_it_has_a_seat Store.init_db
           Sample.token_aa (Sample.tick 0) "a@x.com" "pro_annual" 0
           (Sample.db_one "pro_annual" 0) Sample.key_aa (Sample.tick 10)
           Sample.key_aa_lower "A@X.com" "M1" None
           Hc Hr eq_refl eq_refl eq_refl eq_refl eq_refl).
Defined.

(** X11.  Deactivating frees a seat.  In a database whose keys have always
    been spelled as stored (counters agree with the rows), a successful
    [deactivate] under the stored key lowers the counter of that license by
    exactly one, as it lowers its number of active rows, and the counter
    stays at zero or above.  If the license was within its limit, a machine
    without a row can then activate it. *)
Theorem deactivate_frees_a_seat :
  forall db key m l,
    Trace.tidy db ->
    Str.sql_upper (Str.strip key) = Str.strip key ->
    Store.find_license db (Str.strip key) = Some l ->
    snd (Lifecycle.deactivate db key m) = Lifecycle.DeOk ->
    (exists l1,
       Store.find_license (fst (Lifecycle.deactivate db key m)) (Str.strip key)
         = Some l1 /\
       Store.current_activations l1 = Store.current_activations l - 1 /\
       0 <= Store.current_activations l1 /\
       Store.active_count (fst (Lifecycle.deactivate db key m))
                          (Store.license_key l) =
       Store.active_count db (Store.license_key l) - 1) /\
    (forall clk e m2 ip,
       Store.current_activations l <= Store.max_activations l ->
       Store.status l = "active" ->
       Str.nonempty (Str.strip e) && Str.nonempty (Str.strip m2) = true ->
       Str.py_lower (Str.strip e) = Str.py_lower (Store.email l) ->
       List.find (Store.act_exact (Str.strip key) (Str.strip m2))
                 (Store.activations db) = None ->
       exists ex mx,
         snd (Lifecycle.activate (fst (Lifecycle.deactivate db key m))
                clk key e m2 ip) =
         Lifecycle.ActOk (Store.type l) (Store.tier l) (Store.billing_type l)
                         ex mx).
Proof.
  intros db key m l Ht Hk Hf Hok.
  pose proof (CounterFacts.tidy_deactivate db key m Hk Ht) as Ht1.
  destruct (WellFormed.find_license_some _ _ _ Hf) as [Hl Hieq].
  assert (Hkey : Store.license_key l = Str.strip key).
  { rewrite CounterFacts.key_ieq_canonical in Hieq
      by (auto; apply (Trace.tidy_wf _ Ht); exact Hl).
    now apply String.eqb_eq. }
  destruct (VerifyFacts.deactivate_ok db key m Hok) as (Hne & _ & E).
  set (g := fun r => if Store.lic_exact (Str.strip key) r
                     then Store.uncount_activation r else r).
  assert (Hf1 : Store.find_license (fst (Lifecycle.deactivate db key m))
                                   (Str.strip key) =
                Some (Store.uncount_activation l)).
  { rewrite (TwiceFacts.find_license_map db _ g (Str.strip key)).
    - rewrite Hf. cbn [option_map]. unfold g, Store.lic_exact.
      now rewrite Hkey, String.eqb_refl.
    - now rewrite E.
    - intros r. unfold g. now destruct (Store.lic_exact (Str.strip key) r). }
  destruct (WellFormed.find_license_some _ _ _ Hf1) as [Hl1 _].
  pose proof (Trace.tidy_count _ Ht1 _ Hl1) as Hc1.
  pose proof (Trace.tidy_count _ Ht _ Hl) as Hc0.
  cbn [Store.uncount_activation Store.current_activations Store.license_key]
    in Hc1.
  split.
  - exists (Store.uncount_activation l).
    split; [exact Hf1|]. split; [reflexivity|].
    cbn [Store.uncount_activation Store.current_activations]. split.
    + rewrite Hc1. unfold Store.active_count. lia.
    + lia.
  - intros clk e m2 ip Hlim Hs Hne2 He Hnone.
    apply andb_true_iff in Hne as [Hkn _].
    apply andb_true_iff in Hne2 as [Hen Hmn].
    unfold Lifecycle.activate. rewrite Hkn, Hen, Hmn, Hf1.
    cbn [andb negb Store.uncount_activation Store.status Store.email
         Store.current_activations Store.max_activations].
    rewrite Hs, He, !String.eqb_refl. cbn [negb].
    assert (Hnone1 :
      List.find (Store.act_exact (Str.strip key) (Str.strip m2))
        (Store.activations (fst (Lifecycle.deactivate db key m))) = None).
    { rewrite E. cbn [Store.activations Store.with_licenses
                      Store.with_activations].
      rewrite StoreFacts.find_update_where by reflexivity.
      now rewrite Hnone. }
    rewrite Hnone1.
    destruct (Z.geb_spec (Store.current_activations l - 1)
                         (Store.max_activations l)) as [Hge|_]; [lia|].
    rewrite Frame.expiry_response.
    eexists. eexists. reflexivity.
Qed.

(** One seat: M1 gives it up and M2 takes it. *)
Lemma deactivate_frees_a_seat_witness :
  let db := Sample.db_m1 "pro_annual" 1 in
  Trace.tidy db /\
  Str.sql_upper (Str.strip Sample.key_aa) = Str.strip Sample.key_aa /\
  snd (Lifecycle.deactivate db Sample.key_aa "M1") = Lifecycle.DeOk /\
  List.map Store.current_activations (Store.licenses db) = [1] /\
  (exists l1,
     Store.find_license (fst (Lifecycle.deactivate db Sample.key_aa "M1"))
       (Str.strip Sample.key_aa) = Some l1 /\
     Store.current_activations l1 = 0) /\
  exists ex mx,
    snd (Lifecycle.activate (fst (Lifecycle.deactivate db Sample.key_aa "M1"))
           (Sample.tick 30) Sample.key_aa "a@x.com" "M2" None) =
    Lifecycle.ActOk "pro" "pro_annual" "annual" ex mx.
Proof.
  cbv zeta.
  assert (Ht : Trace.tidy (Sample.db_m1 "pro_annual" 1)).
  { apply CounterFacts.tidy_activate; [reflexivity|].
    exact (CounterFacts.tidy_create Store.init_db Sample.token_aa
             (Sample.tick 0) "a@x.com" "pro_annual" 1 eq_refl
             CounterFacts.tidy_init). }
  split; [exact Ht|]. split; [reflexivity|]. split; [reflexivity|].
  split; [reflexivity|].
  edestruct (deactivate_frees_a_seat (Sample.db_m1 "pro_annual" 1)
               Sample.key_aa "M1") as ((l1 & Hf1 & Hc1 & _) & Hnext);
    [exact Ht | reflexivity | reflexivity | reflexivity |].
  split.
  - exists l1. split; [exact Hf1|]. etransitivity; [exact Hc1 | reflexivity].
  - destruct (Hnext (Sample.tick 30) "a@x.com" "M2" None) as (ex & mx & Hr);
      try reflexivity.
    exists ex, mx. exact Hr.
Defined.

(** ** Creating through the admin endpoint *)

Module AdminFacts.
Import Str Store Lifecycle Trace Admin.

(** What stands behind the answer "created". *)
Lemma admin_create_created db env tb clk data db1 key email tier :
  admin_create db env tb clk data = (db1, AdmCreated key email tier) ->
  r_admin_secret data = Some (configured_secret env) /\
  email = strip (get_or "" (r_email data)) /\
  nonempty email = true /\
  tier = get_or "pro_lifetime" (r_tier data) /\
  create_license db tb clk email tier (get_or 1 (r_max_activations data))
    = (db1, Returns (Some key)).
Proof.
  unfold admin_create.
  destruct (r_admin_secret data) as [s|]; [|discriminate].
  destruct (String.eqb_spec s (configured_secret env)) as [->|_];
    [|discriminate].
  cbn [negb].
  destruct (nonempty (strip (get_or "" (r_email data)))) eqn:Hne;
    [|discriminate].
  cbn [negb].
  destruct (create_license db tb clk _ _ _) as [db' [[k|]|exn]] eqn:Hcr;
    [|discriminate|discriminate].
  destruct (nonempty k); [|discriminate].
  intros H. injection H as <- <- <- <-.
  repeat split; assumption.
Qed.

End AdminFacts.

(** X12.  The answers of [/admin/create].  The request is refused as
    unauthorized exactly when its secret is missing or differs from the
    configured one; an authorized request is told that the email is required
    exactly when the email is missing or blank.  An authorized request with
    an email and a limit outside the signed 64-bit range ends in the
    [OverflowError] of the INSERT, which nobody catches; with a limit that
    fits, it fails exactly when the generated key is already stored, and is
    otherwise answered with the generated key, the email without its
    padding and the tier, [pro_lifetime] if none was given.  Only the last
    answer writes: it stores what [create_license] stores for these values
    and the limit of the request, 1 if none was given. *)
Theorem admin_create_answers :
  forall db env tb clk data,
    let email := Str.strip (Admin.get_or "" (Admin.r_email data)) in
    let tier := Admin.get_or "pro_lifetime" (Admin.r_tier data) in
    let max := Admin.get_or 1 (Admin.r_max_activations data) in
    let key := KeyGen.generate_license_key tb tier in
    let authorized :=
      Admin.r_admin_secret data = Some (Admin.configured_secret env) in
    let fits := Store.fits_int64 max in
    let stored := List.existsb (Store.lic_exact key) (Store.licenses db) in
    let R := Admin.admin_create db env tb clk data in
    (snd R = Admin.AdmUnauthorized <-> ~ authorized) /\
    (snd R = Admin.AdmEmailRequired <-> authorized /\ email = "") /\
    (snd R = Admin.AdmUncaught "OverflowError" <->
       authorized /\ email <> "" /\ fits = false) /\
    (snd R = Admin.AdmFailed <->
       authorized /\ email <> "" /\ fits = true /\ stored = true) /\
    (snd R = Admin.AdmCreated key email tier <->
       authorized /\ email <> "" /\ fits = true /\ stored = false) /\
    (forall k e t, snd R = Admin.AdmCreated k e t ->
       k = key /\ e = email /\ t = tier /\
       fst R = fst (Lifecycle.create_license db tb clk email tier max)) /\
    (forall exn, snd R = Admin.AdmUncaught exn -> exn = "OverflowError") /\
    (stored = true \/ fits = false \/ email = "" \/ ~ authorized ->
     fst R = db).
Proof.
  intros db env tb clk data email tier max key authorized fits stored R.
  assert (Hk : Str.nonempty key = true) by reflexivity.
  subst R authorized. unfold Admin.admin_create, Lifecycle.create_license.
  fold email tier max. fold key. fold fits. fold stored.
  destruct (Admin.r_admin_secret data) as [s|];
    [destruct (String.eqb_spec s (Admin.configured_secret env)) as [->|Hs]|];
    cbn [negb snd fst];
    [destruct email as [|c e]; cbn [Str.nonempty negb snd fst];
     [|destruct fits; cbn [negb snd fst];
       [destruct stored; cbn [snd fst]; rewrite ?Hk; cbn [snd fst]|]]| |];
    repeat split; intros;
    repeat match goal with
           | H : _ /\ _ |- _ => destruct H
           | H : _ \/ _ |- _ => destruct H
           | H : Admin.AdmCreated _ _ _ = Admin.AdmCreated _ _ _ |- _ =>
               injection H as ? ? ?
           | H : Admin.AdmUncaught _ = Admin.AdmUncaught _ |- _ =>
               injection H as ?
           end;
    try discriminate; try congruence; try tauto.
Qed.

(** X13.  Creating through the admin endpoint and activating.  A license
    that [/admin/create] has just created, in a database with upper-case
    keys whose activation rows refer to stored licenses, activates for the
    email as the admin request wrote it, padding included and in any case,
    under any spelling of the key: the answer is success when the limit of
    the request (1 if none was given) is at least one, and "Maximum
    activations reached" otherwise.  [create_license] alone stores the
    email as it is given; the admin endpoint strips it first, and
    [activate] compares with the stripped email of its request. *)
Theorem admin_created_license_activates :
  forall db env tb c0 data db1 key email tier c1 k e m ip,
    Trace.keys_canonical db -> Trace.activations_refer db ->
    List.length (tb 8%nat) = 8%nat ->
    Admin.admin_create db env tb c0 data =
      (db1, Admin.AdmCreated key email tier) ->
    Store.key_ieq (Str.strip k) key = true ->
    Str.py_lower (Str.strip e) =
      Str.py_lower (Str.strip (Admin.get_or "" (Admin.r_email data))) ->
    Str.nonempty (Str.strip m) = true ->
    snd (Lifecycle.activate db1 c1 k e m ip) =
    if 0 <? Admin.get_or 1 (Admin.r_max_activations data)
    then Lifecycle.ActOk (Lifecycle.derive_type tier) tier
           (Lifecycle.derive_billing_type tier)
           (if (Lifecycle.derive_billing_type tier =? "one-time")%string
            then None else Some (c1 3%nat + Lifecycle.days365))
           (c1 3%nat + Lifecycle.days365)
    else Lifecycle.ActLimitReached
           (Admin.get_or 1 (Admin.r_max_activations data)).
Proof.
  intros db env tb c0 data db1 key email tier c1 k e m ip
         Hc Hr Hlen Hadm Hk He Hm.
  destruct (AdminFacts.admin_create_created _ _ _ _ _ _ _ _ _ Hadm)
    as (_ & Hemail & Hne & _ & Hcr).
  apply (SeatFacts.fresh_activate db tb c0 email tier _ db1 key c1 k e m ip
           Hc Hr Hlen Hcr Hk).
  - rewrite Hm, andb_true_r.
    rewrite (SpellingFacts.py_lower_nonempty _ _ He). now rewrite <- Hemail.
  - now rewrite Hemail.
Qed.

(** The first license, created for a padded email with the default limit
    and tier, and activated with the email in capitals. *)
Lemma admin_created_license_activates_witness :
  let data := Admin.mkCreateRequest (Some "change-me") (Some "  a@x.com ")
                                    None None in
  Trace.keys_canonical Store.init_db /\ Trace.activations_refer Store.init_db /\
  List.length (Sample.token_aa 8%nat) = 8%nat /\
  Admin.admin_create Store.init_db None Sample.token_aa (Sample.tick 0) data =
    (Sample.db_one "pro_lifetime" 1,
     Admin.AdmCreated Sample.key_aa "a@x.com" "pro_lifetime") /\
  snd (Lifecycle.activate (Sample.db_one "pro_lifetime" 1) (Sample.tick 10)
         Sample.key_aa_lower " A@X.COM" "M1" None) =
  Lifecycle.ActOk "pro" "pro_lifetime" "one-time" None
    (13 + Lifecycle.days365).
Proof.
  cbv zeta.
  assert (Hc : Trace.keys_canonical Store.init_db) by (intros l []).
  assert (Hr : Trace.activations_refer Store.init_db) by (intros a []).
  split; [exact Hc|]. split; [exact Hr|].
  split; [reflexivity|]. split; [reflexivity|].
  exact (admin_created_license_activates Store.init_db None Sample.token_aa
           (Sample.tick 0)
           (Admin.mkCreateRequest (Some "change-me") (Some "  a@x.com ")
                                  None None)
           (Sample.db_one "pro_lifetime" 1) Sample.key_aa "a@x.com"
           "pro_lifetime" (Sample.tick 10) Sample.key_aa_lower " A@X.COM"
           "M1" None Hc Hr eq_refl eq_refl eq_refl eq_refl eq_refl).
Defined.

(** ** The statistics *)

Module StatsFacts.
Import Str Store Lifecycle Trace Admin StoreFacts.

Lemma compare_refl a : String.compare a a = Eq.
Proof. now apply OrderedTypeEx.String_as_OT.cmp_eq. Qed.

Lemma compare_lt_trans a b c :
  String.compare a b = Lt -> String.compare b c = Lt ->
  String.compare a c = Lt.
Proof.
  intros H1 H2.
  apply OrderedTypeEx.String_as_OT.cmp_lt.
  apply OrderedTypeEx.String_as_OT.cmp_lt in H1.
  apply OrderedTypeEx.String_as_OT.cmp_lt in H2.
  eapply OrderedTypeEx.String_as_OT.lt_trans; eassumption.
Qed.

Lemma group_compare_eq k k' : group_compare k k' = Eq <-> k = k'.
Proof.
  destruct k as [t b], k' as [t' b']. unfold group_compare. cbn [fst snd].
  split.
  - destruct (String.compare t t') eqn:E; try discriminate.
    intros H. apply String.compare_eq_iff in E.
    apply String.compare_eq_iff in H. now subst.
  - intros H. injection H as <- <-. now rewrite !compare_refl.
Qed.

Lemma group_compare_lt_trans k1 k2 k3 :
  group_compare k1 k2 = Lt -> group_compare k2 k3 = Lt ->
  group_compare k1 k3 = Lt.
Proof.
  destruct k1 as [t1 b1], k2 as [t2 b2], k3 as [t3 b3].
  unfold group_compare. cbn [fst snd].
  destruct (String.compare t1 t2) eqn:E12; try discriminate;
    destruct (String.compare t2 t3) eqn:E23; try discriminate;
    intros H1 H2.
  - apply String.compare_eq_iff in E12.
    apply String.compare_eq_iff in E23. subst.
    rewrite compare_refl. eapply compare_lt_trans; eassumption.
  - apply String.compare_eq_iff in E12. subst. now rewrite E23.
  - apply String.compare_eq_iff in E23. subst. now rewrite E12.
  - now rewrite (compare_lt_trans _ _ _ E12 E23).
Qed.

Lemma group_compare_gt k k' :
  group_compare k k' = Gt -> group_compare k' k = Lt.
Proof.
  destruct k as [t b], k' as [t' b']. unfold group_compare. cbn [fst snd].
  rewrite (String.compare_antisym t' t), (String.compare_antisym b' b).
  destruct (String.compare t t'); cbn [CompOpp]; try discriminate; auto.
  destruct (String.compare b b'); cbn [CompOpp]; try discriminate; auto.
Qed.

Lemma group_add_Forall (P : string * string * nat -> Prop) k gs :
  (forall n, P (k, n)) -> Forall P gs -> Forall P (group_add k gs).
Proof.
  intros Hk. induction gs as [|[k' n] gs IH]; intros HF; cbn [group_add].
  - constructor; auto.
  - inversion HF as [|? ? Hh Ht]; subst.
    destruct (group_compare k k') eqn:E.
    + apply group_compare_eq in E. subst. constructor; auto.
    + constructor; auto.
    + constructor; auto.
Qed.

Lemma group_add_sorted k gs :
  StronglySorted group_before gs ->
  StronglySorted group_before (group_add k gs).
Proof.
  induction gs as [|[k' n] gs IH]; intros HS; cbn [group_add].
  - constructor; constructor.
  - inversion HS as [|? ? Hs Hf]; subst.
    destruct (group_compare k k') eqn:E.
    + constructor; [exact Hs | exact Hf].
    + constructor; [exact HS|]. constructor; [exact E|].
      eapply Forall_impl; [|exact Hf]. intros g Hg.
      unfold group_before in *. cbn [fst] in *.
      eapply group_compare_lt_trans; eassumption.
    + constructor; [apply IH; exact Hs|].
      apply group_add_Forall; [|exact Hf].
      intros m. unfold group_before. cbn [fst].
      now apply group_compare_gt.
Qed.

Lemma by_tier_sorted db : StronglySorted group_before (by_tier db).
Proof.
  unfold by_tier.
  induction (licenses db) as [|l ls IH]; cbn [fold_right]; [constructor|].
  destruct (status l =? "active")%string;
    [now apply group_add_sorted | exact IH].
Qed.

Lemma sorted_nodup gs :
  StronglySorted group_before gs -> NoDup (List.map fst gs).
Proof.
  induction 1 as [|g gs HS IH HF]; cbn [List.map]; constructor; auto.
  intros Hin. apply in_map_iff in Hin as (g' & Hfst & Hin').
  rewrite Forall_forall in HF. specialize (HF g' Hin').
  unfold group_before in HF. rewrite Hfst in HF.
  assert (E : group_compare (fst g) (fst g) = Eq)
    by now apply group_compare_eq.
  congruence.
Qed.

Lemma group_count_cons k g gs :
  group_count k (g :: gs) =
  ((if (fst (fst g) =? fst k)%string && (snd (fst g) =? snd k)%string
    then snd g else 0) + group_count k gs)%nat.
Proof.
  unfold group_count. cbn [List.filter].
  destruct ((fst (fst g) =? fst k)%string && (snd (fst g) =? snd k)%string);
    reflexivity.
Qed.

Lemma group_count_add k k0 gs :
  group_count k (group_add k0 gs) =
  (group_count k gs +
   (if (fst k0 =? fst k)%string && (snd k0 =? snd k)%string
    then 1 else 0))%nat.
Proof.
  induction gs as [|[k' n] gs IH]; cbn [group_add].
  - rewrite group_count_cons. cbn [fst snd]. unfold group_count, list_sum.
    cbn [List.filter List.map fold_right]. lia.
  - destruct (group_compare k0 k') eqn:E.
    + apply group_compare_eq in E. subst k'.
      rewrite !group_count_cons. cbn [fst snd].
      destruct ((fst k0 =? fst k)%string && (snd k0 =? snd k)%string); lia.
    + rewrite (group_count_cons k (k0, 1%nat)). cbn [fst snd]. lia.
    + rewrite !group_count_cons, IH. lia.
Qed.

Lemma group_add_positive k gs :
  Forall (fun g => (0 < snd g)%nat) gs ->
  Forall (fun g => (0 < snd g)%nat) (group_add k gs).
Proof.
  induction gs as [|[k' n] gs IH]; intros HF; cbn [group_add].
  - constructor; [cbn; lia | constructor].
  - inversion HF as [|? ? Hh Ht]; subst.
    destruct (group_compare k k').
    + constructor; [cbn; lia | exact Ht].
    + constructor; [cbn; lia | exact HF].
    + constructor; [exact Hh | now apply IH].
Qed.

Lemma group_add_total k gs :
  list_sum (List.map snd (group_add k gs)) = S (list_sum (List.map snd gs)).
Proof.
  unfold list_sum.
  induction gs as [|[k' n] gs IH]; cbn [group_add]; [reflexivity|].
  destruct (group_compare k k'); cbn [List.map fold_right snd];
    [lia | lia |].
  cbn [List.map fold_right snd] in IH. rewrite IH. lia.
Qed.

Lemma group_count_present k gs :
  (0 < group_count k gs)%nat -> exists n, In (k, n) gs.
Proof.
  induction gs as [|[k' n] gs IH]; [unfold group_count; cbn; lia|].
  rewrite group_count_cons. cbn [fst snd].
  destruct ((fst k' =? fst k)%string && (snd k' =? snd k)%string) eqn:E.
  - intros _. apply andb_true_iff in E as [E1 E2].
    apply String.eqb_eq in E1. apply String.eqb_eq in E2.
    exists n. left. destruct k, k'. cbn [fst snd] in *. now subst.
  - intros H. destruct (IH H) as [m Hm]. exists m. now right.
Qed.

Lemma group_count_in k n gs :
  NoDup (List.map fst gs) -> In (k, n) gs -> group_count k gs = n.
Proof.
  induction gs as [|g gs IH]; intros Hnd Hin; [destruct Hin|].
  cbn [List.map] in Hnd. inversion Hnd as [|? ? Hnot Hnd']; subst.
  rewrite group_count_cons. destruct Hin as [->|Hin].
  - cbn [fst snd]. rewrite !String.eqb_refl. cbn [andb].
    destruct (group_count k gs) as [|c] eqn:Ec; [lia|].
    exfalso. apply Hnot. cbn [fst].
    destruct (group_count_present k gs) as [m Hm]; [lia|].
    apply in_map_iff. exists (k, m). now split.
  - rewrite (IH Hnd' Hin).
    destruct ((fst (fst g) =? fst k)%string && (snd (fst g) =? snd k)%string)
      eqn:E; [|lia].
    exfalso. apply andb_true_iff in E as [E1 E2].
    apply String.eqb_eq in E1. apply String.eqb_eq in E2.
    apply Hnot. apply in_map_iff. exists (k, n). split; [|exact Hin].
    destruct k, g as [[t b] c]. cbn [fst snd] in *. now subst.
Qed.

Lemma by_tier_count db t b :
  group_count (t, b) (by_tier db) =
  List.length (List.filter (in_group t b) (licenses db)).
Proof.
  unfold by_tier.
  induction (licenses db) as [|l ls IH]; cbn [fold_right List.filter];
    [reflexivity|].
  unfold in_group at 1.
  destruct (status l =? "active")%string; cbn [andb].
  - rewrite group_count_add, IH. cbn [fst snd].
    destruct ((tier l =? t)%string && (billing_type l =? b)%string);
      cbn [List.length]; lia.
  - exact IH.
Qed.

Lemma by_tier_positive db : Forall (fun g => (0 < snd g)%nat) (by_tier db).
Proof.
  unfold by_tier.
  induction (licenses db) as [|l ls IH]; cbn [fold_right]; [constructor|].
  destruct (status l =? "active")%string;
    [now apply group_add_positive | exact IH].
Qed.

Lemma by_tier_total db :
  list_sum (List.map snd (by_tier db)) =
  List.length
    (List.filter (fun l => (status l =? "active")%string) (licenses db)).
Proof.
  unfold by_tier.
  induction (licenses db) as [|l ls IH]; cbn [fold_right List.filter];
    [reflexivity|].
  destruct (status l =? "active")%string; [|exact IH].
  rewrite group_add_total, IH. reflexivity.
Qed.

(** Counting pairs of a license and an active row of it, by license and
    by row. *)
Lemma sum_of_nat {A} (f : A -> nat) (ls : list A) :
  fold_right Z.add 0 (List.map (fun l => Z.of_nat (f l)) ls) =
  Z.of_nat (list_sum (List.map f ls)).
Proof.
  unfold list_sum.
  induction ls as [|l ls IH]; cbn [List.map fold_right]; [reflexivity|].
  rewrite IH. lia.
Qed.

Lemma sum_indicator {A} (p : A -> bool) (ls : list A) :
  list_sum (List.map (fun l => if p l then 1%nat else 0%nat) ls) =
  List.length (List.filter p ls).
Proof.
  unfold list_sum.
  induction ls as [|l ls IH]; cbn [List.map fold_right List.filter];
    [reflexivity|].
  rewrite IH. destruct (p l); reflexivity.
Qed.

Lemma one_license_per_row ak (ls : list License) :
  NoDup (List.map license_key ls) ->
  (forall l, In l ls -> sql_upper (license_key l) = license_key l) ->
  (exists l, In l ls /\ key_ieq ak (license_key l) = true) ->
  List.length (List.filter (fun l => key_ieq ak (license_key l)) ls) = 1%nat.
Proof.
  induction ls as [|l ls IH]; intros Hnd Hc (l0 & Hin & Hl0);
    [destruct Hin|].
  cbn [List.map] in Hnd. inversion Hnd as [|? ? Hnot Hnd']; subst.
  cbn [List.filter].
  destruct (key_ieq ak (license_key l)) eqn:E.
  - cbn [List.length]. f_equal.
    destruct (List.filter (fun l => key_ieq ak (license_key l)) ls)
      as [|l1 rest] eqn:Ef; [reflexivity|].
    exfalso.
    assert (Hl1 : In l1 (List.filter
                           (fun l => key_ieq ak (license_key l)) ls))
      by (rewrite Ef; now left).
    apply filter_In in Hl1 as [Hin1 Hk1].
    apply Hnot.
    assert (Hsame : license_key l1 = license_key l).
    { apply key_ieq_eq in E. apply key_ieq_eq in Hk1.
      rewrite <- (Hc l1 (or_intror Hin1)), <- (Hc l (or_introl eq_refl)).
      congruence. }
    rewrite <- Hsame. now apply List.in_map.
  - apply IH; [exact Hnd' | intros l' Hl'; apply Hc; now right |].
    destruct Hin as [->|Hin]; [congruence|].
    exists l0. now split.
Qed.

Lemma sum_zero {A} (xs : list A) :
  list_sum (List.map (fun _ => 0%nat) xs) = 0%nat.
Proof. induction xs; [reflexivity | assumption]. Qed.

Lemma sum_plus {A} (f g : A -> nat) (xs : list A) :
  list_sum (List.map (fun x => (f x + g x)%nat) xs) =
  (list_sum (List.map f xs) + list_sum (List.map g xs))%nat.
Proof.
  unfold list_sum.
  induction xs as [|x xs IH]; cbn [List.map fold_right]; [reflexivity|].
  rewrite IH. lia.
Qed.

Lemma pairs_by_row (ls : list License) (acts : list Activation) :
  (forall a, In a acts ->
     List.length
       (List.filter (fun l => key_ieq (a_license_key a) (license_key l)) ls)
     = 1%nat) ->
  list_sum
    (List.map
       (fun l => List.length (List.filter (counted (license_key l)) acts)) ls)
  = List.length
      (List.filter (fun a => (a_status a =? "active")%string) acts).
Proof.
  induction acts as [|a acts IH]; intros Hone.
  - cbn [List.filter List.length]. apply sum_zero.
  - rewrite (map_ext _
               (fun l => ((if counted (license_key l) a then 1 else 0) +
                          List.length
                            (List.filter (counted (license_key l)) acts))%nat))
      by (intros l; cbn [List.filter];
          destruct (counted (license_key l) a); reflexivity).
    rewrite sum_plus, IH by (intros a' Ha'; apply Hone; now right).
    cbn [List.filter]. unfold counted.
    destruct (a_status a =? "active")%string eqn:Es.
    + rewrite (map_ext _ (fun l => if key_ieq (a_license_key a) (license_key l)
                                   then 1%nat else 0%nat))
        by (intros l; now rewrite andb_true_r).
      rewrite sum_indicator, (Hone a (or_introl eq_refl)).
      reflexivity.
    + rewrite (map_ext _ (fun _ => 0%nat))
        by (intros l; now rewrite andb_false_r).
      now rewrite sum_zero.
Qed.

End StatsFacts.

(** X14.  The license counts of [/admin/stats].  The answer has one row
    for each pair of tier and billing type that some active license has
    and no other row; the count of a row is the number of active licenses
    with that tier and billing type, so it is never zero; and the counts
    add up to the number of active licenses. *)
Theorem stats_count_the_active_licenses :
  forall db,
    NoDup (List.map fst (Admin.by_tier db)) /\
    (forall t b n,
       In (t, b, n) (Admin.by_tier db) <->
       (0 < n)%nat /\
       n = List.length
             (List.filter (Admin.in_group t b) (Store.licenses db))) /\
    list_sum (List.map snd (Admin.by_tier db)) =
    List.length
      (List.filter (fun l => (Store.status l =? "active")%string)
                   (Store.licenses db)).
Proof.
  intros db.
  pose proof (StatsFacts.sorted_nodup _ (StatsFacts.by_tier_sorted db))
    as Hnd.
  split; [exact Hnd|]. split; [|apply StatsFacts.by_tier_total].
  intros t b n. split.
  - intros Hin. split.
    + pose proof (StatsFacts.by_tier_positive db) as Hp.
      rewrite Forall_forall in Hp. exact (Hp _ Hin).
    + rewrite <- StatsFacts.by_tier_count.
      symmetry. now apply StatsFacts.group_count_in.
  - intros [Hpos ->].
    rewrite <- StatsFacts.by_tier_count in Hpos |- *.
    destruct (StatsFacts.group_count_present _ _ Hpos) as [m Hm].
    now rewrite (StatsFacts.group_count_in _ _ _ Hnd Hm).
Qed.

(** X15.  The activation count of [/admin/stats] against the counters.
    In a database with upper-case, distinct license keys whose activation
    rows refer to stored licenses, and in which each counter is the number
    of active rows of its license, the number of active rows that
    [/admin/stats] reports is the sum of the counters of all licenses. *)
Theorem stats_total_is_the_sum_of_the_counters :
  forall db,
    Trace.wf_db db -> Trace.counter_matches db ->
    Admin.total_activations db =
    fold_right Z.add 0
      (List.map Store.current_activations (Store.licenses db)).
Proof.
  intros db [Hc Hu Hr] Hm.
  rewrite (map_ext_in Store.current_activations
             (fun l => Z.of_nat
                (List.length
                   (List.filter (Store.counted (Store.license_key l))
                                (Store.activations db)))))
    by (intros l Hl; exact (Hm l Hl)).
  rewrite StatsFacts.sum_of_nat.
  unfold Admin.total_activations. f_equal. symmetry.
  apply StatsFacts.pairs_by_row.
  intros a Ha. apply StatsFacts.one_license_per_row.
  - exact Hu.
  - exact Hc.
  - exact (Hr a Ha).
Qed.

(** Two licenses, the first activated on two machines of which one was
    deactivated again, the second activated on one. *)
Lemma stats_total_witness :
  let db :=
    Trace.run Store.init_db
      [Trace.Create Sample.token_aa (Sample.tick 0) "a@x.com" "pro_annual" 2;
       Trace.Create (fun n => List.repeat Byte.xbb n) (Sample.tick 1)
                    "b@x.com" "pro_lifetime" 1;
       Trace.Activate (Sample.tick 10) Sample.key_aa "a@x.com" "M1" None;
       Trace.Activate (Sample.tick 20) Sample.key_aa "a@x.com" "M2" None;
       Trace.Activate (Sample.tick 30) "UPAGER-BBBB-BBBB-BBBB-BBBB"
                      "b@x.com" "M1" None;
       Trace.Deactivate Sample.key_aa "M1"] in
  List.map Store.current_activations (Store.licenses db) = [1; 1] /\
  Admin.total_activations db = 2.
Proof.
  cbv zeta. split; [reflexivity|].
  etransitivity; [apply stats_total_is_the_sum_of_the_counters|reflexivity].
  - apply WellFormed.wf_run; [|apply WellFormed.wf_init].
    repeat constructor.
  - apply CounterFacts.tidy_run;
      [repeat constructor | repeat constructor | apply CounterFacts.tidy_init].
Defined.

(** ** Reachable databases *)

Module ReachFacts.
Import Str Store Lifecycle Trace StoreFacts Frame WellFormed.

Lemma deactivate_within_limit db key m :
  within_limit db -> within_limit (fst (deactivate db key m)).
Proof.
  intros Hw. unfold deactivate. branches; try exact Hw.
  apply LimitFacts.within_limit_forall.
  cbn [fst licenses with_licenses with_activations].
  apply Forall_update_where; [now apply LimitFacts.within_limit_forall|].
  intros r _ Hle _.
  cbn [uncount_activation current_activations max_activations]. lia.
Qed.

Lemma create_within_limit db tb clk email tier max :
  0 <= max -> within_limit db ->
  within_limit (fst (create_license db tb clk email tier max)).
Proof.
  intros Hmax Hw. unfold create_license.
  destruct (fits_int64 _); cbn [negb]; [|exact Hw].
  destruct (existsb _ _); [exact Hw|].
  cbn [fst licenses with_licenses]. intros l Hl.
  apply in_app_or in Hl as [Hl|[<-|[]]]; [now apply Hw|].
  exact Hmax.
Qed.

Lemma within_limit_step db c :
  call_nonnegative c -> wf_db db -> within_limit db ->
  within_limit (step db c).
Proof.
  destruct c as [tb clk e t mx | clk k e m ip | clk sel k m | k m];
    cbn [call_nonnegative step]; intros Hn [Hc Hu _] Hw.
  - now apply create_within_limit.
  - now apply LimitFacts.activate_within_limit.
  - unfold within_limit. now rewrite verify_licenses.
  - now apply deactivate_within_limit.
Qed.

Lemma within_limit_run cs :
  forall db, Forall call_ok cs -> Forall call_nonnegative cs ->
             wf_db db -> within_limit db -> within_limit (run db cs).
Proof.
  induction cs as [|c cs IH]; intros db Hok Hn Hwf Hw; [exact Hw|].
  inversion Hok; inversion Hn; subst. cbn [run fold_left].
  apply IH; auto using wf_step, within_limit_step.
Qed.

End ReachFacts.

(** X16.  Machines in use against the limit.  In every database that the
    four operations build from the empty one, with licenses created with
    limits that are not negative and with every [activate] and
    [deactivate] spelling the key in upper case, as it is stored, the
    number of machines on which a license is active is never above the
    limit of the license. *)
Theorem active_machines_stay_within_the_limit :
  forall cs,
    Forall Trace.call_ok cs -> Forall Trace.call_canonical cs ->
    Forall Trace.call_nonnegative cs ->
    forall l, In l (Store.licenses (Trace.run Store.init_db cs)) ->
      0 <= Store.active_count (Trace.run Store.init_db cs)
                              (Store.license_key l)
        <= Store.max_activations l.
Proof.
  intros cs Hok Hcan Hn l Hl.
  pose proof (CounterFacts.tidy_run cs Store.init_db Hok Hcan
                CounterFacts.tidy_init) as Ht.
  assert (Hw : Trace.within_limit (Trace.run Store.init_db cs)).
  { apply ReachFacts.within_limit_run; auto using WellFormed.wf_init.
    intros r []. }
  rewrite <- (Trace.tidy_count _ Ht l Hl).
  split; [|exact (Hw l Hl)].
  rewrite (Trace.tidy_count _ Ht l Hl). unfold Store.active_count. lia.
Qed.

(** One seat: M1 takes it, M2 is refused, M1 gives it up, M2 takes it and
    M1 is refused. *)
Lemma active_machines_witness :
  let cs :=
    [Trace.Create Sample.token_aa (Sample.tick 0) "a@x.com" "pro_annual" 1;
     Trace.Activate (Sample.tick 10) Sample.key_aa "a@x.com" "M1" None;
     Trace.Activate (Sample.tick 20) Sample.key_aa "a@x.com" "M2" None;
     Trace.Deactivate Sample.key_aa "M1";
     Trace.Activate (Sample.tick 30) Sample.key_aa "a@x.com" "M2" None;
     Trace.Activate (Sample.tick 40) Sample.key_aa "a@x.com" "M3" None] in
  Forall Trace.call_ok cs /\ Forall Trace.call_canonical cs /\
  Forall Trace.call_nonnegative cs /\
  List.map Store.a_status (Store.activations (Trace.run Store.init_db cs)) =
    ["deactivated"; "active"] /\
  forall l, In l (Store.licenses (Trace.run Store.init_db cs)) ->
    0 <= Store.active_count (Trace.run Store.init_db cs) (Store.license_key l)
      <= Store.max_activations l.
Proof.
  cbv zeta.
  split; [repeat constructor|]. split; [repeat constructor|].
  split; [repeat constructor; cbn; lia|]. split; [reflexivity|].
  apply active_machines_stay_within_the_limit.
  - repeat constructor.
  - repeat constructor.
  - repeat constructor; cbn; lia.
Defined.

(** Two machines on one license, one of them deactivated again. *)
Lemma counters_match_witness :
  let cs :=
    [Trace.Create Sample.token_aa (Sample.tick 0) "a@x.com" "pro_annual" 2;
     Trace.Activate (Sample.tick 10) Sample.key_aa "a@x.com" "M1" None;
     Trace.Activate (Sample.tick 20) Sample.key_aa "a@x.com" "M2" None;
     Trace.Verify (Sample.tick 30) 0 Sample.key_aa "M2";
     Trace.Deactivate Sample.key_aa "M1"] in
  Forall Trace.call_ok cs /\ Forall Trace.call_canonical cs /\
  List.map Store.current_activations
           (Store.licenses (Trace.run Store.init_db cs)) = [1] /\
  Trace.counter_matches (Trace.run Store.init_db cs) /\
  NoDup (List.map Trace.act_pair
                  (Store.activations (Trace.run Store.init_db cs))).
Proof.
  cbv zeta.
  split; [repeat constructor|]. split; [repeat constructor|].
  split; [reflexivity|].
  apply counters_match_when_keys_are_spelled_as_stored;
    repeat constructor.
Defined.

(** X18.  No answer ever names the status of a license.  Every license
    that the four operations store is active and none of them changes
    that, so in the databases they build from the empty one neither
    [activate] nor [verify] ever answers "License is ...". *)
Theorem license_status_is_never_reported :
  forall cs,
    Forall Trace.call_ok cs ->
    forall clk sel key email m ip st,
      snd (Lifecycle.activate (Trace.run Store.init_db cs) clk key email m ip)
        <> Lifecycle.ActLicenseIs st /\
      snd (Lifecycle.verify (Trace.run Store.init_db cs) clk sel key m)
        <> Lifecycle.VerLicenseIs st.
Proof.
  intros cs Hok clk sel key email m ip st.
  pose proof (HistoryFacts.consistent_run cs Store.init_db Hok
                HistoryFacts.consistent_init) as Hc.
  set (db := Trace.run Store.init_db cs) in *.
  assert (Hact : forall k l, Store.find_license db k = Some l ->
                             (Store.status l =? "active")%string = true).
  { intros k l Hf. destruct (WellFormed.find_license_some _ _ _ Hf) as [Hl _].
    destruct (Trace.consistent_licenses _ Hc l Hl) as [Hs _].
    rewrite Hs. reflexivity. }
  split.
  - unfold Lifecycle.activate.
    destruct (negb _); [discriminate|].
    destruct (Store.find_license db (Str.strip key)) as [l|] eqn:Hf;
      [|discriminate].
    rewrite (Hact _ _ Hf). cbn [negb].
    destruct (negb _); [discriminate|].
    destruct (List.find _ _).
    + rewrite Frame.expiry_response. discriminate.
    + destruct (_ >=? _); [discriminate|].
      rewrite Frame.expiry_response. discriminate.
  - unfold Lifecycle.verify, Lifecycle.verify_join.
    destruct (negb _); [discriminate|].
    destruct (Store.find_license db (Str.strip key)) as [l|] eqn:Hf;
      [|discriminate].
    rewrite (Hact _ _ Hf). cbn [negb].
    destruct (Store.fetch_one _ _) as [a|]; [|discriminate].
    destruct (negb _); [discriminate|].
    destruct (Store.billing_type l =? "annual")%string,
             (Store.expires_at l) as [e|]; try discriminate.
    destruct (clk 0%nat >? e); discriminate.
Qed.

(** A history with a license and an unknown key. *)
Lemma license_status_witness :
  let cs :=
    [Trace.Create Sample.token_aa (Sample.tick 0) "a@x.com" "pro_annual" 1;
     Trace.Activate (Sample.tick 10) Sample.key_aa "a@x.com" "M1" None] in
  Forall Trace.call_ok cs /\
  snd (Lifecycle.verify (Trace.run Store.init_db cs) (Sample.tick 20) 0
         Sample.key_aa "M1") <> Lifecycle.VerLicenseIs "suspended".
Proof.
  cbv zeta. split; [repeat constructor|].
  apply (license_status_is_never_reported
           [Trace.Create Sample.token_aa (Sample.tick 0) "a@x.com"
                         "pro_annual" 1;
            Trace.Activate (Sample.tick 10) Sample.key_aa "a@x.com" "M1" None]
           (ltac:(repeat constructor)) (Sample.tick 20) 0%nat Sample.key_aa
           "" "M1" None "suspended").
Defined.

(** X19.  [activate] does not look at the expiry date.  For an annual
    license with a stored expiry date, a machine that has a row under the
    key of the request is answered with success and with an expiry date a
    year after the request, whatever the stored date is; the stored date
    stays, and [verify] goes by it: once it has passed, the same machine is
    told that the license has expired. *)
Theorem activate_does_not_check_expiry :
  forall db clk key email m ip l a e clk2 sel,
    Trace.consistent db ->
    Str.nonempty (Str.strip key) && Str.nonempty (Str.strip email)
      && Str.nonempty (Str.strip m) = true ->
    Store.find_license db (Str.strip key) = Some l ->
    Str.py_lower (Str.strip email) = Str.py_lower (Store.email l) ->
    Store.billing_type l = "annual" -> Store.expires_at l = Some e ->
    List.find (Store.act_exact (Str.strip key) (Str.strip m))
              (Store.activations db) = Some a ->
    e < clk2 0%nat ->
    snd (Lifecycle.activate db clk key email m ip) =
      Lifecycle.ActOk (Store.type l) (Store.tier l) "annual"
        (Some (clk 1%nat + Lifecycle.days365))
        (clk 1%nat + Lifecycle.days365) /\
    Store.licenses (fst (Lifecycle.activate db clk key email m ip)) =
      Store.licenses db /\
    snd (Lifecycle.verify (fst (Lifecycle.activate db clk key email m ip))
           clk2 sel key m) = Lifecycle.VerExpired.
Proof.
  intros db clk key email m ip l a e clk2 sel Hc Hne Hf He Hb Hx Ha Hlt.
  destruct (WellFormed.find_license_some _ _ _ Hf) as [Hl Hieq].
  destruct (Trace.consistent_licenses _ Hc l Hl) as [Hs _].
  assert (Hs' : (Store.status l =? "active")%string = true)
    by (now apply String.eqb_eq).
  assert (He' : (Str.py_lower (Str.strip email)
                 =? Str.py_lower (Store.email l))%string = true)
    by (now apply String.eqb_eq).
  pose proof (HistoryFacts.consistent_activate db clk key email m ip Hc)
    as Hc1.
  rewrite (TwiceFacts.activate_existing db clk key email m ip l a
             Hne Hf Hs' He' Ha) in Hc1 |- *.
  set (db1 := Store.with_activations db
                (Store.update_where
                   (Store.act_exact (Str.strip key) (Str.strip m))
                   (Store.set_last_verified_ip (clk 0%nat) ip)
                   (Store.activations db))) in *.
  set (db2 := fst (Lifecycle.activate_expiry db1 (Str.strip key) l
                     (clk 1%nat))) in *.
  assert (Hlic : Store.licenses db2 = Store.licenses db).
  { unfold db2. rewrite Frame.expiry_licenses, Hx. reflexivity. }
  split; [|split; [exact Hlic|]].
  - rewrite Frame.expiry_response, Hb. reflexivity.
  - assert (Hf2 : Store.find_license db2 (Str.strip key) = Some l).
    { unfold Store.find_license. rewrite Hlic. exact Hf. }
    assert (Hrow : Trace.has_row db2 (Store.license_key l) (Str.strip m)).
    { apply (HistoryFacts.has_row_same db1);
        [unfold db2; apply Frame.expiry_activations|].
      apply HistoryFacts.has_row_update; [reflexivity|].
      apply find_some in Ha as [Hin Hex]. exists a. split; [exact Hin|].
      unfold Store.act_exact in Hex. unfold Store.act_ieq.
      apply andb_true_iff in Hex as [Hk Hm].
      apply String.eqb_eq in Hk.
      now rewrite Hm, Hk, StoreFacts.key_ieq_sym, Hieq. }
    destruct (AnswerFacts.verify_join_has_row db2 sel _ _ l Hf2 Hrow)
      as [a' Hj].
    destruct (AnswerFacts.verify_join_some _ _ _ _ _ _ Hj) as (_ & Hin' & _).
    apply AnswerFacts.verify_expired_iff.
    apply andb_true_iff in Hne as [Hne Hmn].
    apply andb_true_iff in Hne as [Hkn _].
    split; [now rewrite Hkn, Hmn|].
    exists l, a', e. repeat split; auto.
    exact (Trace.consistent_rows _ Hc1 a' Hin').
Qed.

(** The annual sample license, two years after its activation. *)
Lemma activate_does_not_check_expiry_witness :
  let db := Sample.db_m1 "pro_annual" 1 in
  let later := 2 * Lifecycle.days365 in
  Trace.consistent db /\
  List.map Store.expires_at (Store.licenses db) =
    [Some (13 + Lifecycle.days365)] /\
  snd (Lifecycle.activate db (Sample.tick later) Sample.key_aa "a@x.com"
         "M1" None) =
    Lifecycle.ActOk "pro" "pro_annual" "annual"
      (Some (later + 1 + Lifecycle.days365)) (later + 1 + Lifecycle.days365) /\
  snd (Lifecycle.verify
         (fst (Lifecycle.activate db (Sample.tick later) Sample.key_aa
                 "a@x.com" "M1" None))
         (Sample.tick (later + 10)) 0 Sample.key_aa "M1") =
    Lifecycle.VerExpired.
Proof.
  cbv zeta.
  assert (Hc : Trace.consistent (Sample.db_m1 "pro_annual" 1)).
  { apply (HistoryFacts.consistent_run
             [Trace.Create Sample.token_aa (Sample.tick 0) "a@x.com"
                           "pro_annual" 1;
              Trace.Activate (Sample.tick 10) Sample.key_aa "a@x.com" "M1"
                             None] Store.init_db);
      [repeat constructor | apply HistoryFacts.consistent_init]. }
  split; [exact Hc|]. split; [reflexivity|].
  edestruct (activate_does_not_check_expiry (Sample.db_m1 "pro_annual" 1)
               (Sample.tick (2 * Lifecycle.days365)) Sample.key_aa "a@x.com"
               "M1" None) as (Hr & _ & Hv);
    [exact Hc | reflexivity | reflexivity | reflexivity | reflexivity
    | reflexivity | reflexivity | |].
  2: { split; [etransitivity; [exact Hr | reflexivity] | exact Hv]. }
  reflexivity.
Defined.

(** ** What the stored rows look like *)

Module WrittenFacts.
Import Str Store Lifecycle Trace StoreFacts Frame WellFormed.

Lemma same_keys (P : string -> Prop) (ls ls' : list License) :
  List.map license_key ls' = List.map license_key ls ->
  (forall l, In l ls -> P (license_key l)) ->
  forall l, In l ls' -> P (license_key l).
Proof.
  intros E H l Hl.
  apply (List.in_map license_key) in Hl. rewrite E in Hl.
  apply in_map_iff in Hl as (l0 & <- & Hl0). now apply H.
Qed.

Lemma statuses_updated (P : string -> Prop) p f (rows : list Activation) :
  (forall r, P (a_status r) -> P (a_status (f r))) ->
  (forall a, In a rows -> P (a_status a)) ->
  forall a, In a (update_where p f rows) -> P (a_status a).
Proof.
  intros Hf H a Ha.
  destruct (in_update_where _ _ _ _ Ha) as [r [Hr ->]].
  destruct (p r); auto.
Qed.

Lemma as_written_step db c :
  call_ok c -> as_written db -> as_written (step db c).
Proof.
  intros Hok [Hk Hs].
  destruct c as [tb clk e t mx | clk k e m ip | clk sel k m | k m];
    cbn [step call_ok] in *.
  - split; [|now rewrite create_activations].
    unfold create_license.
    destruct (fits_int64 _); cbn [negb]; [|exact Hk].
    destruct (existsb _ _); [exact Hk|].
    cbn [fst licenses with_licenses]. intros l Hl.
    apply in_app_or in Hl as [Hl|[<-|[]]]; [now apply Hk|].
    cbn [license_key]. now apply KeyGenFacts.generate_format.
  - split; [exact (same_keys KeyGen.key_format _ _
                     (activate_keys db clk k e m ip) Hk)|].
    destruct (CounterFacts.activate_shape db clk k e m ip)
      as [E | [(l & a & _ & _ & E) | (l & _ & _ & E)]]; rewrite E;
      [exact Hs | |]; rewrite expiry_activations;
      cbn [activations with_activations with_licenses].
    + apply (statuses_updated
             (fun s => s = "active" \/ s = "deactivated")); [intros r Hr; exact Hr | exact Hs].
    + intros a Ha. apply in_app_or in Ha as [Ha|[<-|[]]];
        [now apply Hs | now left].
  - split; [now rewrite verify_licenses|].
    destruct (CounterFacts.verify_shape db clk sel k m)
      as [E | [[lg E] | (t & lg & E)]]; rewrite E;
      cbn [activations with_log with_activations]; try exact Hs.
    apply (statuses_updated
             (fun s => s = "active" \/ s = "deactivated")); [intros r Hr; exact Hr | exact Hs].
  - split; [exact (same_keys KeyGen.key_format _ _ (deactivate_keys db k m) Hk)|].
    destruct (snd (deactivate db k m)) eqn:Hr;
      try (rewrite VerifyFacts.deactivate_failed
             by (rewrite Hr; discriminate); exact Hs).
    destruct (VerifyFacts.deactivate_ok db k m Hr) as (_ & _ & E). rewrite E.
    cbn [activations with_licenses with_activations].
    apply (statuses_updated
             (fun s => s = "active" \/ s = "deactivated")); [intros r _; now right | exact Hs].
Qed.

Lemma as_written_run cs :
  forall db, Forall call_ok cs -> as_written db -> as_written (run db cs).
Proof.
  induction cs as [|c cs IH]; intros db Hok Hw; [exact Hw|].
  inversion Hok; subst. cbn [run fold_left].
  apply IH; auto using as_written_step.
Qed.

End WrittenFacts.

(** X20.  What is stored.  In every database that the four operations
    build from the empty one, every license key has the format
    [UPAGER-XXXX-XXXX-XXXX-XXXX] of the generator, whatever spellings the
    requests used, and the status of every activation row is "active" or
    "deactivated". *)
Theorem stored_keys_and_statuses_are_as_written :
  forall cs,
    Forall Trace.call_ok cs ->
    (forall l, In l (Store.licenses (Trace.run Store.init_db cs)) ->
       KeyGen.key_format (Store.license_key l)) /\
    (forall a, In a (Store.activations (Trace.run Store.init_db cs)) ->
       Store.a_status a = "active" \/ Store.a_status a = "deactivated").
Proof.
  intros cs Hok.
  apply (WrittenFacts.as_written_run cs Store.init_db Hok).
  split; intros x [].
Qed.

(** A license activated in lower case and deactivated in upper case. *)
Lemma stored_keys_and_statuses_witness :
  let cs :=
    [Trace.Create Sample.token_aa (Sample.tick 0) "a@x.com" "pro_annual" 1;
     Trace.Activate (Sample.tick 10) Sample.key_aa_lower "a@x.com" "M1" None;
     Trace.Deactivate Sample.key_aa "M1"] in
  Forall Trace.call_ok cs /\
  List.map Store.license_key (Store.licenses (Trace.run Store.init_db cs)) =
    [Sample.key_aa] /\
  List.map Store.a_status (Store.activations (Trace.run Store.init_db cs)) =
    ["deactivated"] /\
  (forall l, In l (Store.licenses (Trace.run Store.init_db cs)) ->
     KeyGen.key_format (Store.license_key l)) /\
  (forall a, In a (Store.activations (Trace.run Store.init_db cs)) ->
     Store.a_status a = "active" \/ Store.a_status a = "deactivated").
Proof.
  cbv zeta. split; [repeat constructor|].
  split; [reflexivity|]. split; [reflexivity|].
  apply stored_keys_and_statuses_are_as_written. repeat constructor.
Defined.

(** ** The round trip of a lifetime license, and deactivating twice *)

Module PairFacts.
Import Str Store Lifecycle Trace StoreFacts WellFormed.

(** Where no request has spelled a key in another case, a machine has one
    row per license: every row that the join of [verify] or the SELECT of
    [deactivate] pairs with the key is that row. *)
Lemma one_row_per_pair db k m a a' :
  tidy db -> sql_upper k = k ->
  In a (activations db) -> a_license_key a = k -> a_machine_id a = m ->
  In a' (activations db) -> act_ieq k m a' = true -> a' = a.
Proof.
  intros Ht Hk Ha Hak Ham Ha' Hq.
  apply (NoDup_map_inj act_pair (activations db));
    [exact (tidy_pairs _ Ht) | exact Ha' | exact Ha |].
  unfold act_ieq in Hq. apply andb_true_iff in Hq as [Hq Hm].
  apply String.eqb_eq in Hm.
  rewrite CounterFacts.key_ieq_canonical in Hq
    by (auto; exact (tidy_rows _ Ht a' Ha')).
  apply String.eqb_eq in Hq.
  unfold act_pair. now rewrite Hq, Hm, Hak, Ham.
Qed.

End PairFacts.

(** X21.  The round trip of a fresh license.  A license created with tier
    "pro_lifetime", in a database with upper-case keys whose activation rows
    refer to stored licenses, and then activated with success on a machine,
    under any spelling of its key: the [activate] reports no expiry date
    and inserts one row, whose [activated_at] is the first clock reading of
    the request, and a [verify] for the same key and machine that follows
    answers valid, with no expiry date and with the maintenance date
    365 days after that [activated_at], whatever the order of the join. *)
Theorem lifetime_round_trip_of_a_fresh_license :
  forall db tb c0 c1 c2 sel email max db1 key k email' m ip db2
         ty tr bl ex mx,
    Trace.keys_canonical db -> Trace.activations_refer db ->
    List.length (tb 8%nat) = 8%nat ->
    Lifecycle.create_license db tb c0 email "pro_lifetime" max =
      (db1, Lifecycle.Returns (Some key)) ->
    Store.key_ieq (Str.strip k) key = true ->
    Lifecycle.activate db1 c1 k email' m ip =
      (db2, Lifecycle.ActOk ty tr bl ex mx) ->
    ex = None /\
    Store.activations db2 =
      (Store.activations db1 ++
       [Store.mkActivation (Str.strip k) (Str.strip m) ip (c1 0%nat)
                           (Some (c1 1%nat)) "active"])%list /\
    snd (Lifecycle.verify db2 c2 sel k m) =
    Lifecycle.VerValid "pro" "pro_lifetime" "one-time" None
      (Some (c1 0%nat + Lifecycle.days365)).
Proof.
  intros db tb c0 c1 c2 sel email max db1 key k email' m ip db2
         ty tr bl ex mx Hc Hr Hlen Hcr Hk Hact.
  destruct (RoundTripFacts.lifetime_round_trip_direct
              db tb c0 c1 c2 sel email max db1 key k email' m ip db2
              ty tr bl ex mx Hc Hr Hlen Hcr Hk Hact)
    as (Hex & l & a & _ & _ & -> & Hacts & Hv).
  split; [exact Hex|]. split; [exact Hacts | exact Hv].
Qed.

(** The first license of an empty database, activated and verified with
    the key in lower case. *)
Lemma lifetime_round_trip_witness :
  let db1 := Sample.db_one "pro_lifetime" 1 in
  let db2 := fst (Lifecycle.activate db1 (Sample.tick 10) Sample.key_aa_lower
                    "a@x.com" "M1" None) in
  Trace.keys_canonical Store.init_db /\ Trace.activations_refer Store.init_db /\
  List.length (Sample.token_aa 8%nat) = 8%nat /\
  Lifecycle.create_license Store.init_db Sample.token_aa (Sample.tick 0)
    "a@x.com" "pro_lifetime" 1 =
    (db1, Lifecycle.Returns (Some Sample.key_aa)) /\
  Store.key_ieq (Str.strip Sample.key_aa_lower) Sample.key_aa = true /\
  Lifecycle.activate db1 (Sample.tick 10) Sample.key_aa_lower "a@x.com" "M1"
                     None =
    (db2, Lifecycle.ActOk "pro" "pro_lifetime" "one-time" None
            (13 + Lifecycle.days365)) /\
  forall sel,
    snd (Lifecycle.verify db2 (Sample.tick 50) sel Sample.key_aa_lower "M1") =
    Lifecycle.VerValid "pro" "pro_lifetime" "one-time" None
      (Some (10 + Lifecycle.days365)).
Proof.
  cbv zeta.
  assert (Hc : Trace.keys_canonical Store.init_db) by (intros l []).
  assert (Hr : Trace.activations_refer Store.init_db) by (intros a []).
  split; [exact Hc|]. split; [exact Hr|].
  split; [reflexivity|]. split; [reflexivity|]. split; [reflexivity|].
  split; [reflexivity|]. intros sel.
  exact (proj2 (proj2
    (lifetime_round_trip_of_a_fresh_license Store.init_db Sample.token_aa
       (Sample.tick 0) (Sample.tick 10) (Sample.tick 50) sel "a@x.com" 1
       (Sample.db_one "pro_lifetime" 1) Sample.key_aa Sample.key_aa_lower
       "a@x.com" "M1" None _ "pro" "pro_lifetime" "one-time" None
       (13 + Lifecycle.days365) Hc Hr eq_refl eq_refl eq_refl eq_refl))).
Defined.

(** X22.  The maintenance date is that of the activation.  In a database
    that the operations have kept consistent and in which no request has
    spelled a key in another case than it is stored, a [verify] on a
    license with tier "pro_lifetime" for a machine that has an activation
    row answers valid, with no expiry date and with the maintenance date
    365 days after the [activated_at] of that row, under any spelling of
    the key in the request and whatever the order of the join.  Every
    database that requests with upper-case keys build from the empty one is
    such a database. *)
Theorem lifetime_verify_reads_the_activation_row :
  forall db l a clk sel k m,
    Trace.tidy db -> Trace.consistent db ->
    In l (Store.licenses db) -> Store.tier l = "pro_lifetime" ->
    In a (Store.activations db) ->
    Store.a_license_key a = Store.license_key l ->
    Store.a_machine_id a = Str.strip m ->
    Store.key_ieq (Str.strip k) (Store.license_key l) = true ->
    Str.nonempty (Str.strip k) && Str.nonempty (Str.strip m) = true ->
    snd (Lifecycle.verify db clk sel k m) =
    Lifecycle.VerValid "pro" "pro_lifetime" "one-time" None
      (Some (Store.a_activated_at a + Lifecycle.days365)).
Proof.
  intros db l a clk sel k m Ht Hc Hl Htier Ha Hak Ham Hk Hne.
  assert (Hq : Store.act_ieq (Store.license_key l) (Str.strip m) a = true).
  { unfold Store.act_ieq.
    now rewrite Hak, Ham, StoreFacts.key_ieq_refl, String.eqb_refl. }
  destruct (HistoryFacts.verify_lifetime db clk sel k m l Hc Hl Htier Hk
              (ex_intro _ a (conj Ha Hq)) Hne) as [a' [Hj Hv]].
  destruct (AnswerFacts.verify_join_some _ _ _ _ _ _ Hj) as (_ & Ha' & Hq').
  rewrite (PairFacts.one_row_per_pair db (Store.license_key l) (Str.strip m)
             a a' Ht (Trace.wf_canonical _ (Trace.tidy_wf _ Ht) l Hl)
             Ha Hak Ham Ha' Hq') in Hv.
  exact Hv.
Qed.

(** Machine M1 on a lifetime license, after a deactivation and a second
    activation, verified in lower case. *)
Lemma lifetime_verify_witness :
  let cs :=
    [Trace.Create Sample.token_aa (Sample.tick 0) "a@x.com" "pro_lifetime" 1;
     Trace.Activate (Sample.tick 10) Sample.key_aa "a@x.com" "M1" None;
     Trace.Deactivate Sample.key_aa "M1";
     Trace.Activate (Sample.tick 20) Sample.key_aa "a@x.com" "M1" None] in
  Forall Trace.call_ok cs /\ Forall Trace.call_canonical cs /\
  List.map (fun a => (Store.a_license_key a, Store.a_machine_id a,
                      Store.a_activated_at a, Store.a_status a))
           (Store.activations (Trace.run Store.init_db cs)) =
    [(Sample.key_aa, "M1", 10, "deactivated")] /\
  forall sel,
    snd (Lifecycle.verify (Trace.run Store.init_db cs) (Sample.tick 50) sel
           Sample.key_aa_lower "M1") =
    Lifecycle.VerValid "pro" "pro_lifetime" "one-time" None
      (Some (10 + Lifecycle.days365)).
Proof.
  cbv zeta.
  assert (Hok : Forall Trace.call_ok
    [Trace.Create Sample.token_aa (Sample.tick 0) "a@x.com" "pro_lifetime" 1;
     Trace.Activate (Sample.tick 10) Sample.key_aa "a@x.com" "M1" None;
     Trace.Deactivate Sample.key_aa "M1";
     Trace.Activate (Sample.tick 20) Sample.key_aa "a@x.com" "M1" None])
    by (repeat constructor).
  assert (Hcan : Forall Trace.call_canonical
    [Trace.Create Sample.token_aa (Sample.tick 0) "a@x.com" "pro_lifetime" 1;
     Trace.Activate (Sample.tick 10) Sample.key_aa "a@x.com" "M1" None;
     Trace.Deactivate Sample.key_aa "M1";
     Trace.Activate (Sample.tick 20) Sample.key_aa "a@x.com" "M1" None])
    by (repeat constructor).
  split; [exact Hok|]. split; [exact Hcan|]. split; [reflexivity|].
  intros sel.
  eapply (lifetime_verify_reads_the_activation_row _ _
            (Store.mkActivation Sample.key_aa "M1" None 10 (Some 20)
                                "deactivated"));
    [ exact (CounterFacts.tidy_run _ _ Hok Hcan CounterFacts.tidy_init)
    | exact (HistoryFacts.consistent_run _ _ Hok HistoryFacts.consistent_init)
    | left; reflexivity | reflexivity | left; reflexivity
    | reflexivity .. ].
Defined.

(** X23.  Deactivating what is deactivated.  A [deactivate] for a key and
    machine all of whose rows, the key compared without regard to case, are
    deactivated answers "No active activation found" and leaves the
    database as it is, rows and counters alike; so the same [deactivate]
    twice in a row lowers the counter once.  Where no request has spelled a
    key in another case than it is stored, a machine has one row per
    license, and the [deactivate] of a pair whose row is deactivated is
    refused. *)
Theorem deactivate_of_a_deactivated_pair_is_refused :
  (forall db key m,
     Str.nonempty (Str.strip key) && Str.nonempty (Str.strip m) = true ->
     (forall a, In a (Store.activations db) ->
        Store.act_ieq (Str.strip key) (Str.strip m) a = true ->
        Store.a_status a = "deactivated") ->
     Lifecycle.deactivate db key m = (db, Lifecycle.DeNoActiveActivation)) /\
  (forall db key m,
     snd (Lifecycle.deactivate db key m) = Lifecycle.DeOk ->
     Lifecycle.deactivate (fst (Lifecycle.deactivate db key m)) key m =
     (fst (Lifecycle.deactivate db key m), Lifecycle.DeNoActiveActivation)) /\
  (forall db key m a,
     Trace.tidy db ->
     Str.sql_upper (Str.strip key) = Str.strip key ->
     Str.nonempty (Str.strip key) && Str.nonempty (Str.strip m) = true ->
     In a (Store.activations db) ->
     Store.a_license_key a = Str.strip key ->
     Store.a_machine_id a = Str.strip m ->
     Store.a_status a = "deactivated" ->
     Lifecycle.deactivate db key m = (db, Lifecycle.DeNoActiveActivation)).
Proof.
  split; [exact VerifyFacts.deactivate_refused|]. split.
  - intros db key m Hok.
    destruct (VerifyFacts.deactivate_ok db key m Hok) as (Hne & _ & E).
    apply VerifyFacts.deactivate_refused; [exact Hne|].
    rewrite E.
    cbn [Store.activations Store.with_licenses Store.with_activations].
    apply VerifyFacts.deactivated_rows.
  - intros db key m a Ht Hk Hne Ha Hak Ham Hst.
    apply VerifyFacts.deactivate_refused; [exact Hne|].
    intros a' Ha' Hq'.
    now rewrite (PairFacts.one_row_per_pair db _ _ a a' Ht Hk Ha Hak Ham
                   Ha' Hq').
Qed.

(** The second of two deactivations of machine M1. *)
Lemma deactivate_of_a_deactivated_pair_witness :
  let db := Sample.db_m1 "pro_annual" 1 in
  let db' := Sample.db_m1_off "pro_annual" 1 in
  snd (Lifecycle.deactivate db Sample.key_aa "M1") = Lifecycle.DeOk /\
  Lifecycle.deactivate db' Sample.key_aa "M1" =
    (db', Lifecycle.DeNoActiveActivation) /\
  Trace.tidy db' /\
  List.map Store.a_status (Store.activations db') = ["deactivated"] /\
  Lifecycle.deactivate db' Sample.key_aa_lower "M1" =
    (db', Lifecycle.DeNoActiveActivation).
Proof.
  cbv zeta.
  destruct deactivate_of_a_deactivated_pair_is_refused
    as (Hrows & Htwice & Hpair).
  assert (Ht : Trace.tidy (Sample.db_m1_off "pro_annual" 1)).
  { apply (CounterFacts.tidy_run
             [Trace.Create Sample.token_aa (Sample.tick 0) "a@x.com"
                           "pro_annual" 1;
              Trace.Activate (Sample.tick 10) Sample.key_aa "a@x.com" "M1"
                             None;
              Trace.Deactivate Sample.key_aa "M1"] Store.init_db);
      [repeat constructor | repeat constructor | apply CounterFacts.tidy_init]. }
  split; [reflexivity|].
  split; [apply (Htwice (Sample.db_m1 "pro_annual" 1)); reflexivity|].
  split; [exact Ht|]. split; [reflexivity|].
  apply Hrows; [reflexivity|].
  intros a' Ha' Hq'. destruct Ha' as [<-|[]]. reflexivity.
Defined.
